(** * quizai: the quiz session engine and its history store

    A shallow embedding of [src/quiz.js] (class [Quiz]), of the
    persistence half of [src/resultsManager.js] (class [ResultsManager])
    and of the checks of [src/questionLoader.js] (class
    [QuestionLoader]), followed by the properties the specification
    states about them and by further properties of the code.

    Conventions of the embedding.
    - A JavaScript number that is used as an option index is a [Z]: a
      [JsVal] holds whole numbers only, and the properties that depend on
      a number of the question file being whole say so. The percentage of
      [finishQuiz] is computed on IEEE 754 binary64 values ([spec_float]
      with 53 bits of mantissa).
    - A string is a [string] of bytes, the UTF-8 encoding of the
      JavaScript string. [trim] removes the white space and the line
      terminators of ECMAScript; [toLowerCase] lowers the ASCII letters,
      which is all it does to a string of ASCII characters, and the
      properties that depend on it are stated for such strings.
    - A function that may throw returns a [Completion].
    - An [async] method is cut at its [await]s: the code that runs between
      two suspensions is one function, and the session is a transition
      system driven by the events of the Node.js event loop (a prompt
      settles, the deadline timer fires). *)

From Stdlib Require Import ZArith List String Ascii Bool Lia.
From Stdlib Require Import Sorted Permutation.
From Stdlib Require Import Decimal DecimalString DecimalPos DecimalZ.
From Stdlib Require Import SpecFloat QArith.
Import ListNotations.

Close Scope Q_scope.

Local Open Scope string_scope.
Local Open Scope list_scope.
Local Open Scope Z_scope.

(* ================================================================== *)
(** * JavaScript values *)
(* ================================================================== *)

(** The primitive values a question file (JSON) or an inquirer choice can
    hold. [JUndefined] is what reading a missing property gives. A
    number is a whole number: an index of an option is one, and so is
    every value a prompt delivers. A number of the file that is not
    whole is not a [JsVal]; the loader, which sees the file as it is,
    works on a [FileValue]. *)
Inductive JsVal : Type :=
| JUndefined
| JNull
| JBool (b : bool)
| JNum (n : Z)
| JStr (s : string).

(** [a === b] on primitives. *)
Definition strict_eq (a b : JsVal) : bool :=
  match a, b with
  | JUndefined, JUndefined => true
  | JNull, JNull => true
  | JBool x, JBool y => Bool.eqb x y
  | JNum x, JNum y => Z.eqb x y
  | JStr x, JStr y => String.eqb x y
  | _, _ => false
  end.

(** The result of running code that may [throw]. *)
Inductive Completion (A : Type) : Type :=
| Normal (a : A)
| Throw (message : string).
Arguments Normal {A} a.
Arguments Throw {A} message.

Definition bind {A B : Type} (c : Completion A) (k : A -> Completion B)
  : Completion B :=
  match c with
  | Normal a => k a
  | Throw m => Throw m
  end.

Notation "x <- c ;; k" := (bind c (fun x => k))
  (at level 61, c at next level, right associativity).

(** [Array.prototype.findIndex]: the index of the first element that
    satisfies [p], or [-1]. *)
Fixpoint findIndex {A : Type} (p : A -> bool) (l : list A) : Z :=
  match l with
  | [] => -1
  | x :: rest =>
      if p x then 0
      else let k := findIndex p rest in
           if k <? 0 then -1 else k + 1
  end.

(** [Array.prototype.sort((a, b) => a - b)] on numbers: the ascending
    rearrangement of the array (insertion into a sorted prefix). *)
Fixpoint insertAscending (x : Z) (l : list Z) : list Z :=
  match l with
  | [] => [x]
  | y :: rest => if x <=? y then x :: y :: rest else y :: insertAscending x rest
  end.

Fixpoint sortAscending (l : list Z) : list Z :=
  match l with
  | [] => []
  | x :: rest => insertAscending x (sortAscending rest)
  end.

(** [String(n)] for an integer: decimal digits, a leading [-] when
    negative. *)
Definition Number_toString (n : Z) : string :=
  NilZero.string_of_int (Z.to_int n).

Fixpoint joinCommas (parts : list string) : string :=
  match parts with
  | [] => ""
  | [x] => x
  | x :: rest => (x ++ "," ++ joinCommas rest)%string
  end.

(** [JSON.stringify] of an array of integers: ["[0,1,2]"]. *)
Definition JSON_stringify (l : list Z) : string :=
  ("[" ++ joinCommas (map Number_toString l) ++ "]")%string.

(** ** String helpers *)

Definition lowerChar (c : ascii) : ascii :=
  let n := nat_of_ascii c in
  if (Nat.leb 65 n && Nat.leb n 90)%bool then ascii_of_nat (n + 32) else c.

Fixpoint toLowerCase (s : string) : string :=
  match s with
  | EmptyString => EmptyString
  | String c rest => String (lowerChar c) (toLowerCase rest)
  end.

(** [s.includes(sub)]. *)
Fixpoint includes (s sub : string) : bool :=
  (String.prefix sub s
   || match s with
      | EmptyString => false
      | String _ rest => includes rest sub
      end)%bool.

(** The string of the given bytes. *)
Definition utf8 (bytes : list nat) : string :=
  string_of_list_ascii (map ascii_of_nat bytes).

(** The code points [String.prototype.trim] removes, in UTF-8: the
    WhiteSpace of ECMAScript (U+0009, U+000B, U+000C, U+FEFF and the
    space separators U+0020, U+00A0, U+1680, U+2000 to U+200A, U+202F,
    U+205F, U+3000) and its LineTerminator (U+000A, U+000D, U+2028,
    U+2029). *)
Definition whiteSpace : list string :=
  map utf8
      [[9]; [10]; [11]; [12]; [13]; [32]; [194; 160]; [225; 154; 128];
       [226; 128; 128]; [226; 128; 129]; [226; 128; 130]; [226; 128; 131];
       [226; 128; 132]; [226; 128; 133]; [226; 128; 134]; [226; 128; 135];
       [226; 128; 136]; [226; 128; 137]; [226; 128; 138]; [226; 128; 168];
       [226; 128; 169]; [226; 128; 175]; [226; 129; 159]; [227; 128; 128];
       [239; 187; 191]]%nat.

(** [s] without its first [n] bytes. *)
Fixpoint skip (n : nat) (s : string) : string :=
  match n, s with
  | O, _ => s
  | S k, String _ rest => skip k rest
  | S _, EmptyString => EmptyString
  end.

(** What follows the element of [prefixes] that [s] starts with, if it
    starts with one. *)
Definition afterPrefix (prefixes : list string) (s : string) : option string :=
  option_map (fun p => skip (String.length p) s)
             (find (fun p => String.prefix p s) prefixes).

(** [s] once the elements of [prefixes] it starts with are dropped, one
    after the other; each turn drops one. *)
Fixpoint dropPrefixes (prefixes : list string) (fuel : nat) (s : string)
  : string :=
  match fuel with
  | O => s
  | S fuel' =>
      match afterPrefix prefixes s with
      | Some rest => dropPrefixes prefixes fuel' rest
      | None => s
      end
  end.

Definition reverse (s : string) : string :=
  string_of_list_ascii (List.rev (list_ascii_of_string s)).

(** [trimStart], [trimEnd] and [trim]: the white space is dropped from
    the start, and from the end by way of the reversed string. A turn
    drops at least one byte, so the length of the string is fuel
    enough. *)
Definition trimStart (s : string) : string :=
  dropPrefixes whiteSpace (String.length s) s.

Definition trimEnd (s : string) : string :=
  reverse (dropPrefixes (map reverse whiteSpace) (String.length s) (reverse s)).

Definition trim (s : string) : string := trimEnd (trimStart s).

(* ================================================================== *)
(** * Data model *)
(* ================================================================== *)

(** An entry of [question.options]: a plain string or an object with a
    [text] and a [value] property (the loader accepts nothing else). *)
Inductive OptionEntry : Type :=
| OptString (s : string)
| OptObject (text value : JsVal).

(** A question as the question loader hands it over. [options] is read by
    the choice types only, for which the loader guarantees an array;
    [correctAnswers], [sampleAnswers] and [keywords] may be absent. *)
Module Question.
Record t : Type := mk {
  id : string;
  question : string;
  type : string;
  description : option string;
  options : list OptionEntry;
  correctAnswers : option (list JsVal);
  sampleAnswers : option (list string);
  keywords : option (list string);
  explanation : option string
}.
End Question.

(** What the user answered: an index (list prompt), the sorted indices
    (checkbox prompt) or the trimmed text (input prompt). *)
Inductive UserAnswer : Type :=
| AnswerIndex (i : Z)
| AnswerIndices (l : list Z)
| AnswerText (s : string).

(** The object [askQuestion] pushes onto [this.answers] (quiz.js 127-135). *)
Module AnswerRecord.
Record t : Type := mk {
  questionId : string;
  question : string;
  type : string;
  userAnswer : UserAnswer;
  isCorrect : bool;
  correctAnswers : option (list JsVal);
  timestamp : Z
}.
End AnswerRecord.

(* ================================================================== *)
(** * Answer validators *)
(* ================================================================== *)

(** The predicate both validators (and the loader) hand to [findIndex]:
    [(typeof opt === 'string' && opt === answer) ||
     (typeof opt === 'object' && (opt.text === answer || opt.value === answer))]. *)
Definition optionMatches (answer : JsVal) (opt : OptionEntry) : bool :=
  match opt with
  | OptString s => strict_eq (JStr s) answer
  | OptObject text value => (strict_eq text answer || strict_eq value answer)%bool
  end.

(** [typeof answer === 'number' ? answer : options.findIndex(...)]. *)
Definition resolveAnswer (options : list OptionEntry) (answer : JsVal) : Z :=
  match answer with
  | JNum n => n
  | _ => findIndex (optionMatches answer) options
  end.

Definition TypeError_undefined : string :=
  "Cannot read properties of undefined".

(** [Quiz.validateMultipleChoice] (quiz.js 270-280). *)
Definition validateMultipleChoice (question : Question.t) (userAnswer : list Z)
  : Completion bool :=
  match Question.correctAnswers question with
  | None => Throw TypeError_undefined
  | Some answers =>
      let correctAnswers :=
        sortAscending (map (resolveAnswer (Question.options question)) answers) in
      Normal (String.eqb (JSON_stringify userAnswer) (JSON_stringify correctAnswers))
  end.

(** [array[0]]. *)
Definition firstEntry (l : list JsVal) : JsVal :=
  match l with
  | [] => JUndefined
  | x :: _ => x
  end.

(** [Quiz.validateSingleChoice] (quiz.js 288-301). *)
Definition validateSingleChoice (question : Question.t) (userAnswer : Z)
  : Completion bool :=
  match Question.correctAnswers question with
  | None => Throw TypeError_undefined
  | Some answers =>
      let correctAnswer := firstEntry answers in
      match correctAnswer with
      | JNum n => Normal (userAnswer =? n)
      | _ =>
          let correctIndex :=
            findIndex (optionMatches correctAnswer) (Question.options question) in
          Normal (userAnswer =? correctIndex)
      end
  end.

(** The three choices of the self-assessment prompt, [name] and [value]
    (quiz.js 330-334). *)
Definition selfAssessmentChoices : list (string * JsVal) :=
  [("Correct - I'm confident in my answer", JBool true);
   ("Incorrect - I think I got it wrong", JBool false);
   ("Partially correct - Some parts right", JStr "partial")].

(** [Quiz.validateFreeForm], after its prompt has settled (quiz.js 340):
    [selfAssessment === true || selfAssessment === 'partial']. *)
Definition validateFreeForm_result (selfAssessment : JsVal) : bool :=
  (strict_eq selfAssessment (JBool true)
   || strict_eq selfAssessment (JStr "partial"))%bool.

(* ================================================================== *)
(** * Numbers of [finishQuiz] *)
(* ================================================================== *)

(** IEEE 754 binary64, the only number type of JavaScript. *)
Definition Number_ofZ (z : Z) : spec_float := binary_normalize 53 1024 z 0 false.
Definition Number_div : spec_float -> spec_float -> spec_float := SFdiv 53 1024.
Definition Number_mul : spec_float -> spec_float -> spec_float := SFmul 53 1024.

(** [x >= y]; false as soon as one side is NaN. *)
Definition Number_geb (x y : spec_float) : bool := SFleb y x.

(** [Math.round]: the integer nearest to [x], a tie going up. A finite
    value with a non-negative exponent is already an integer; otherwise
    [x = +-m / 2^(-e)] and the result is [floor (x + 1/2)], computed
    exactly. The sign of a zero result is the sign of [x]. *)
Definition Math_round (x : spec_float) : spec_float :=
  match x with
  | S754_finite s m e =>
      if 0 <=? e then x
      else
        let numerator := (if s then Z.neg m else Z.pos m) * 2 + 2 ^ (- e) in
        let rounded := numerator / 2 ^ (1 - e) in
        if rounded =? 0 then S754_zero s else Number_ofZ rounded
  | _ => x
  end.

(** [Math.round((score / total) * 100)] (quiz.js 381). *)
Definition percentageOf (score total : nat) : spec_float :=
  Math_round
    (Number_mul
       (Number_div (Number_ofZ (Z.of_nat score)) (Number_ofZ (Z.of_nat total)))
       (Number_ofZ 100)).

Inductive Grade : Type :=
| Excellent | GreatJob | GoodWork | NotBad | KeepStudying.

(** The grade band of [finishQuiz] (quiz.js 392-408). *)
Definition gradeOf (percentage : spec_float) : Grade :=
  if Number_geb percentage (Number_ofZ 90) then Excellent
  else if Number_geb percentage (Number_ofZ 80) then GreatJob
  else if Number_geb percentage (Number_ofZ 70) then GoodWork
  else if Number_geb percentage (Number_ofZ 60) then NotBad
  else KeepStudying.

(** The object [finishQuiz] builds and hands to [saveResult] (quiz.js
    413-420). In the source [answers] is the engine's own array, shared by
    reference; the record holds the contents of that array at the moment
    the object is built. *)
Module SessionResult.
Record t : Type := mk {
  timestamp : Z;
  totalQuestions : nat;
  correctAnswers : nat;
  percentage : spec_float;
  duration : Z;
  answers : list AnswerRecord.t
}.
End SessionResult.

(* ================================================================== *)
(** * The quiz session engine *)
(* ================================================================== *)

(** The lines the engine prints that tell what happened. Separators,
    blank lines and colours are left out, and a time is kept in
    milliseconds where the engine prints minutes and seconds. *)
Inductive Output : Type :=
| OutStartingSession
| OutQuestions (count : nat)
| OutTimeLimit (milliseconds : Z)
| OutRetryAllowed (allowed : bool)
| OutCancelled
| OutTimeLimitReached
| OutQuestionHeader (number total : nat)
| OutTimeRemaining (milliseconds : Z)
| OutQuestionText (text : string)
| OutDescription (text : string)
| OutSampleAnswers (samples : list string)
| OutKeywordHint
| OutCorrect
| OutIncorrect
| OutCorrectAnswersHeader
| OutCorrectAnswer (text : JsVal)
| OutSampleCorrectAnswers (samples : list string)
| OutExplanation (text : string)
| OutTryAgain
| OutQuizCompleted
| OutResults (score total : nat) (percentage : spec_float) (duration : Z)
| OutGrade (grade : Grade)
| OutResultsSaved
| OutQuizError (message : string).

(** The fields of a [Quiz] object ([this.resultsManager] has no state of
    its own; the calls made on it are kept in the session). *)
Record Quiz : Type := mkQuiz {
  questions : list Question.t;
  timeLimit : Z;
  allowRetry : bool;
  currentQuestionIndex : nat;
  answers : list AnswerRecord.t;
  score : nat;
  startTime : option Z;
  endTime : option Z
}.

(** The [options] argument of the constructor; a missing property is
    [None]. *)
Record QuizOptions : Type := mkQuizOptions {
  opt_questions : option (list Question.t);
  opt_timeLimit : option Z;
  opt_allowRetry : option bool
}.

(** [new Quiz(options)] (quiz.js 7-17): [x || default]. *)
Definition constructor (options : QuizOptions) : Quiz :=
  {| questions := match opt_questions options with Some qs => qs | None => [] end;
     timeLimit := match opt_timeLimit options with Some t => t | None => 0 end;
     allowRetry := match opt_allowRetry options with Some b => b | None => false end;
     currentQuestionIndex := 0%nat;
     answers := [];
     score := 0%nat;
     startTime := None;
     endTime := None |}.

(** The local [timeoutId] of [start]: never set, armed, fired, or
    cleared before it fired. *)
Inductive Timeout : Type :=
| NoTimeout
| Pending
| Fired
| Cleared.

(** How the promise of [start()] settled. The first three resolve it;
    [Caught] is the [catch] block of [start], which prints the error. *)
Inductive Settlement : Type :=
| Completed
| Cancelled
| Caught (message : string)
| Rejected (message : string).

(** Where the session is suspended: the [await] it is parked on, with
    the local variables that are live there. *)
Inductive Control : Type :=
| AwaitConfirmStart
| AwaitAnswer (i : nat) (question : Question.t)
| AwaitSelfAssessment (i : nat) (question : Question.t) (userAnswer : string)
| AwaitRetry (i : nat) (question : Question.t)
| Settled (how : Settlement).

Record Session : Type := mkSession {
  this : Quiz;
  control : Control;
  timeoutId : Timeout;
  console : list Output;
  saveResultCalls : list SessionResult.t
}.

(** ** Updates of the session *)

Definition log (lines : list Output) (s : Session) : Session :=
  mkSession (this s) (control s) (timeoutId s) (console s ++ lines)
            (saveResultCalls s).

Definition setControl (c : Control) (s : Session) : Session :=
  mkSession (this s) c (timeoutId s) (console s) (saveResultCalls s).

Definition setTimeoutId (t : Timeout) (s : Session) : Session :=
  mkSession (this s) (control s) t (console s) (saveResultCalls s).

Definition setThis (q : Quiz) (s : Session) : Session :=
  mkSession q (control s) (timeoutId s) (console s) (saveResultCalls s).

(** [if (timeoutId) clearTimeout(timeoutId)]. *)
Definition clearTimeout (s : Session) : Session :=
  setTimeoutId (match timeoutId s with
                | Pending => Cleared
                | other => other
                end) s.

(** [if (text) console.log(make(text))] for an optional string. *)
Definition whenPresent (text : option string) (make : string -> Output)
  : list Output :=
  match text with
  | Some t => if String.eqb t "" then [] else [make t]
  | None => []
  end.

(** ** [finishQuiz] (quiz.js 378-424) *)

Definition finishQuiz (now : Z) (s : Session) : Session :=
  let q := this s in
  let duration := now - match startTime q with Some t => t | None => 0 end in
  let percentage := percentageOf (score q) (List.length (questions q)) in
  let results :=
    SessionResult.mk now (List.length (questions q)) (score q) percentage duration
                     (answers q) in
  mkSession
    (mkQuiz (questions q) (timeLimit q) (allowRetry q) (currentQuestionIndex q)
            (answers q) (score q) (startTime q) (Some now))
    (control s)
    (timeoutId s)
    (console s ++ [OutQuizCompleted;
                   OutResults (score q) (List.length (questions q)) percentage duration;
                   OutGrade (gradeOf percentage)]
               ++ [OutResultsSaved])
    (saveResultCalls s ++ [results]).

(** The [catch] block of [start] (quiz.js 83-88). *)
Definition catchBlock (message : string) (s : Session) : Session :=
  setControl (Settled (Caught message))
             (log [OutQuizError message] (clearTimeout s)).

(** ** [showCorrectAnswers] (quiz.js 347-373)

    The lines printed, and whether the call returned or threw after
    printing them. *)

(** [question.options[answer]]. *)
Definition optionAt (options : list OptionEntry) (answer : Z)
  : option OptionEntry :=
  if answer <? 0 then None else nth_error options (Z.to_nat answer).

Fixpoint showAnswers (options : list OptionEntry) (answers : list JsVal)
  : list Output * Completion unit :=
  match answers with
  | [] => ([], Normal tt)
  | answer :: rest =>
      let answerText :=
        match answer with
        | JNum n =>
            match optionAt options n with
            | Some (OptString text) => Normal (JStr text)
            | Some (OptObject text _) => Normal text
            | None => Throw TypeError_undefined
            end
        | other => Normal other
        end in
      match answerText with
      | Normal text =>
          let (lines, outcome) := showAnswers options rest in
          (OutCorrectAnswer text :: lines, outcome)
      | Throw message => ([], Throw message)
      end
  end.

Definition isChoiceType (type : string) : bool :=
  (String.eqb type "multiple-choice" || String.eqb type "single-choice")%bool.

Definition showCorrectAnswers (question : Question.t)
  : list Output * Completion unit :=
  if isChoiceType (Question.type question) then
    match Question.correctAnswers question with
    | None => ([OutCorrectAnswersHeader], Throw TypeError_undefined)
    | Some answers =>
        let (lines, outcome) := showAnswers (Question.options question) answers in
        (OutCorrectAnswersHeader :: lines, outcome)
    end
  else if String.eqb (Question.type question) "free-form" then
    match Question.sampleAnswers question with
    | Some (sample :: samples) =>
        ([OutSampleCorrectAnswers (sample :: samples)], Normal tt)
    | _ => ([], Normal tt)
    end
  else ([], Normal tt).

(** ** [askQuestion] (quiz.js 95-178), cut at its prompts *)

(** What the prompt collaborator (inquirer) answers. *)
Inductive Response : Type :=
| Confirm (yes : bool)
| ListChoice (value : JsVal)
| Checkbox (values : list Z)
| Input (text : string).

(** What the event loop delivers to the session. *)
Inductive Event : Type :=
| PromptAnswers (r : Response)
| PromptRejects (message : string)
| TimerFires.

(** The lines [askFreeForm] prints before its prompt (quiz.js 239-245). *)
Definition askFreeForm_lines (question : Question.t) : list Output :=
  match Question.sampleAnswers question with
  | Some (sample :: samples) => [OutSampleAnswers (sample :: samples)]
  | _ => []
  end.

(** The body of the [do] loop up to the prompt of the [ask...] method
    (quiz.js 109-124). *)
Definition beginAttempt (i : nat) (question : Question.t) (s : Session)
  : Session :=
  let type := Question.type question in
  if String.eqb type "multiple-choice" then
    setControl (AwaitAnswer i question) s
  else if String.eqb type "single-choice" then
    setControl (AwaitAnswer i question) s
  else if String.eqb type "free-form" then
    setControl (AwaitAnswer i question) (log (askFreeForm_lines question) s)
  else
    catchBlock ("Unsupported question type: " ++ type) s.

(** The start of [askQuestion] (quiz.js 97-108). *)
Definition askQuestion (i : nat) (question : Question.t) (s : Session)
  : Session :=
  beginAttempt i question
    (log (OutQuestionText (Question.question question)
          :: whenPresent (Question.description question) OutDescription) s).

(** The [for] loop of [start] at index [i] (quiz.js 58-82): the next
    question is presented, or the loop is over and the quiz is finished. *)
Definition nextQuestion (now : Z) (i : nat) (s : Session) : Session :=
  let q := this s in
  match nth_error (questions q) i with
  | Some question =>
      let q' := mkQuiz (questions q) (timeLimit q) (allowRetry q) i
                       (answers q) (score q) (startTime q) (endTime q) in
      let elapsed := now - match startTime q with Some t => t | None => 0 end in
      let header :=
        OutQuestionHeader (i + 1) (List.length (questions q))
        :: (if 0 <? timeLimit q
            then [OutTimeRemaining (Z.max 0 (timeLimit q - elapsed))]
            else []) in
      askQuestion i question (log header (setThis q' s))
  | None =>
      setControl (Settled Completed) (finishQuiz now (clearTimeout s))
  end.

(** [question.correctAnswers || question.sampleAnswers]. *)
Definition recordedAnswers (question : Question.t) : option (list JsVal) :=
  match Question.correctAnswers question with
  | Some answers => Some answers
  | None => option_map (map JStr) (Question.sampleAnswers question)
  end.

(** [this.answers.push({...})] (quiz.js 127-135). *)
Definition pushAnswer (now : Z) (question : Question.t)
  (userAnswer : UserAnswer) (isCorrect : bool) (q : Quiz) : Quiz :=
  mkQuiz (questions q) (timeLimit q) (allowRetry q) (currentQuestionIndex q)
         (answers q ++ [AnswerRecord.mk (Question.id question)
                                        (Question.question question)
                                        (Question.type question)
                                        userAnswer isCorrect
                                        (recordedAnswers question) now])
         (score q) (startTime q) (endTime q).

(** [this.score++]. *)
Definition incrementScore (q : Quiz) : Quiz :=
  mkQuiz (questions q) (timeLimit q) (allowRetry q) (currentQuestionIndex q)
         (answers q) (S (score q)) (startTime q) (endTime q).

(** [this.answers.pop()]. *)
Definition popAnswer (q : Quiz) : Quiz :=
  mkQuiz (questions q) (timeLimit q) (allowRetry q) (currentQuestionIndex q)
         (removelast (answers q)) (score q) (startTime q) (endTime q).

(** The rest of the [do] body once the attempt is validated (quiz.js
    126-176): the record is pushed, feedback is printed, and the loop
    either ends (the [for] loop goes on) or parks on the retry prompt. *)
Definition recordAttempt (now : Z) (i : nat) (question : Question.t)
  (userAnswer : UserAnswer) (isCorrect : bool) (s : Session) : Session :=
  let s := setThis (pushAnswer now question userAnswer isCorrect (this s)) s in
  if isCorrect then
    let s := setThis (incrementScore (this s)) (log [OutCorrect] s) in
    let s := log (whenPresent (Question.explanation question) OutExplanation) s in
    nextQuestion now (S i) s
  else
    let s := log [OutIncorrect] s in
    match showCorrectAnswers question with
    | (lines, Throw message) => catchBlock message (log lines s)
    | (lines, Normal _) =>
        let s := log lines s in
        let s := log (whenPresent (Question.explanation question) OutExplanation) s in
        if allowRetry (this s) then setControl (AwaitRetry i question) s
        else nextQuestion now (S i) s
    end.

(** The retry prompt has settled (quiz.js 166-177). *)
Definition resumeRetry (now : Z) (i : nat) (question : Question.t)
  (retry : bool) (s : Session) : Session :=
  if negb retry then nextQuestion now (S i) s
  else
    let s := setThis (popAnswer (this s)) (log [OutTryAgain] s) in
    if allowRetry (this s) then beginAttempt i question s
    else nextQuestion now (S i) s.

(** The values the list and checkbox prompts offer: the indices of
    [question.options]. *)
Definition isOptionIndex (question : Question.t) (value : Z) : bool :=
  ((0 <=? value) && (value <? Z.of_nat (List.length (Question.options question))))%bool.

(** The lines [validateFreeForm] prints before its prompt (quiz.js
    313-322). *)
Definition validateFreeForm_lines (question : Question.t) (userAnswer : string)
  : list Output :=
  match Question.keywords question with
  | Some (keyword :: keywords) =>
      let answerLower := toLowerCase userAnswer in
      let hasKeywords :=
        existsb (fun k => includes answerLower (toLowerCase k))
                (keyword :: keywords) in
      if hasKeywords then [OutKeywordHint] else []
  | _ => []
  end.

(** The prompt of the [ask...] method has settled (quiz.js 111-121,
    185-262). A response the prompt does not offer, or one its [validate]
    callback refuses (an empty selection, a blank text), leaves the prompt
    open. *)
Definition resumeAnswer (now : Z) (i : nat) (question : Question.t)
  (r : Response) (s : Session) : Session :=
  let type := Question.type question in
  if String.eqb type "multiple-choice" then
    match r with
    | Checkbox selectedAnswers =>
        if (match selectedAnswers with [] => false | _ => true end
            && forallb (isOptionIndex question) selectedAnswers)%bool
        then
          let userAnswer := sortAscending selectedAnswers in
          match validateMultipleChoice question userAnswer with
          | Normal isCorrect =>
              recordAttempt now i question (AnswerIndices userAnswer) isCorrect s
          | Throw message => catchBlock message s
          end
        else s
    | _ => s
    end
  else if String.eqb type "single-choice" then
    match r with
    | ListChoice (JNum selectedAnswer) =>
        if isOptionIndex question selectedAnswer then
          match validateSingleChoice question selectedAnswer with
          | Normal isCorrect =>
              recordAttempt now i question (AnswerIndex selectedAnswer) isCorrect s
          | Throw message => catchBlock message s
          end
        else s
    | _ => s
    end
  else if String.eqb type "free-form" then
    match r with
    | Input answer =>
        if String.eqb (trim answer) "" then s
        else
          let userAnswer := trim answer in
          setControl (AwaitSelfAssessment i question userAnswer)
                     (log (validateFreeForm_lines question userAnswer) s)
    | _ => s
    end
  else s.

(** The self-assessment prompt of [validateFreeForm] has settled (quiz.js
    325-340, then 126-176). *)
Definition resumeSelfAssessment (now : Z) (i : nat) (question : Question.t)
  (userAnswer : string) (r : Response) (s : Session) : Session :=
  match r with
  | ListChoice selfAssessment =>
      if existsb (strict_eq selfAssessment) (map snd selfAssessmentChoices) then
        recordAttempt now i question (AnswerText userAnswer)
                      (validateFreeForm_result selfAssessment) s
      else s
  | _ => s
  end.

(** ** [start] (quiz.js 22-89) *)

(** [start()] up to its confirmation prompt. *)
Definition start (q : Quiz) : Session :=
  mkSession q AwaitConfirmStart NoTimeout
            ([OutStartingSession; OutQuestions (List.length (questions q))]
             ++ (if 0 <? timeLimit q then [OutTimeLimit (timeLimit q)] else [])
             ++ [OutRetryAllowed (allowRetry q)])
            [].

(** The confirmation prompt has settled (quiz.js 40-58). *)
Definition resumeConfirmStart (now : Z) (confirmStart : bool) (s : Session)
  : Session :=
  if negb confirmStart then
    setControl (Settled Cancelled) (log [OutCancelled] s)
  else
    let q := this s in
    let q' := mkQuiz (questions q) (timeLimit q) (allowRetry q)
                     (currentQuestionIndex q) (answers q) (score q)
                     (Some now) (endTime q) in
    let s := setThis q' s in
    let s := setTimeoutId (if 0 <? timeLimit q then Pending else timeoutId s) s in
    nextQuestion now 0 s.

(** The callback of [setTimeout] (quiz.js 50-53). *)
Definition timeoutCallback (now : Z) (s : Session) : Session :=
  finishQuiz now (log [OutTimeLimitReached] s).

(** One turn of the event loop at time [now]. An event the session is
    not waiting for is dropped: a response to a prompt that is not open, a
    timer that is not armed, anything after [start()] has settled. *)
Definition step (now : Z) (e : Event) (s : Session) : Session :=
  match e with
  | TimerFires =>
      match timeoutId s with
      | Pending => timeoutCallback now (setTimeoutId Fired s)
      | _ => s
      end
  | PromptRejects message =>
      match control s with
      | AwaitConfirmStart => setControl (Settled (Rejected message)) s
      | Settled _ => s
      | _ => catchBlock message s
      end
  | PromptAnswers r =>
      match control s with
      | AwaitConfirmStart =>
          match r with
          | Confirm confirmStart => resumeConfirmStart now confirmStart s
          | _ => s
          end
      | AwaitAnswer i question => resumeAnswer now i question r s
      | AwaitSelfAssessment i question userAnswer =>
          resumeSelfAssessment now i question userAnswer r s
      | AwaitRetry i question =>
          match r with
          | Confirm retry => resumeRetry now i question retry s
          | _ => s
          end
      | Settled _ => s
      end
  end.

(** A session: [start()] is called on a fresh [Quiz] and the events
    arrive in order, each with the value of [Date.now()] at its turn. *)
Fixpoint run (s : Session) (events : list (Z * Event)) : Session :=
  match events with
  | [] => s
  | (now, e) :: rest => run (step now e s) rest
  end.

Definition session (options : QuizOptions) (events : list (Z * Event))
  : Session :=
  run (start (constructor options)) events.

(* ================================================================== *)
(** * The history store ([ResultsManager], resultsManager.js 15-60) *)
(* ================================================================== *)

Module ResultsManager.

Section Store.

(** What a stored session result is, once it went through JSON. *)
Variable Result : Type.

(** What [JSON.parse] makes of the results file. *)
Inductive FileData : Type :=
| JsonArray (results : list Result)
| JsonOther
| Malformed.

(** The part of the file system the manager touches: its directory and
    [results.json] ([None] when the file does not exist). *)
Record Disk : Type := mkDisk {
  dirExists : bool;
  resultsFile : option FileData
}.

(** The operations that fail during one call, for a reason other than a
    missing file: the directory cannot be made, the file cannot be read,
    the file cannot be opened for writing (permissions, a read-only file
    system). A failed write has written nothing: the file is as it was. *)
Record Faults : Type := mkFaults {
  mkdirFails : bool;
  readFails : bool;
  writeFails : bool
}.

Inductive Warning : Type :=
| CouldNotLoad (message : string)
| CouldNotSave (message : string).

(** What [loadResults] returns: an array, or whatever else the file
    parsed to. *)
Inductive Loaded : Type :=
| LoadedArray (results : list Result)
| LoadedOther.

(** [ensureResultsDir] (resultsManager.js 15-21). *)
Definition ensureResultsDir (faults : Faults) (disk : Disk) : Completion Disk :=
  if dirExists disk then Normal disk
  else if mkdirFails faults then Throw "EACCES"
  else Normal (mkDisk true (resultsFile disk)).

(** [loadResults] (resultsManager.js 27-39): the value returned, the disk
    afterwards and the warnings printed. Nothing is thrown: every failure
    ends in the [catch] block, which returns the empty array. *)
Definition loadResults (faults : Faults) (disk : Disk)
  : Loaded * Disk * list Warning :=
  match ensureResultsDir faults disk with
  | Throw message => (LoadedArray [], disk, [CouldNotLoad message])
  | Normal disk' =>
      match resultsFile disk' with
      | None => (LoadedArray [], disk', [])
      | Some data =>
          if readFails faults then (LoadedArray [], disk', [CouldNotLoad "EACCES"])
          else
            match data with
            | JsonArray results => (LoadedArray results, disk', [])
            | JsonOther => (LoadedOther, disk', [])
            | Malformed => (LoadedArray [], disk', [CouldNotLoad "Unexpected token"])
            end
      end
  end.

(** [results.splice(0, results.length - 50)] when [results.length > 50]. *)
Definition keepLast50 (results : list Result) : list Result :=
  if (50 <? List.length results)%nat
  then skipn (List.length results - 50) results
  else results.

(** The [try] block of [saveResult] (resultsManager.js 47-56). *)
Definition saveResult_try (faults : Faults) (disk : Disk) (result : Result)
  : Disk * list Warning * Completion unit :=
  let '(loaded, disk1, warnings) := loadResults faults disk in
  match loaded with
  | LoadedOther => (disk1, warnings, Throw "results.push is not a function")
  | LoadedArray results =>
      let results := keepLast50 (results ++ [result]) in
      match ensureResultsDir faults disk1 with
      | Throw message => (disk1, warnings, Throw message)
      | Normal disk2 =>
          if writeFails faults then (disk2, warnings, Throw "EACCES")
          else (mkDisk (dirExists disk2) (Some (JsonArray results)),
                warnings, Normal tt)
      end
  end.

(** [saveResult] (resultsManager.js 45-60): the [try] block, and the
    [catch] block that turns whatever was thrown into a warning. *)
Definition saveResult (faults : Faults) (disk : Disk) (result : Result)
  : Disk * list Warning * Completion unit :=
  match saveResult_try faults disk result with
  | (disk', warnings, Throw message) =>
      (disk', warnings ++ [CouldNotSave message], Normal tt)
  | done => done
  end.

(** The results the store holds, as [loadResults] would give them back
    when nothing fails. *)
Definition stored (disk : Disk) : list Result :=
  match resultsFile disk with
  | Some (JsonArray results) => results
  | _ => []
  end.

End Store.

Arguments JsonArray {Result} results.
Arguments JsonOther {Result}.
Arguments Malformed {Result}.
Arguments mkDisk {Result} dirExists resultsFile.
Arguments dirExists {Result} d.
Arguments resultsFile {Result} d.
Arguments LoadedArray {Result} results.
Arguments LoadedOther {Result}.
Arguments ensureResultsDir {Result} faults disk.
Arguments loadResults {Result} faults disk.
Arguments keepLast50 {Result} results.
Arguments saveResult_try {Result} faults disk result.
Arguments saveResult {Result} faults disk result.
Arguments stored {Result} disk.

End ResultsManager.

(* ================================================================== *)
(** * Notions used to state the properties *)
(* ================================================================== *)

(** Equality of values is decidable. *)
Definition JsVal_eq_dec (a b : JsVal) : {a = b} + {a <> b}.
Proof.
  decide equality;
    [apply Bool.bool_dec | apply Z.eq_dec | apply string_dec].
Defined.

(** ** Resolution of a [correctAnswers] entry, in the words of the
    specification

    "If the entry is numeric, use it directly as an index; otherwise
    search [options] for a string equal to the entry or an object option
    whose [text] or [value] equals the entry." An entry that names no
    option does not resolve. *)

Definition optionEquals (entry : JsVal) (opt : OptionEntry) : Prop :=
  match opt with
  | OptString s => entry = JStr s
  | OptObject text value => text = entry \/ value = entry
  end.

Definition optionEquals_dec (entry : JsVal) (opt : OptionEntry)
  : {optionEquals entry opt} + {~ optionEquals entry opt}.
Proof.
  destruct opt as [s | text value]; simpl.
  - apply JsVal_eq_dec.
  - destruct (JsVal_eq_dec text entry); [left; now left |].
    destruct (JsVal_eq_dec value entry); [left; now right |].
    right; tauto.
Defined.

(** The position of the first option equal to the entry. *)
Fixpoint firstEqualOption (entry : JsVal) (options : list OptionEntry)
  : option nat :=
  match options with
  | [] => None
  | opt :: rest =>
      if optionEquals_dec entry opt then Some 0%nat
      else option_map S (firstEqualOption entry rest)
  end.

Definition resolvedIndex (options : list OptionEntry) (entry : JsVal)
  : option Z :=
  match entry with
  | JNum n =>
      if ((0 <=? n) && (n <? Z.of_nat (List.length options)))%bool
      then Some n else None
  | _ => option_map Z.of_nat (firstEqualOption entry options)
  end.

(** ** Strings without a comma *)



(** ** Answers and questions *)

(** The number of records marked correct. *)
Definition countCorrect (records : list AnswerRecord.t) : nat :=
  List.length (filter AnswerRecord.isCorrect records).

(** [r] is a record of an attempt at [q]. *)
Definition recordOf (q : Question.t) (r : AnswerRecord.t) : Prop :=
  AnswerRecord.questionId r = Question.id q
  /\ AnswerRecord.question r = Question.question q
  /\ AnswerRecord.type r = Question.type q.

(** The number of questions the session is done with: the index of the
    question it is parked on, or the number of records once it is not
    parked on a question. *)
Definition position (s : Session) : nat :=
  match control s with
  | AwaitAnswer i _ => i
  | AwaitSelfAssessment i _ _ => i
  | AwaitRetry i _ => i
  | _ => List.length (answers (this s))
  end.

(** The session is parked on a prompt of question [i]. *)
Definition parkedOn (i : nat) (question : Question.t) (s : Session) : Prop :=
  control s = AwaitAnswer i question
  \/ (exists userAnswer, control s = AwaitSelfAssessment i question userAnswer)
  \/ control s = AwaitRetry i question.

(** The deadline timer has fired and [line] was printed after the line
    that announces it. *)
Fixpoint printedAfter (mark line : Output -> bool) (lines : list Output)
  : bool :=
  match lines with
  | [] => false
  | l :: rest =>
      if mark l then existsb line rest else printedAfter mark line rest
  end.

Definition isTimeLimitReached (o : Output) : bool :=
  match o with OutTimeLimitReached => true | _ => false end.

Definition isQuestionHeader (o : Output) : bool :=
  match o with OutQuestionHeader _ _ => true | _ => false end.

(** Whether the promise of [start()] is rejected, that is, whether the
    caller of [start()] sees an error. *)
Definition rejectsWith (c : Control) : option string :=
  match c with
  | Settled (Rejected message) => Some message
  | _ => None
  end.

(** ** Sample data *)

(** A choice question whose options are plain strings. *)
Definition choiceQuestion (id type : string) (options : list string)
  (correctAnswers : list JsVal) : Question.t :=
  Question.mk id ("Which ones? " ++ id) type None (map OptString options)
              (Some correctAnswers) None None None.

(** A free-form question with keywords. *)
Definition freeFormQuestion (id : string) (keywords : list string)
  : Question.t :=
  Question.mk id ("Explain " ++ id) "free-form" None [] None None
              (Some keywords) None.

(** ** The shape of a session *)

Definition supportedType (type : string) : bool :=
  (String.eqb type "multiple-choice" || String.eqb type "single-choice"
   || String.eqb type "free-form")%bool.

(** [records] holds one record for each of the first [k] questions, in
    the order of the questions. *)
Definition answered (qs : list Question.t) (k : nat)
  (records : list AnswerRecord.t) : Prop :=
  Forall2 recordOf (firstn k qs) records.

(** What [this.answers] holds at each suspension point. *)
Definition wellFormed (s : Session) : Prop :=
  let q := this s in
  match control s with
  | AwaitConfirmStart => answers q = []
  | AwaitAnswer i question =>
      nth_error (questions q) i = Some question
      /\ supportedType (Question.type question) = true
      /\ answered (questions q) i (answers q)
  | AwaitSelfAssessment i question _ =>
      nth_error (questions q) i = Some question
      /\ supportedType (Question.type question) = true
      /\ answered (questions q) i (answers q)
  | AwaitRetry i question =>
      nth_error (questions q) i = Some question
      /\ supportedType (Question.type question) = true
      /\ allowRetry q = true
      /\ exists before r,
           answers q = before ++ [r]
           /\ answered (questions q) i before
           /\ recordOf question r
           /\ AnswerRecord.isCorrect r = false
  | Settled Completed => Forall2 recordOf (questions q) (answers q)
  | Settled (Caught _) => exists k, answered (questions q) k (answers q)
  | Settled Cancelled => answers q = []
  | Settled (Rejected _) => answers q = []
  end.

(** What a session result must say about the quiz it comes from. *)
Definition resultOf (q : Quiz) (r : SessionResult.t) : Prop :=
  SessionResult.totalQuestions r = List.length (questions q)
  /\ SessionResult.percentage r
     = Math_round
         (Number_mul
            (Number_div (Number_ofZ (Z.of_nat (SessionResult.correctAnswers r)))
                        (Number_ofZ (Z.of_nat (List.length (questions q)))))
            (Number_ofZ 100))
  /\ SessionResult.correctAnswers r = countCorrect (SessionResult.answers r).

(** The score agrees with the answers, and so does every result handed to
    the history store. *)
Definition consistent (s : Session) : Prop :=
  score (this s) = countCorrect (answers (this s))
  /\ Forall (resultOf (this s)) (saveResultCalls s).

(** How many times [saveResult] must have been called: once by the
    timer callback if the timer fired, once at the end of [start] if the
    loop ran to its end. *)
Definition expectedSaves (s : Session) : nat :=
  (match timeoutId s with Fired => 1 | _ => 0 end
   + match control s with Settled Completed => 1 | _ => 0 end)%nat.

(** The timer is armed only while [start()] runs, and only for a positive
    time limit. *)
Definition timerSound (s : Session) : Prop :=
  List.length (saveResultCalls s) = expectedSaves s
  /\ (timeLimit (this s) <= 0 -> timeoutId s = NoTimeout)
  /\ match control s with
     | AwaitConfirmStart => timeoutId s = NoTimeout
     | Settled Cancelled => timeoutId s = NoTimeout
     | Settled (Rejected _) => timeoutId s = NoTimeout
     | Settled _ => timeoutId s <> Pending
     | _ => True
     end.

Definition savesByTimer (t : Timeout) : nat :=
  match t with Fired => 1%nat | _ => 0%nat end.

(** What holds whenever the [for] loop of [start] is about to test its
    index [i], whatever the session is parked on. *)
Definition atLoopHead (i : nat) (s : Session) : Prop :=
  answered (questions (this s)) i (answers (this s))
  /\ score (this s) = countCorrect (answers (this s))
  /\ Forall (resultOf (this s)) (saveResultCalls s)
  /\ List.length (saveResultCalls s) = savesByTimer (timeoutId s)
  /\ (timeLimit (this s) <= 0 -> timeoutId s = NoTimeout).

(** Everything that holds of a reachable session. *)
Definition invariant (s : Session) : Prop :=
  wellFormed s /\ consistent s /\ timerSound s.

(** The two sessions run the same quiz. *)
Definition sameConfiguration (s s' : Session) : Prop :=
  questions (this s') = questions (this s)
  /\ timeLimit (this s') = timeLimit (this s)
  /\ allowRetry (this s') = allowRetry (this s).

(** The session is parked on the prompt of an attempt at question [i]. *)
Definition awaitingAnswer (i : nat) (question : Question.t) (s : Session)
  : Prop :=
  control s = AwaitAnswer i question
  \/ exists userAnswer, control s = AwaitSelfAssessment i question userAnswer.

(** The event [e] settles an attempt at question [i]: the prompt the
    session is parked on delivers the input [userAnswer], which the
    validator of the question judges [verdict]. For a choice question
    this is a selection of option indices (not empty for a checkbox, and
    sorted before it is judged); for a free-form question it is the
    self-assessment of the text that was entered. *)
Definition settlesAttempt (s : Session) (i : nat) (q : Question.t) (e : Event)
  (userAnswer : UserAnswer) (verdict : bool) : Prop :=
  (control s = AwaitAnswer i q
   /\ Question.type q = "multiple-choice"
   /\ exists selected,
        e = PromptAnswers (Checkbox selected)
        /\ selected <> []
        /\ Forall (fun v => isOptionIndex q v = true) selected
        /\ userAnswer = AnswerIndices (sortAscending selected)
        /\ validateMultipleChoice q (sortAscending selected) = Normal verdict)
  \/ (control s = AwaitAnswer i q
      /\ Question.type q = "single-choice"
      /\ exists selected,
           e = PromptAnswers (ListChoice (JNum selected))
           /\ isOptionIndex q selected = true
           /\ userAnswer = AnswerIndex selected
           /\ validateSingleChoice q selected = Normal verdict)
  \/ (exists text selfAssessment,
        control s = AwaitSelfAssessment i q text
        /\ e = PromptAnswers (ListChoice selfAssessment)
        /\ In selfAssessment (map snd selfAssessmentChoices)
        /\ userAnswer = AnswerText text
        /\ verdict = validateFreeForm_result selfAssessment).

(** When the loop ran to its end, the last result handed to the history
    store is the one built from the answers and the score the engine
    holds. *)
Definition finalResult (s : Session) : Prop :=
  control s = Settled Completed ->
  exists earlier r,
    saveResultCalls s = earlier ++ [r]
    /\ SessionResult.answers r = answers (this s)
    /\ SessionResult.correctAnswers r = score (this s)
    /\ SessionResult.totalQuestions r = List.length (questions (this s)).

(** A single-choice question, a multiple-choice question, a free-form
    question and a question of a type the engine does not know. *)
Definition sampleSingle : Question.t :=
  choiceQuestion "s1" "single-choice" ["A"; "B"; "C"] [JNum 1].

Definition sampleMultiple : Question.t :=
  choiceQuestion "m1" "multiple-choice" ["A"; "B"; "C"; "D"] [JNum 0; JNum 2].

Definition sampleFreeForm : Question.t :=
  freeFormQuestion "f1" ["lambda"].


Definition quizOf (qs : list Question.t) (timeLimit : Z) (allowRetry : bool)
  : QuizOptions :=
  mkQuizOptions (Some qs) (Some timeLimit) (Some allowRetry).

(** ** The history store *)


(** Nothing fails during the call: the directory is there or can be made,
    the file is absent or can be read, it does not hold a JSON value other
    than an array, and it can be written. *)
Definition nothingFails {Result : Type}
  (faults : ResultsManager.Faults) (disk : ResultsManager.Disk Result) : Prop :=
  (ResultsManager.dirExists disk = true
   \/ ResultsManager.mkdirFails faults = false)
  /\ (ResultsManager.resultsFile disk = None
      \/ ResultsManager.readFails faults = false)
  /\ ResultsManager.resultsFile disk <> Some ResultsManager.JsonOther
  /\ ResultsManager.writeFails faults = false.

(** ** What the specification says of a failure *)


(** A timed quiz of two questions during which the deadline timer fires
    while the first question is shown; the user then answers both. *)
Definition timedOptions : QuizOptions :=
  quizOf [sampleSingle; sampleMultiple] 60000 false.

Definition timedEvents : list (Z * Event) :=
  [(0, PromptAnswers (Confirm true));
   (60000, TimerFires);
   (61000, PromptAnswers (ListChoice (JNum 1)));
   (62000, PromptAnswers (Checkbox [2; 0]))].

(** The number of answers and the total of each result handed to the
    history store. *)
Definition resultSizes (s : Session) : list (nat * nat) :=
  map (fun r => (List.length (SessionResult.answers r),
                 SessionResult.totalQuestions r))
      (saveResultCalls s).

(* ================================================================== *)
(** * More of the code *)
(* ================================================================== *)

(** ** [formatDuration] (quiz.js 431-440, resultsManager.js 263-272)

    The duration is a whole number of milliseconds (a difference of two
    [Date.now()]); [Math.floor] of the quotient is the floor division and
    [%] is the remainder that takes the sign of the dividend. This is
    what the code computes for a duration of magnitude below 2^50: there
    the binary64 quotients are off by less than the 1/1000 or 1/60 that
    separates them from the next whole number, so that [Math.floor] is
    exact, and the numbers are printed with all their digits. Beyond
    that range the code rounds and, from 1e21 on, prints an exponent;
    the properties of [formatDuration] are stated within the range. *)
Definition formatDuration (duration : Z) : string :=
  let seconds := duration / 1000 in
  let minutes := seconds / 60 in
  let remainingSeconds := Z.rem seconds 60 in
  if 0 <? minutes
  then (Number_toString minutes ++ "m " ++ Number_toString remainingSeconds ++ "s")%string
  else (Number_toString remainingSeconds ++ "s")%string.

(** ** [getGradeColor] (resultsManager.js 251-256) *)

Inductive Colour : Type :=
| Green | Yellow | Blue | Red.

Definition getGradeColor (percentage : spec_float) : Colour :=
  if Number_geb percentage (Number_ofZ 90) then Green
  else if Number_geb percentage (Number_ofZ 80) then Yellow
  else if Number_geb percentage (Number_ofZ 70) then Blue
  else Red.

(** ** Notions used to state the further properties *)

(** The session never got past its confirmation prompt. *)
Definition neverStarted (s : Session) : Prop :=
  control s = AwaitConfirmStart
  \/ control s = Settled Cancelled
  \/ exists message, control s = Settled (Rejected message).

(** The result [finishQuiz] builds at time [now] from the quiz [q]. *)
Definition resultAt (now : Z) (q : Quiz) : SessionResult.t :=
  SessionResult.mk now (List.length (questions q)) (score q)
                   (percentageOf (score q) (List.length (questions q)))
                   (now - match startTime q with Some t => t | None => 0 end)
                   (answers q).

(** The header lines ("Question i of n") among the lines printed. *)
Definition questionHeaders (lines : list Output) : list Output :=
  filter isQuestionHeader lines.

(** The headers of the first [k] of [n] questions, in order. *)
Definition headersUpTo (k n : nat) : list Output :=
  map (fun i => OutQuestionHeader (i + 1) n) (seq 0 k).

(** The questions presented so far are the first ones, each once and in
    order: up to the one the session is parked on, all of them when the
    loop ran to its end. *)
Definition presentedInOrder (s : Session) : Prop :=
  let n := List.length (questions (this s)) in
  let headers := questionHeaders (console s) in
  match control s with
  | AwaitConfirmStart => headers = []
  | AwaitAnswer i question =>
      headers = headersUpTo (S i) n
      /\ nth_error (questions (this s)) i = Some question
  | AwaitSelfAssessment i question _ =>
      headers = headersUpTo (S i) n
      /\ nth_error (questions (this s)) i = Some question
  | AwaitRetry i question =>
      headers = headersUpTo (S i) n
      /\ nth_error (questions (this s)) i = Some question
  | Settled Completed => headers = headersUpTo n n
  | Settled (Caught _) => exists k, (k <= n)%nat /\ headers = headersUpTo k n
  | Settled Cancelled => headers = []
  | Settled (Rejected _) => headers = []
  end.

(** [text] has no white space at either end: it neither starts nor ends
    with one of the code points [trim] removes. *)
Definition trimmed (text : string) : Prop :=
  forall w rest,
    In w whiteSpace ->
    text <> (w ++ rest)%string /\ text <> (rest ++ w)%string.

(** What a record says of the attempt it keeps, for the question [q] it
    belongs to: the input is one the prompt lets through, and for the
    choice types [isCorrect] is the verdict of the validator on it. *)
Definition judged (q : Question.t) (r : AnswerRecord.t) : Prop :=
  recordOf q r
  /\ AnswerRecord.correctAnswers r = recordedAnswers q
  /\ match AnswerRecord.userAnswer r with
     | AnswerIndices selected =>
         Question.type q = "multiple-choice"
         /\ selected <> []
         /\ Sorted Z.le selected
         /\ Forall (fun v => isOptionIndex q v = true) selected
         /\ validateMultipleChoice q selected
            = Normal (AnswerRecord.isCorrect r)
     | AnswerIndex selected =>
         Question.type q = "single-choice"
         /\ isOptionIndex q selected = true
         /\ validateSingleChoice q selected
            = Normal (AnswerRecord.isCorrect r)
     | AnswerText text =>
         Question.type q = "free-form" /\ text <> "" /\ trimmed text
     end.

(** Every record is judged against the question at its position, and a
    free-form answer waiting for its self-assessment is trimmed and not
    blank. *)
Definition soundAnswers (s : Session) : Prop :=
  Forall2 judged
          (firstn (List.length (answers (this s))) (questions (this s)))
          (answers (this s))
  /\ forall i q userAnswer,
       control s = AwaitSelfAssessment i q userAnswer ->
       Question.type q = "free-form"
       /\ userAnswer <> "" /\ trimmed userAnswer.

(** A character of a printed integer: a digit or the minus sign. *)
Definition isNumericChar (c : ascii) : bool :=
  let n := nat_of_ascii c in
  (Nat.eqb n 45 || (Nat.leb 48 n && Nat.leb n 57))%bool.

Fixpoint numeric (s : string) : bool :=
  match s with
  | EmptyString => true
  | String c rest => (isNumericChar c && numeric rest)%bool
  end.

(** The grade of [finishQuiz] and the colour of [getGradeColor] for a
    whole percentage, by its thresholds. *)
Definition gradeBand (p : Z) : Grade :=
  if 90 <=? p then Excellent
  else if 80 <=? p then GreatJob
  else if 70 <=? p then GoodWork
  else if 60 <=? p then NotBad
  else KeepStudying.

Definition colourBand (p : Z) : Colour :=
  if 90 <=? p then Green
  else if 80 <=? p then Yellow
  else if 70 <=? p then Blue
  else Red.

(** The whole percentages from 0 to 100. *)
Definition wholePercentages : list Z := map Z.of_nat (seq 0 101).

(** The two numbers are the same binary64 value (same sign, mantissa and
    exponent). *)
Definition sameNumber (x y : spec_float) : bool :=
  match x, y with
  | S754_zero s, S754_zero t => Bool.eqb s t
  | S754_infinity s, S754_infinity t => Bool.eqb s t
  | S754_nan, S754_nan => true
  | S754_finite s m e, S754_finite t n f =>
      (Bool.eqb s t && Pos.eqb m n && Z.eqb e f)%bool
  | _, _ => false
  end.

(** Whether the percentage of [score] out of [total] is the whole number
    nearest to [100 * score / total], a tie going up, or the one below
    when it is a tie that the binary64 product falls short of; and is 100
    only for a full score and 0 only for none. *)
Definition percentageChecks (score total : nat) : bool :=
  let s := Z.of_nat score in
  let n := Z.of_nat total in
  let percentage := percentageOf score total in
  let nearest := (200 * s + n) / (2 * n) in
  let p := if sameNumber percentage (Number_ofZ nearest) then nearest
           else nearest - 1 in
  (sameNumber percentage (Number_ofZ p)
   && ((p =? nearest) || (200 * s + n =? 2 * n * nearest))
   && Bool.eqb (p =? 100) (s =? n)
   && Bool.eqb (p =? 0) (s =? 0))%bool.

(** All the scores of all the quizzes of 1 to [bound] questions. *)
Definition allScores (bound : nat) : list (nat * nat) :=
  flat_map (fun total => map (fun score => (score, total)) (seq 0 (S total)))
           (seq 1 bound).
(* ================================================================== *)
(** * The question loader ([QuestionLoader], questionLoader.js 54-180) *)
(* ================================================================== *)

(** The checks the loader makes on a question before the engine gets
    it. The loader sees the question as the file has it: an entry of
    [correctAnswers] or of [keywords] is any JSON value, and a number
    need not be whole. The other fields are as the engine reads them.
    The [category] of a question, which the loader only warns about, is
    not kept. *)

(** A number of the question file: [JSON.parse] gives a finite binary64
    number, a rational here, or an infinity for a literal that is too
    large. *)
Inductive FileNumber : Type :=
| Finite (x : Q)
| Infinite (negative : bool).

(** A JSON value. An object or an array is only ever compared with
    [===], and is identical to nothing else of the file. *)
Inductive FileValue : Type :=
| FNull
| FBool (b : bool)
| FNumber (x : FileNumber)
| FString (s : string)
| FObject.

Module FileQuestion.
Record t : Type := mk {
  id : string;
  question : string;
  type : string;
  description : option string;
  options : list OptionEntry;
  correctAnswers : option (list FileValue);
  sampleAnswers : option (list string);
  keywords : option (list FileValue);
  explanation : option string
}.
End FileQuestion.

(** [!!v]. *)
Definition truthy (v : JsVal) : bool :=
  match v with
  | JUndefined => false
  | JNull => false
  | JBool b => b
  | JNum n => negb (n =? 0)
  | JStr s => negb (String.eqb s "")
  end.

(** The errors the loader throws, one for each [throw] of the checks. *)
Inductive LoadError : Type :=
| MissingField (questionNum : nat) (field : string)
| UnsupportedType (questionNum : nat) (type : string)
| TooFewOptions (questionNum : nat)
| InvalidOptionFormat (questionNum optionNum : nat)
| MissingCorrectAnswers (questionNum : nat)
| NotOneCorrectAnswer (questionNum : nat)
| NoCorrectAnswer (questionNum : nat)
| UnmatchedCorrectAnswer (questionNum : nat) (answer : FileValue).

(** [this.supportedTypes] (questionLoader.js 7). *)
Definition supportedTypes : list string :=
  ["multiple-choice"; "single-choice"; "free-form"].

(** The [forEach] over [question.options] (questionLoader.js 123-133):
    the number of the first option that is neither a string nor an object
    with a truthy [text], counted from [optIndex + 1]. *)
Fixpoint firstInvalidOption (options : list OptionEntry) (optIndex : nat)
  : option nat :=
  match options with
  | [] => None
  | OptString _ :: rest => firstInvalidOption rest (S optIndex)
  | OptObject text _ :: rest =>
      if truthy text then firstInvalidOption rest (S optIndex)
      else Some (optIndex + 1)%nat
  end.

(** [typeof answer === 'number' ? answer : question.options.findIndex(...)]
    (questionLoader.js 152-156): the number itself, whole or not, or the
    index of the first option that equals the answer. *)
Definition answerIndex (options : list OptionEntry) (answer : FileValue)
  : FileNumber :=
  match answer with
  | FNumber x => x
  | FNull => Finite (inject_Z (findIndex (optionMatches JNull) options))
  | FBool b => Finite (inject_Z (findIndex (optionMatches (JBool b)) options))
  | FString s => Finite (inject_Z (findIndex (optionMatches (JStr s)) options))
  | FObject => Finite (inject_Z (findIndex (fun _ => false) options))
  end.

(** The test of the [forEach] over [question.correctAnswers]
    (questionLoader.js 158), negated: the answer passes when
    [answerIndex === -1 || answerIndex >= question.options.length] is
    false. *)
Definition referencesOption (options : list OptionEntry) (answer : FileValue)
  : bool :=
  match answerIndex options answer with
  | Finite x =>
      negb (Qeq_bool x (inject_Z (-1))
            || Qle_bool (inject_Z (Z.of_nat (List.length options))) x)
  | Infinite negative => negative
  end.

(** [validateChoiceQuestion] (questionLoader.js 113-164): the error
    thrown, or [None] when the call returns. A question without an
    [options] array, which the loader refuses first, has no options
    here and is refused for having fewer than two. *)
Definition validateChoiceQuestion (question : FileQuestion.t)
  (questionNum : nat) : option LoadError :=
  let options := FileQuestion.options question in
  if (List.length options <? 2)%nat then Some (TooFewOptions questionNum)
  else
    match firstInvalidOption options 0 with
    | Some optionNum => Some (InvalidOptionFormat questionNum optionNum)
    | None =>
        match FileQuestion.correctAnswers question with
        | None => Some (MissingCorrectAnswers questionNum)
        | Some correctAnswers =>
            if (String.eqb (FileQuestion.type question) "single-choice"
                && negb (List.length correctAnswers =? 1)%nat)%bool
            then Some (NotOneCorrectAnswer questionNum)
            else if (String.eqb (FileQuestion.type question) "multiple-choice"
                     && (List.length correctAnswers =? 0)%nat)%bool
            then Some (NoCorrectAnswer questionNum)
            else
              match find (fun answer => negb (referencesOption options answer))
                         correctAnswers with
              | Some answer => Some (UnmatchedCorrectAnswer questionNum answer)
              | None => None
              end
        end
    end.

(** [validateFreeFormQuestion] (questionLoader.js 171-180) throws when
    [sampleAnswers] or [keywords] is present and not an array, which they
    cannot be here. What the arrays hold is not looked at. *)
Definition validateFreeFormQuestion (question : FileQuestion.t)
  (questionNum : nat) : option LoadError :=
  None.

(** [validateQuestion] (questionLoader.js 72-106). *)
Definition validateQuestion (question : FileQuestion.t) (index : nat)
  : option LoadError :=
  let questionNum := (index + 1)%nat in
  let type := FileQuestion.type question in
  if String.eqb (FileQuestion.id question) ""
  then Some (MissingField questionNum "id")
  else if String.eqb (FileQuestion.question question) ""
  then Some (MissingField questionNum "question")
  else if String.eqb type ""
  then Some (MissingField questionNum "type")
  else if negb (existsb (String.eqb type) supportedTypes)
  then Some (UnsupportedType questionNum type)
  else if String.eqb type "multiple-choice"
  then validateChoiceQuestion question questionNum
  else if String.eqb type "single-choice"
  then validateChoiceQuestion question questionNum
  else if String.eqb type "free-form"
  then validateFreeFormQuestion question questionNum
  else None.

(** The [forEach] that ends [loadQuestions] (questionLoader.js 54-56):
    the first error, if any question has one. *)
Fixpoint validateEach (questions : list FileQuestion.t) (index : nat)
  : option LoadError :=
  match questions with
  | [] => None
  | question :: rest =>
      match validateQuestion question index with
      | Some error => Some error
      | None => validateEach rest (S index)
      end
  end.

(** ** From the file to the engine *)

(** The whole number a rational is, if it is one. *)
Definition wholeNumber (x : Q) : option Z :=
  if (Qden (Qred x) =? 1)%positive then Some (Qnum (Qred x)) else None.

(** The value of the file as the engine's [JsVal], which holds the
    primitive values and, of the numbers, the whole ones. *)
Definition asValue (v : FileValue) : option JsVal :=
  match v with
  | FNull => Some JNull
  | FBool b => Some (JBool b)
  | FNumber (Finite x) => option_map JNum (wholeNumber x)
  | FNumber (Infinite _) => None
  | FString s => Some (JStr s)
  | FObject => None
  end.

Definition asString (v : FileValue) : option string :=
  match v with
  | FString s => Some s
  | _ => None
  end.

Fixpoint allSome {A : Type} (l : list (option A)) : option (list A) :=
  match l with
  | [] => Some []
  | Some x :: rest => option_map (cons x) (allSome rest)
  | None :: _ => None
  end.

Definition convertAll {A B : Type} (f : A -> option B) (field : option (list A))
  : option (option (list B)) :=
  match field with
  | None => Some None
  | Some l => option_map Some (allSome (map f l))
  end.

(** The question of the file as the [Question.t] of the engine: there is
    one when every number among the correct answers is whole and every
    keyword is a string. *)
Definition asQuestion (question : FileQuestion.t) : option Question.t :=
  match convertAll asValue (FileQuestion.correctAnswers question),
        convertAll asString (FileQuestion.keywords question) with
  | Some correctAnswers, Some keywords =>
      Some (Question.mk (FileQuestion.id question)
                        (FileQuestion.question question)
                        (FileQuestion.type question)
                        (FileQuestion.description question)
                        (FileQuestion.options question)
                        correctAnswers
                        (FileQuestion.sampleAnswers question)
                        keywords
                        (FileQuestion.explanation question))
  | _, _ => None
  end.

(** ** What the loader's checks are for *)

(** [q] went through [validateQuestion] without an error. *)
Definition loaded (q : FileQuestion.t) : Prop :=
  exists index, validateQuestion q index = None.

(** No correct answer of [q] is a negative number. *)
Definition countsFromZero (q : Question.t) : Prop :=
  forall answers n,
    Question.correctAnswers q = Some answers -> In (JNum n) answers -> 0 <= n.

(** The engine can run [q]: it knows its type, and for a choice type
    every correct answer that is a number is the index of an option. *)
Definition runnable (q : Question.t) : Prop :=
  supportedType (Question.type q) = true
  /\ (isChoiceType (Question.type q) = true ->
      exists answers,
        Question.correctAnswers q = Some answers
        /\ Forall (fun answer =>
                     match answer with
                     | JNum n =>
                         0 <= n < Z.of_nat (List.length (Question.options q))
                     | _ => True
                     end) answers).

(** [start()] ended on an error: in its [catch] block, or rejected. *)
Definition failed (s : Session) : Prop :=
  match control s with
  | Settled (Caught _) => True
  | Settled (Rejected _) => True
  | _ => False
  end.

(** No prompt of the session fails. *)
Definition promptsAnswer (events : list (Z * Event)) : Prop :=
  Forall (fun event =>
            match snd event with
            | PromptRejects _ => False
            | _ => True
            end) events.

(** ** Sample questions of a file *)

Definition whole (n : Z) : FileValue := FNumber (Finite (inject_Z n)).

Definition fileChoice (id type : string) (options : list string)
  (correctAnswers : list FileValue) : FileQuestion.t :=
  FileQuestion.mk id ("Which ones? " ++ id) type None (map OptString options)
                  (Some correctAnswers) None None None.

Definition fileFreeForm (id : string) (keywords : list FileValue)
  : FileQuestion.t :=
  FileQuestion.mk id ("Explain " ++ id) "free-form" None [] None None
                  (Some keywords) None.

Definition fileSingle : FileQuestion.t :=
  fileChoice "s1" "single-choice" ["A"; "B"; "C"] [whole 1].

Definition fileMultiple : FileQuestion.t :=
  fileChoice "m1" "multiple-choice" ["A"; "B"; "C"; "D"] [whole 0; whole 2].

Definition fileFreeFormSample : FileQuestion.t :=
  fileFreeForm "f1" [FString "lambda"].

Definition fileUnsupported : FileQuestion.t :=
  fileChoice "u1" "essay" ["A"; "B"] [whole 0].

(* ================================================================== *)
(** * One session after the other (resultsManager.js 45-60) *)
(* ================================================================== *)

(** The store after [saveResult] was called with each of [results] in
    turn, as one session after the other does. *)
Definition saveAll {Result : Type} (faults : ResultsManager.Faults)
  (disk : ResultsManager.Disk Result) (results : list Result)
  : ResultsManager.Disk Result :=
  fold_left (fun d result => fst (fst (ResultsManager.saveResult faults d result)))
            results disk.

(** ** The keyword hint *)

(** [s] is a string of ASCII characters. On such a string [toLowerCase]
    lowers the letters A to Z and nothing else. *)
Definition asciiOnly (s : string) : bool :=
  forallb (fun c => (nat_of_ascii c <? 128)%nat) (list_ascii_of_string s).

(** [sub] occurs in [s]. *)
Definition occursIn (sub s : string) : Prop :=
  exists before after, s = (before ++ sub ++ after)%string.

(** An upper-case letter of ASCII. *)
Definition isUpperCase (c : ascii) : bool :=
  let n := nat_of_ascii c in
  (Nat.leb 65 n && Nat.leb n 90)%bool.

(** The same character, or the same letter of ASCII in its two cases
    (the lower-case letter is 32 above the upper-case one). *)
Definition sameLetter (a b : ascii) : Prop :=
  a = b
  \/ (isUpperCase a = true /\ nat_of_ascii b = (nat_of_ascii a + 32)%nat)
  \/ (isUpperCase b = true /\ nat_of_ascii a = (nat_of_ascii b + 32)%nat).

(** The same string up to the case of its letters. *)
Fixpoint sameIgnoringCase (s t : string) : Prop :=
  match s, t with
  | EmptyString, EmptyString => True
  | String a s', String b t' => sameLetter a b /\ sameIgnoringCase s' t'
  | _, _ => False
  end.

(* ================================================================== *)
(** * The breakdown by question type (resultsManager.js 184-199) *)
(* ================================================================== *)

(** An entry of [typeStats]: [{ correct, total }]. *)
Record TypeStat : Type := mkTypeStat {
  correct : nat;
  total : nat
}.

(** The properties every object inherits from [Object.prototype]. For
    such a name [typeStats[name]] is never [undefined]: no entry is made
    for it, and the counts go to the inherited value. *)
Definition inheritedProperty (name : string) : bool :=
  existsb (String.eqb name)
          ["constructor"; "__defineGetter__"; "__defineSetter__";
           "hasOwnProperty"; "__lookupGetter__"; "__lookupSetter__";
           "isPrototypeOf"; "propertyIsEnumerable"; "toString"; "valueOf";
           "__proto__"; "toLocaleString"].

(** One turn of the [forEach] for an answer of a type that is not
    inherited: the entry of the type is made if it is not there, its
    [total] goes up, and so does its [correct] for a correct answer. The
    entries are kept in the order they were made, which is the order of
    [Object.entries] for names that are not array indices. *)
Fixpoint tally (type : string) (isCorrect : bool)
  (stats : list (string * TypeStat)) : list (string * TypeStat) :=
  match stats with
  | [] => [(type, mkTypeStat (if isCorrect then 1 else 0) 1)]
  | (t, stat) :: rest =>
      if String.eqb t type
      then (t, mkTypeStat (if isCorrect then S (correct stat) else correct stat)
                          (S (total stat))) :: rest
      else (t, stat) :: tally type isCorrect rest
  end.

(** [typeStats] after the [forEach] over [result.answers]
    (resultsManager.js 184-193). *)
Definition typeStats (answers : list AnswerRecord.t) : list (string * TypeStat) :=
  fold_left (fun stats answer =>
               if inheritedProperty (AnswerRecord.type answer) then stats
               else tally (AnswerRecord.type answer)
                          (AnswerRecord.isCorrect answer) stats)
            answers [].

(** The answers of one type. *)
Definition ofType (type : string) (answers : list AnswerRecord.t)
  : list AnswerRecord.t :=
  filter (fun answer => String.eqb (AnswerRecord.type answer) type) answers.

(** [typeStats[type]], when [type] is not inherited. *)
Fixpoint statOf (type : string) (stats : list (string * TypeStat))
  : option TypeStat :=
  match stats with
  | [] => None
  | (t, stat) :: rest => if String.eqb t type then Some stat else statOf type rest
  end.

(** What the entries must say of the answers counted so far. *)
Definition tallies (answers : list AnswerRecord.t)
  (stats : list (string * TypeStat)) : Prop :=
  NoDup (map fst stats)
  /\ forall type,
       match statOf type stats with
       | Some stat =>
           inheritedProperty type = false
           /\ total stat = List.length (ofType type answers)
           /\ correct stat = countCorrect (ofType type answers)
           /\ (1 <= total stat)%nat
       | None => inheritedProperty type = true \/ ofType type answers = []
       end.

(* ================================================================== *)
(** * Loading the questions (questionLoader.js 34-58, 252-258) *)
(* ================================================================== *)

(** [array[k] = v] for an index of the array. *)
Fixpoint assign {A : Type} (k : nat) (v : A) (array : list A) {struct array}
  : list A :=
  match array, k with
  | [], _ => []
  | _ :: rest, O => v :: rest
  | x :: rest, S k' => x :: assign k' v rest
  end.

(** [[array[i], array[j]] = [array[j], array[i]]] for two indices of the
    array: both elements are read, then [array[i]] and [array[j]] are
    written in this order. *)
Definition swap {A : Type} (i j : nat) (array : list A) : list A :=
  match nth_error array i, nth_error array j with
  | Some ai, Some aj => assign j ai (assign i aj array)
  | _, _ => array
  end.

(** The [for] loop of [shuffleArray] from index [i] down to 1. [draw i]
    is the value of [Math.floor(Math.random() * (i + 1))] in the turn of
    index [i]: since [Math.random()] is below 1, an index from 0 to
    [i]. *)
Fixpoint shuffleFrom {A : Type} (draw : nat -> nat) (i : nat) (array : list A)
  : list A :=
  match i with
  | O => array
  | S k => shuffleFrom draw k (swap (S k) (draw (S k)) array)
  end.

(** [shuffleArray] (questionLoader.js 252-258). *)
Definition shuffleArray {A : Type} (draw : nat -> nat) (array : list A)
  : list A :=
  shuffleFrom draw (List.length array - 1) array.

(** What [Math.random] may give. *)
Definition drawsInRange (draw : nat -> nat) : Prop :=
  forall i, (draw i <= i)%nat.

(** The [options] of [loadQuestions]: the test of the category filter
    ([None] when no category, or ['all'], is asked for), whether to
    shuffle, and the limit. *)
Record LoadOptions : Type := mkLoadOptions {
  opt_category : option (FileQuestion.t -> bool);
  opt_shuffle : bool;
  opt_limit : option Z
}.

(** The questions of the category asked for (questionLoader.js 37-41). *)
Definition inCategory (options : LoadOptions)
  (questions : list FileQuestion.t) : list FileQuestion.t :=
  match opt_category options with
  | Some test => filter test questions
  | None => questions
  end.

(** [loadQuestions] once the file is parsed (questionLoader.js 34-58):
    [questions] is [data.questions]; the result is the error thrown or
    the array returned. *)
Definition loadQuestions (draw : nat -> nat) (questions : list FileQuestion.t)
  (options : LoadOptions) : LoadError + list FileQuestion.t :=
  let questions := inCategory options questions in
  let questions :=
    if opt_shuffle options then shuffleArray draw questions else questions in
  let questions :=
    match opt_limit options with
    | Some limit =>
        if 0 <? limit then firstn (Z.to_nat limit) questions else questions
    | None => questions
    end in
  match validateEach questions 0 with
  | Some error => inl error
  | None => inr questions
  end.

(* ================================================================== *)
(** * Properties *)
(* ================================================================== *)

(** ** Strict equality *)

Lemma strict_eq_true (a b : JsVal) : strict_eq a b = true <-> a = b.
Proof.
  destruct a, b; simpl; split; intro H; try discriminate; try reflexivity.
  - apply Bool.eqb_prop in H. now subst.
  - injection H as ->. apply Bool.eqb_reflx.
  - apply Z.eqb_eq in H. now subst.
  - injection H as ->. apply Z.eqb_refl.
  - apply String.eqb_eq in H. now subst.
  - injection H as ->. apply String.eqb_refl.
Qed.

Lemma optionMatches_equals (entry : JsVal) (opt : OptionEntry) :
  optionMatches entry opt = true <-> optionEquals entry opt.
Proof.
  destruct opt as [s | text value]; unfold optionMatches, optionEquals.
  - rewrite strict_eq_true. split; congruence.
  - rewrite Bool.orb_true_iff, !strict_eq_true. tauto.
Qed.

(** ** [findIndex] against the first equal option *)

Lemma findIndex_lower_bound {A : Type} (p : A -> bool) (l : list A) :
  -1 <= findIndex p l.
Proof.
  induction l as [| x rest IH]; simpl; [lia |].
  destruct (p x); [lia |].
  destruct (findIndex p rest <? 0) eqn:E; [lia |].
  apply Z.ltb_ge in E. lia.
Qed.

Lemma findIndex_firstEqualOption (entry : JsVal) (options : list OptionEntry) :
  findIndex (optionMatches entry) options
  = match firstEqualOption entry options with
    | Some k => Z.of_nat k
    | None => -1
    end.
Proof.
  induction options as [| opt rest IH]; simpl; [reflexivity |].
  destruct (optionEquals_dec entry opt) as [Heq | Hne].
  - apply optionMatches_equals in Heq. now rewrite Heq.
  - destruct (optionMatches entry opt) eqn:E.
    + apply optionMatches_equals in E. contradiction.
    + rewrite IH. destruct (firstEqualOption entry rest) as [k |]; simpl.
      * destruct (Z.of_nat k <? 0) eqn:L; [apply Z.ltb_lt in L; lia | lia].
      * reflexivity.
Qed.

(** The code's resolution agrees with the specification's, wherever the
    latter resolves. *)
Lemma resolveAnswer_resolvedIndex (options : list OptionEntry) (entry : JsVal)
  (k : Z) :
  resolvedIndex options entry = Some k -> resolveAnswer options entry = k.
Proof.
  unfold resolvedIndex, resolveAnswer.
  destruct entry as [| | b | n | s];
    try (rewrite findIndex_firstEqualOption;
         destruct (firstEqualOption _ options); simpl; congruence).
  destruct ((0 <=? n) && (n <? Z.of_nat (List.length options)))%bool; congruence.
Qed.

(** ** The ascending sort *)

Lemma insertAscending_perm (x : Z) (l : list Z) :
  Permutation (x :: l) (insertAscending x l).
Proof.
  induction l as [| y rest IH]; simpl; [apply Permutation_refl |].
  destruct (x <=? y); [apply Permutation_refl |].
  eapply perm_trans; [apply perm_swap | apply perm_skip, IH].
Qed.

Lemma sortAscending_perm (l : list Z) : Permutation l (sortAscending l).
Proof.
  induction l as [| x rest IH]; simpl; [constructor |].
  eapply perm_trans; [apply perm_skip, IH | apply insertAscending_perm].
Qed.

Lemma insertAscending_sorted (x : Z) (l : list Z) :
  Sorted Z.le l -> Sorted Z.le (insertAscending x l).
Proof.
  induction 1 as [| y rest Hs IH Hhd]; simpl.
  - repeat constructor.
  - destruct (x <=? y) eqn:E.
    + apply Z.leb_le in E. repeat constructor; assumption.
    + apply Z.leb_gt in E. constructor; [exact IH |].
      destruct Hhd as [| z rest' Hyz]; simpl.
      * constructor. lia.
      * destruct (x <=? z); constructor; lia.
Qed.

Lemma sortAscending_sorted (l : list Z) : Sorted Z.le (sortAscending l).
Proof.
  induction l as [| x rest IH]; simpl;
    [constructor | now apply insertAscending_sorted].
Qed.

(** ** [JSON.stringify] tells arrays of integers apart *)

Section Stringify.

Local Open Scope string_scope.


Lemma append_length (s t : string) :
  String.length (s ++ t) = (String.length s + String.length t)%nat.
Proof. induction s as [| c s IH]; simpl; congruence. Qed.





Lemma to_int_not_nil (n : Z) : Z.to_int n <> Pos Nil /\ Z.to_int n <> Neg Nil.
Proof.
  destruct n as [| p | p]; simpl; split; try discriminate;
    intro H; injection H as H; now apply DecimalPos.Unsigned.to_uint_nonnil in H.
Qed.

Lemma Number_toString_inj (a b : Z) :
  Number_toString a = Number_toString b -> a = b.
Proof.
  unfold Number_toString. intro H.
  apply to_int_inj.
  apply (f_equal NilZero.int_of_string) in H.
  destruct (to_int_not_nil a) as [Ha1 Ha2], (to_int_not_nil b) as [Hb1 Hb2].
  rewrite !NilZero.isi in H by assumption.
  congruence.
Qed.






End Stringify.

(** ** The single-choice validator *)

Lemma validateSingleChoice_resolveAnswer (question : Question.t)
  (entry : JsVal) (userAnswer : Z) :
  Question.correctAnswers question = Some [entry] ->
  validateSingleChoice question userAnswer
  = Normal (userAnswer =? resolveAnswer (Question.options question) entry).
Proof.
  intro H. unfold validateSingleChoice. rewrite H. simpl.
  destruct entry; reflexivity.
Qed.

(** C4. For a single-choice question whose [correctAnswers] holds exactly
    one entry that resolves to an option index (a number is the index
    itself; anything else names the first option equal to it as a string,
    or whose text or value equals it), the validator returns true if and
    only if the chosen index is the resolved index, and false for every
    other index. *)
Theorem validateSingleChoice_resolved_index :
  forall (question : Question.t) (entry : JsVal) (k userAnswer : Z),
    Question.correctAnswers question = Some [entry] ->
    resolvedIndex (Question.options question) entry = Some k ->
    (validateSingleChoice question userAnswer = Normal true <-> userAnswer = k)
    /\ (userAnswer <> k ->
        validateSingleChoice question userAnswer = Normal false).
Proof.
  intros question entry k userAnswer Hentry Hres.
  rewrite (validateSingleChoice_resolveAnswer _ _ _ Hentry).
  rewrite (resolveAnswer_resolvedIndex _ _ _ Hres).
  split.
  - split.
    + intro H. injection H as H. now apply Z.eqb_eq.
    + intros ->. now rewrite Z.eqb_refl.
  - intro Hne. apply Z.eqb_neq in Hne. now rewrite Hne.
Qed.

Lemma validateSingleChoice_resolved_index_witness :
  let question :=
    choiceQuestion "q1" "single-choice" ["A"; "B"; "C"] [JStr "B"] in
  Question.correctAnswers question = Some [JStr "B"]
  /\ resolvedIndex (Question.options question) (JStr "B") = Some 1
  /\ (validateSingleChoice question 1 = Normal true <-> 1 = 1)
  /\ (1 <> 1 -> validateSingleChoice question 1 = Normal false).
Proof.
  intro question.
  split; [reflexivity |]. split; [reflexivity |].
  apply (validateSingleChoice_resolved_index question (JStr "B") 1 1);
    reflexivity.
Defined.

(** ** The multiple-choice validator *)



(** ** The free-form validator *)

Lemma validateFreeForm_result_true (selfAssessment : JsVal) :
  validateFreeForm_result selfAssessment = true
  <-> selfAssessment = JBool true \/ selfAssessment = JStr "partial".
Proof.
  unfold validateFreeForm_result.
  rewrite Bool.orb_true_iff, !strict_eq_true. tauto.
Qed.

(* ------------------------------------------------------------------ *)
(** ** The session engine: what every reachable session satisfies *)
(* ------------------------------------------------------------------ *)

Lemma firstn_succ_nth_error {A : Type} (l : list A) (i : nat) (x : A) :
  nth_error l i = Some x -> firstn (S i) l = firstn i l ++ [x].
Proof.
  revert i. induction l as [| y l IH]; intros [| i] H; simpl in *;
    try discriminate.
  - now injection H as ->.
  - f_equal. now apply IH.
Qed.

Lemma answered_push (qs : list Question.t) (i : nat) (q : Question.t)
  (records : list AnswerRecord.t) (r : AnswerRecord.t) :
  nth_error qs i = Some q -> answered qs i records -> recordOf q r ->
  answered qs (S i) (records ++ [r]).
Proof.
  unfold answered. intros Hq Hrs Hr.
  rewrite (firstn_succ_nth_error _ _ _ Hq).
  apply Forall2_app; [exact Hrs | now constructor].
Qed.

Lemma answered_all (qs : list Question.t) (k : nat)
  (records : list AnswerRecord.t) :
  nth_error qs k = None -> answered qs k records -> Forall2 recordOf qs records.
Proof.
  unfold answered. intros Hk H.
  apply nth_error_None in Hk. now rewrite firstn_all2 in H.
Qed.

Lemma answered_length (qs : list Question.t) (i : nat) (q : Question.t)
  (records : list AnswerRecord.t) :
  nth_error qs i = Some q -> answered qs i records -> List.length records = i.
Proof.
  unfold answered. intros Hq H.
  apply Forall2_length in H. rewrite <- H.
  apply firstn_length_le.
  apply Nat.lt_le_incl, nth_error_Some. congruence.
Qed.

Lemma recordOf_pushed (now : Z) (q : Question.t) (userAnswer : UserAnswer)
  (isCorrect : bool) :
  recordOf q (AnswerRecord.mk (Question.id q) (Question.question q)
                              (Question.type q) userAnswer isCorrect
                              (recordedAnswers q) now).
Proof. repeat split. Qed.

(** Case analysis on every test the code makes. *)
Ltac split_tests :=
  repeat match goal with
         | |- context [match ?x with _ => _ end] =>
             match type of x with
             | sumbool _ _ => destruct x
             | _ => let E := fresh "E" in destruct x eqn:E
             end; simpl in *
         end.

Lemma countCorrect_push (records : list AnswerRecord.t) (r : AnswerRecord.t) :
  countCorrect (records ++ [r])
  = (countCorrect records + if AnswerRecord.isCorrect r then 1 else 0)%nat.
Proof.
  unfold countCorrect. rewrite filter_app, length_app. simpl.
  destruct (AnswerRecord.isCorrect r); reflexivity.
Qed.

Lemma catchBlock_invariant (k : nat) (message : string) (s : Session) :
  atLoopHead k s -> invariant (catchBlock message s).
Proof.
  intros (Hans & Hscore & Hres & Hcount & Hlimit).
  unfold invariant, wellFormed, consistent, timerSound, expectedSaves.
  simpl. repeat split.
  - now exists k.
  - exact Hscore.
  - exact Hres.
  - rewrite Hcount. unfold savesByTimer. destruct (timeoutId s); reflexivity.
  - intro H. now rewrite (Hlimit H).
  - destruct (timeoutId s); discriminate.
Qed.

Lemma parked_invariant (i : nat) (q : Question.t) (s : Session) :
  atLoopHead i s ->
  nth_error (questions (this s)) i = Some q ->
  supportedType (Question.type q) = true ->
  (control s = AwaitAnswer i q
   \/ exists userAnswer, control s = AwaitSelfAssessment i q userAnswer) ->
  invariant s.
Proof.
  intros (Hans & Hscore & Hres & Hcount & Hlimit) Hq Hsup Hc.
  unfold invariant, wellFormed, consistent, timerSound, expectedSaves.
  destruct Hc as [Hc | [ua Hc]]; rewrite Hc; simpl;
    (repeat split; try assumption;
     unfold savesByTimer in Hcount; rewrite Hcount;
     destruct (timeoutId s); reflexivity).
Qed.

Lemma beginAttempt_invariant (i : nat) (q : Question.t) (s : Session) :
  atLoopHead i s ->
  nth_error (questions (this s)) i = Some q ->
  invariant (beginAttempt i q s).
Proof.
  intros Hhead Hq. unfold beginAttempt.
  destruct (String.eqb (Question.type q) "multiple-choice") eqn:E1;
    [| destruct (String.eqb (Question.type q) "single-choice") eqn:E2;
       [| destruct (String.eqb (Question.type q) "free-form") eqn:E3]].
  1-3: apply (parked_invariant i q);
       [exact Hhead | exact Hq
        | unfold supportedType; rewrite ?E1, ?E2, ?E3; reflexivity
        | now left].
  now apply (catchBlock_invariant i).
Qed.

Lemma nextQuestion_invariant (now : Z) (i : nat) (s : Session) :
  atLoopHead i s -> invariant (nextQuestion now i s).
Proof.
  intros Hhead. unfold nextQuestion.
  destruct (nth_error (questions (this s)) i) as [q |] eqn:Hq.
  - unfold askQuestion. apply beginAttempt_invariant; [exact Hhead | exact Hq].
  - destruct Hhead as (Hans & Hscore & Hres & Hcount & Hlimit).
    unfold invariant, wellFormed, consistent, timerSound, expectedSaves.
    simpl. repeat split.
    + now apply (answered_all _ i).
    + exact Hscore.
    + apply Forall_app. split; [exact Hres |].
      constructor; [| constructor].
      repeat split. simpl. exact Hscore.
    + rewrite length_app, Hcount. simpl.
      unfold savesByTimer. destruct (timeoutId s); reflexivity.
    + intro H. now rewrite (Hlimit H).
    + destruct (timeoutId s); discriminate.
Qed.

Lemma recordAttempt_invariant (now : Z) (i : nat) (q : Question.t)
  (userAnswer : UserAnswer) (isCorrect : bool) (s : Session) :
  atLoopHead i s ->
  nth_error (questions (this s)) i = Some q ->
  supportedType (Question.type q) = true ->
  invariant (recordAttempt now i q userAnswer isCorrect s).
Proof.
  intros (Hans & Hscore & Hres & Hcount & Hlimit) Hq Hsup.
  pose proof (answered_push _ _ _ _ _ Hq Hans
                (recordOf_pushed now q userAnswer isCorrect)) as Hans'.
  unfold recordAttempt. destruct isCorrect.
  - apply nextQuestion_invariant. repeat split; simpl; try assumption.
    rewrite countCorrect_push. simpl. rewrite Hscore. lia.
  - assert (Hhead' : forall lines,
               atLoopHead (S i)
                 (log lines
                    (log [OutIncorrect]
                       (setThis (pushAnswer now q userAnswer false (this s)) s)))).
    { intro lines. repeat split; simpl; try assumption.
      rewrite countCorrect_push. simpl. rewrite Hscore. lia. }
    destruct (showCorrectAnswers q) as [lines [[] | message]].
    + simpl. destruct (allowRetry (this s)) eqn:Hretry.
      * destruct (Hhead' lines) as (_ & Hscore' & Hres' & Hcount' & Hlimit').
        unfold invariant, wellFormed, consistent, timerSound, expectedSaves.
        simpl in *. repeat split; try assumption.
        -- eexists _, _. repeat split. exact Hans.
        -- rewrite Hcount'. unfold savesByTimer.
           destruct (timeoutId s); reflexivity.
      * apply nextQuestion_invariant. apply (Hhead' lines).
    + apply (catchBlock_invariant (S i)). apply Hhead'.
Qed.

Lemma invariant_parked (i : nat) (q : Question.t) (s : Session) :
  invariant s ->
  (control s = AwaitAnswer i q
   \/ exists userAnswer, control s = AwaitSelfAssessment i q userAnswer) ->
  nth_error (questions (this s)) i = Some q
  /\ supportedType (Question.type q) = true
  /\ atLoopHead i s.
Proof.
  unfold invariant, wellFormed, consistent, timerSound, expectedSaves, atLoopHead.
  intros (Hwf & (Hscore & Hres) & (Hcount & Hlimit & _)) Hc.
  destruct Hc as [Hc | [ua Hc]]; rewrite Hc in *;
    destruct Hwf as (Hq & Hsup & Hans);
    (repeat split; try assumption;
     rewrite Hcount; unfold savesByTimer;
     destruct (timeoutId s); reflexivity).
Qed.

Lemma invariant_retry (i : nat) (q : Question.t) (s : Session) :
  invariant s ->
  control s = AwaitRetry i q ->
  nth_error (questions (this s)) i = Some q
  /\ supportedType (Question.type q) = true
  /\ allowRetry (this s) = true
  /\ atLoopHead (S i) s
  /\ (forall lines, atLoopHead i (setThis (popAnswer (this s)) (log lines s)))
  /\ exists before r,
       answers (this s) = before ++ [r]
       /\ List.length before = i
       /\ recordOf q r
       /\ AnswerRecord.isCorrect r = false.
Proof.
  unfold invariant, wellFormed, consistent, timerSound, expectedSaves, atLoopHead.
  intros (Hwf & (Hscore & Hres) & (Hcount & Hlimit & _)) Hc.
  rewrite Hc in *.
  destruct Hwf as (Hq & Hsup & Hretry & before & r & Hans & Hbefore & Hr & Hwrong).
  assert (Hsaves : List.length (saveResultCalls s) = savesByTimer (timeoutId s)).
  { rewrite Hcount. unfold savesByTimer. destruct (timeoutId s); reflexivity. }
  assert (Hcorrect : countCorrect (before ++ [r]) = countCorrect before).
  { rewrite countCorrect_push, Hwrong. lia. }
  repeat split; try assumption.
  - rewrite Hans. now apply (answered_push _ _ q).
  - simpl. rewrite Hans, removelast_last. exact Hbefore.
  - simpl. rewrite Hans, removelast_last. rewrite Hscore, Hans. exact Hcorrect.
  - exists before, r. repeat split; try assumption; try apply Hr.
    now apply (answered_length (questions (this s)) i q).
Qed.

Lemma timeoutCallback_invariant (now : Z) (s : Session) :
  invariant s -> timeoutId s = Pending ->
  invariant (timeoutCallback now (setTimeoutId Fired s)).
Proof.
  unfold invariant, wellFormed, consistent, timerSound, expectedSaves.
  intros (Hwf & (Hscore & Hres) & (Hcount & Hlimit & Hctl)) Hpending.
  rewrite Hpending in *. simpl.
  repeat split.
  - exact Hwf.
  - exact Hscore.
  - apply Forall_app. split; [exact Hres |].
    constructor; [| constructor]. repeat split. simpl. exact Hscore.
  - rewrite length_app, Hcount. simpl.
    destruct (control s) as [| | | | []]; try reflexivity; try discriminate;
      now contradiction Hctl.
  - intro H. specialize (Hlimit H). discriminate.
  - destruct (control s) as [| | | | []]; try exact I; try discriminate.
Qed.

Lemma resumeConfirmStart_invariant (now : Z) (confirmStart : bool) (s : Session) :
  invariant s -> control s = AwaitConfirmStart ->
  invariant (resumeConfirmStart now confirmStart s).
Proof.
  unfold invariant at 1.
  unfold wellFormed, consistent, timerSound, expectedSaves.
  intros (Hwf & (Hscore & Hres) & (Hcount & Hlimit & Hctl)) Hc.
  rewrite Hc in *. rewrite Hctl in *. simpl in Hcount.
  unfold resumeConfirmStart. destruct confirmStart; simpl.
  - apply nextQuestion_invariant. repeat split; simpl.
    + rewrite Hwf. constructor.
    + exact Hscore.
    + exact Hres.
    + rewrite Hcount, Hctl. now destruct (0 <? timeLimit (this s)).
    + intro H. apply Z.ltb_ge in H. now rewrite H, Hctl.
  - unfold invariant, wellFormed, consistent, timerSound, expectedSaves.
    simpl. rewrite Hctl. repeat split; assumption.
Qed.

Lemma resumeAnswer_invariant (now : Z) (i : nat) (q : Question.t)
  (r : Response) (s : Session) :
  invariant s -> control s = AwaitAnswer i q ->
  invariant (resumeAnswer now i q r s).
Proof.
  intros Hinv Hc.
  destruct (invariant_parked i q s Hinv (or_introl Hc)) as (Hq & Hsup & Hhead).
  unfold resumeAnswer.
  destruct (String.eqb (Question.type q) "multiple-choice");
    [| destruct (String.eqb (Question.type q) "single-choice");
       [| destruct (String.eqb (Question.type q) "free-form")]].
  - destruct r as [| | selected |]; try exact Hinv.
    destruct (_ && _)%bool; [| exact Hinv].
    destruct (validateMultipleChoice q (sortAscending selected)).
    + now apply recordAttempt_invariant.
    + now apply (catchBlock_invariant i).
  - destruct r as [| [| | | selected |] | |]; try exact Hinv.
    destruct (isOptionIndex q selected); [| exact Hinv].
    destruct (validateSingleChoice q selected).
    + now apply recordAttempt_invariant.
    + now apply (catchBlock_invariant i).
  - destruct r as [| | | answer]; try exact Hinv.
    destruct (String.eqb (trim answer) ""); [exact Hinv |].
    apply (parked_invariant i q); try assumption.
    right. now exists (trim answer).
  - exact Hinv.
Qed.

Lemma resumeSelfAssessment_invariant (now : Z) (i : nat) (q : Question.t)
  (userAnswer : string) (r : Response) (s : Session) :
  invariant s -> control s = AwaitSelfAssessment i q userAnswer ->
  invariant (resumeSelfAssessment now i q userAnswer r s).
Proof.
  intros Hinv Hc.
  destruct (invariant_parked i q s Hinv (or_intror (ex_intro _ userAnswer Hc)))
    as (Hq & Hsup & Hhead).
  unfold resumeSelfAssessment.
  destruct r as [| selfAssessment | |]; try exact Hinv.
  destruct (existsb _ _); [| exact Hinv].
  now apply recordAttempt_invariant.
Qed.

Lemma resumeRetry_invariant (now : Z) (i : nat) (q : Question.t)
  (retry : bool) (s : Session) :
  invariant s -> control s = AwaitRetry i q ->
  invariant (resumeRetry now i q retry s).
Proof.
  intros Hinv Hc.
  destruct (invariant_retry i q s Hinv Hc)
    as (Hq & Hsup & Hretry & Hnext & Hagain & _).
  unfold resumeRetry. destruct retry; simpl.
  - rewrite Hretry. apply beginAttempt_invariant; [apply Hagain | exact Hq].
  - now apply nextQuestion_invariant.
Qed.

(** Every turn of the event loop keeps the invariant. *)
Lemma step_invariant (now : Z) (e : Event) (s : Session) :
  invariant s -> invariant (step now e s).
Proof.
  intro Hinv. unfold step.
  destruct e as [r | message |].
  - destruct (control s) as [| i q | i q ua | i q | how] eqn:Hc.
    + destruct r; try exact Hinv. now apply resumeConfirmStart_invariant.
    + now apply resumeAnswer_invariant.
    + now apply resumeSelfAssessment_invariant.
    + destruct r; try exact Hinv. now apply resumeRetry_invariant.
    + exact Hinv.
  - destruct (control s) as [| i q | i q ua | i q | how] eqn:Hc.
    + destruct Hinv as (Hwf & Hcons & Hcount & Hlimit & Hctl).
      unfold wellFormed, consistent, timerSound, expectedSaves in *.
      rewrite Hc in *. rewrite Hctl in *.
      unfold invariant, wellFormed, consistent, timerSound, expectedSaves.
      simpl. rewrite Hctl. repeat split; try assumption; apply Hcons.
    + apply (catchBlock_invariant i).
      now apply (invariant_parked i q s Hinv (or_introl Hc)).
    + apply (catchBlock_invariant i).
      now apply (invariant_parked i q s Hinv (or_intror (ex_intro _ ua Hc))).
    + apply (catchBlock_invariant (S i)).
      now apply (invariant_retry i q s Hinv Hc).
    + exact Hinv.
  - destruct (timeoutId s) eqn:Ht; try exact Hinv.
    now apply timeoutCallback_invariant.
Qed.

Lemma start_invariant (q : Quiz) :
  answers q = [] -> score q = 0%nat -> invariant (start q).
Proof.
  intros Hans Hscore.
  unfold invariant, wellFormed, consistent, timerSound, expectedSaves. simpl.
  rewrite Hans, Hscore. repeat split; constructor.
Qed.

Lemma run_invariant (events : list (Z * Event)) (s : Session) :
  invariant s -> invariant (run s events).
Proof.
  revert s. induction events as [| [now e] rest IH]; intros s Hinv; simpl.
  - exact Hinv.
  - now apply IH, step_invariant.
Qed.

Lemma session_invariant (options : QuizOptions) (events : list (Z * Event)) :
  invariant (session options events).
Proof. now apply run_invariant, start_invariant. Qed.

(** The configuration never changes. *)
Ltac destruct_tests :=
  repeat (simpl;
          match goal with
          | |- context [match ?x with _ => _ end] => destruct x eqn:?
          | |- context [if ?x then _ else _] => destruct x eqn:?
          end).

Lemma step_configuration (now : Z) (e : Event) (s : Session) :
  sameConfiguration s (step now e s).
Proof.
  unfold sameConfiguration, step, resumeConfirmStart, resumeAnswer,
    resumeSelfAssessment, resumeRetry, recordAttempt, nextQuestion,
    askQuestion, beginAttempt, timeoutCallback, catchBlock.
  destruct e as [r | message |]; destruct (control s);
    destruct_tests; repeat split; simpl; assumption.
Qed.

Lemma run_configuration (events : list (Z * Event)) (s : Session) :
  sameConfiguration s (run s events).
Proof.
  revert s. induction events as [| [now e] rest IH]; intro s; simpl.
  - repeat split.
  - destruct (IH (step now e s)) as (H1 & H2 & H3).
    destruct (step_configuration now e s) as (K1 & K2 & K3).
    repeat split; congruence.
Qed.

(** ** Records of finished questions stay *)

Lemma firstn_push {A : Type} (l : list A) (x : A) (i : nat) :
  List.length l = i -> firstn i (l ++ [x]) = firstn i l.
Proof.
  intros <-. rewrite firstn_app, Nat.sub_diag. simpl. apply app_nil_r.
Qed.

Ltac unfold_step :=
  unfold step, resumeConfirmStart, resumeAnswer, resumeSelfAssessment,
    resumeRetry, recordAttempt, nextQuestion, askQuestion, beginAttempt,
    timeoutCallback, catchBlock.

Ltac finish_done Hc Hlen :=
  unfold position; simpl;
  rewrite ?Hc, ?length_app, ?Hlen; simpl;
  split; [lia | try reflexivity; now apply firstn_push].

Lemma step_done (now : Z) (e : Event) (s : Session) :
  invariant s ->
  (position s <= position (step now e s))%nat
  /\ firstn (position s) (answers (this (step now e s)))
     = firstn (position s) (answers (this s)).
Proof.
  intro Hinv.
  destruct (control s) as [| i q | i q ua | i q | how] eqn:Hc.
  - assert (Hpos : position s = 0%nat).
    { destruct Hinv as (Hwf & _). unfold wellFormed in Hwf. rewrite Hc in Hwf.
      unfold position. rewrite Hc, Hwf. reflexivity. }
    rewrite Hpos. split; [lia | reflexivity].
  - destruct (invariant_parked i q s Hinv (or_introl Hc)) as (Hq & _ & Hhead).
    pose proof (answered_length _ _ _ _ Hq (proj1 Hhead)) as Hlen.
    assert (Hpos : position s = i) by (unfold position; now rewrite Hc).
    rewrite Hpos. unfold_step. rewrite Hc.
    destruct e as [r | message |]; destruct_tests; finish_done Hc Hlen.
  - destruct (invariant_parked i q s Hinv (or_intror (ex_intro _ ua Hc)))
      as (Hq & _ & Hhead).
    pose proof (answered_length _ _ _ _ Hq (proj1 Hhead)) as Hlen.
    assert (Hpos : position s = i) by (unfold position; now rewrite Hc).
    rewrite Hpos. unfold_step. rewrite Hc.
    destruct e as [r | message |]; destruct_tests; finish_done Hc Hlen.
  - destruct (invariant_retry i q s Hinv Hc)
      as (Hq & _ & Hretry & _ & _ & before & r & Hans & Hlen & _ & _).
    assert (Hpos : position s = i) by (unfold position; now rewrite Hc).
    rewrite Hpos. unfold_step. rewrite Hc, Hretry.
    destruct e as [r' | message |]; destruct_tests;
      unfold position; simpl;
      rewrite ?Hc, ?Hans, ?removelast_last, ?length_app, ?Hlen; simpl.
    all: split; [lia | try reflexivity; symmetry; now apply firstn_push].
  - unfold step. rewrite Hc. destruct e; [| | destruct (timeoutId s)];
      unfold position; simpl; rewrite ?Hc; (split; [lia | reflexivity]).
Qed.

Lemma run_done (later : list (Z * Event)) (s : Session) (k : nat) :
  invariant s -> (k <= position s)%nat ->
  (k <= position (run s later))%nat
  /\ firstn k (answers (this (run s later))) = firstn k (answers (this s)).
Proof.
  revert s. induction later as [| [now e] rest IH]; intros s Hinv Hk; simpl.
  - now split.
  - destruct (step_done now e s Hinv) as [Hpos Hkeep].
    destruct (IH (step now e s) (step_invariant now e s Hinv)) as [Hk' Hrest];
      [lia |].
    split; [exact Hk' |].
    rewrite Hrest.
    replace k with (Nat.min k (position s)) by lia.
    rewrite <- !firstn_firstn. now rewrite Hkeep.
Qed.

(** ** The retry prompt *)

Lemma retry_declined (now : Z) (i : nat) (q : Question.t) (s : Session) :
  control s = AwaitRetry i q ->
  List.length (answers (this s)) = S i ->
  let s' := step now (PromptAnswers (Confirm false)) s in
  answers (this s') = answers (this s) /\ (S i <= position s')%nat.
Proof.
  intros Hc Hlen. unfold_step. rewrite Hc. simpl.
  destruct_tests; unfold position; simpl; rewrite ?Hlen; split;
    (reflexivity || lia).
Qed.

Lemma retry_accepted (now : Z) (i : nat) (q : Question.t) (s : Session) :
  control s = AwaitRetry i q ->
  allowRetry (this s) = true ->
  supportedType (Question.type q) = true ->
  let s' := step now (PromptAnswers (Confirm true)) s in
  control s' = AwaitAnswer i q
  /\ answers (this s') = removelast (answers (this s)).
Proof.
  intros Hc Hretry Hsup. unfold_step. rewrite Hc. simpl. rewrite Hretry.
  unfold supportedType in Hsup.
  destruct_tests; try discriminate; split; reflexivity.
Qed.

(** ** An attempt *)

Ltac pick_disjunct :=
  first [reflexivity | lia | left; pick_disjunct | right; pick_disjunct].

Lemma attempt_recorded (now : Z) (e : Event) (i : nat) (q : Question.t)
  (s : Session) :
  awaitingAnswer i q s ->
  let s' := step now e s in
  answers (this s') = answers (this s)
  \/ exists r,
       answers (this s') = answers (this s) ++ [r]
       /\ recordOf q r
       /\ (AnswerRecord.isCorrect r = true ->
           position s' = S i
           \/ position s' = S (List.length (answers (this s)))).
Proof.
  intros [Hc | [ua Hc]]; unfold_step; rewrite Hc;
    destruct e as [r | message |]; destruct_tests;
    try (left; reflexivity);
    right; eexists; (split; [reflexivity |]);
    (split; [apply recordOf_pushed |]);
    unfold position; simpl; rewrite ?length_app; simpl;
    intro; try discriminate; pick_disjunct.
Qed.

(** ** Score and answers move together *)

Lemma step_score (now : Z) (e : Event) (s : Session) :
  invariant s ->
  let s' := step now e s in
  (answers (this s') = answers (this s) /\ score (this s') = score (this s))
  \/ (exists r,
        answers (this s') = answers (this s) ++ [r]
        /\ score (this s')
           = (score (this s) + if AnswerRecord.isCorrect r then 1 else 0)%nat)
  \/ (exists r,
        answers (this s) = answers (this s') ++ [r]
        /\ AnswerRecord.isCorrect r = false
        /\ score (this s') = score (this s)).
Proof.
  intro Hinv.
  destruct (control s) as [| i q | i q ua | i q | how] eqn:Hc;
    unfold_step; rewrite Hc.
  5: { destruct e; [| | destruct (timeoutId s)]; left; split; reflexivity. }
  4: { destruct (invariant_retry i q s Hinv Hc)
         as (_ & _ & _ & _ & _ & before & r & Hans & _ & _ & Hwrong).
       destruct e as [r' | message |]; destruct_tests;
         try (left; split; reflexivity).
       all: right; right; exists r; simpl; rewrite Hans, removelast_last;
         repeat split; assumption. }
  all: destruct e as [r | message |]; destruct_tests;
    try (left; split; reflexivity);
    right; left; eexists; (split; [reflexivity | simpl; lia]).
Qed.

(** ** Once [start()] has settled nothing happens any more *)

Lemma settled_step (now : Z) (e : Event) (s : Session) (how : Settlement) :
  control s = Settled how -> timeoutId s <> Pending -> step now e s = s.
Proof.
  intros Hc Ht. unfold step. rewrite Hc.
  destruct e; try reflexivity.
  destruct (timeoutId s); try reflexivity. contradiction.
Qed.

Lemma settled_run (later : list (Z * Event)) (s : Session) (how : Settlement) :
  control s = Settled how -> timeoutId s <> Pending -> run s later = s.
Proof.
  intros Hc Ht. induction later as [| [now e] rest IH]; simpl.
  - reflexivity.
  - now rewrite (settled_step now e s how Hc Ht).
Qed.

Lemma invariant_settled (s : Session) (how : Settlement) :
  invariant s -> control s = Settled how -> timeoutId s <> Pending.
Proof.
  intros (_ & _ & _ & _ & Hctl) Hc. rewrite Hc in Hctl.
  destruct how; try exact Hctl; rewrite Hctl; discriminate.
Qed.

(** ** The result of the finalization that ends [start()] *)

Lemma step_finalResult (now : Z) (e : Event) (s : Session) :
  invariant s -> finalResult s -> finalResult (step now e s).
Proof.
  intros Hinv Hfinal.
  destruct (control s) as [| i q | i q ua | i q | how] eqn:Hc.
  5: { now rewrite (settled_step now e s how Hc (invariant_settled s how Hinv Hc)). }
  all: unfold finalResult; unfold_step; rewrite Hc;
    destruct e as [r | message |]; destruct_tests; rewrite ?Hc;
    intro H; try discriminate;
    eexists _, _; repeat split.
Qed.

Lemma run_finalResult (events : list (Z * Event)) (s : Session) :
  invariant s -> finalResult s -> finalResult (run s events).
Proof.
  revert s. induction events as [| [now e] rest IH]; intros s Hinv Hfinal; simpl.
  - exact Hfinal.
  - apply IH; [now apply step_invariant | now apply step_finalResult].
Qed.

(* ------------------------------------------------------------------ *)
(** ** The retry loop *)
(* ------------------------------------------------------------------ *)

(** [recordAttempt] pushes its record, whatever comes after. *)
Lemma recordAttempt_answers (now : Z) (i : nat) (q : Question.t)
  (userAnswer : UserAnswer) (isCorrect : bool) (s : Session) :
  answers (this (recordAttempt now i q userAnswer isCorrect s))
  = answers (this s)
    ++ [AnswerRecord.mk (Question.id q) (Question.question q)
                        (Question.type q) userAnswer isCorrect
                        (recordedAnswers q) now].
Proof.
  unfold recordAttempt, nextQuestion, askQuestion, beginAttempt, catchBlock.
  destruct_tests; reflexivity.
Qed.

(** An attempt that is settled is recorded with its verdict, and a
    correct one for good. *)
Lemma settled_attempt_recorded (now : Z) (e : Event) (i : nat)
  (q : Question.t) (userAnswer : UserAnswer) (verdict : bool) (s : Session) :
  invariant s ->
  settlesAttempt s i q e userAnswer verdict ->
  let s1 := step now e s in
  exists r,
    answers (this s1) = answers (this s) ++ [r]
    /\ recordOf q r
    /\ AnswerRecord.userAnswer r = userAnswer
    /\ AnswerRecord.isCorrect r = verdict
    /\ List.length (answers (this s)) = i
    /\ (verdict = true ->
        forall later,
          firstn (S i) (answers (this (run s1 later)))
          = answers (this s) ++ [r]).
Proof.
  intros Hinv Hsettle s1.
  set (r0 := AnswerRecord.mk (Question.id q) (Question.question q)
                             (Question.type q) userAnswer verdict
                             (recordedAnswers q) now).
  assert (Hpark : awaitingAnswer i q s).
  { destruct Hsettle as [(Hc & _) | [(Hc & _) | (text & v & Hc & _)]];
      [now left | now left | right; now exists text]. }
  assert (Hpush : answers (this s1) = answers (this s) ++ [r0]).
  { subst s1. unfold step.
    destruct Hsettle
      as [(Hc & Htype & selected & -> & Hne & Hall & -> & Hverdict)
         | [(Hc & Htype & selected & -> & Hsel & -> & Hverdict)
           | (text & v & Hc & -> & Hin & -> & ->)]];
      rewrite Hc.
    - unfold resumeAnswer. rewrite Htype. simpl String.eqb. cbv iota.
      assert (Hvalid : (match selected with [] => false | _ :: _ => true end
                        && forallb (isOptionIndex q) selected)%bool = true).
      { apply Bool.andb_true_iff. split.
        - destruct selected; [contradiction | reflexivity].
        - apply forallb_forall. now apply Forall_forall. }
      rewrite Hvalid, Hverdict. apply recordAttempt_answers.
    - unfold resumeAnswer. rewrite Htype. simpl String.eqb. cbv iota.
      rewrite Hsel, Hverdict. apply recordAttempt_answers.
    - unfold resumeSelfAssessment.
      assert (Hoffered : existsb (strict_eq v) (map snd selfAssessmentChoices)
                         = true).
      { apply existsb_exists. exists v. split; [exact Hin |].
        now apply strict_eq_true. }
      rewrite Hoffered. apply recordAttempt_answers. }
  destruct (invariant_parked i q s Hinv Hpark) as (Hq & _ & Hhead).
  pose proof (answered_length _ _ _ _ Hq (proj1 Hhead)) as Hlen.
  exists r0. split; [exact Hpush |].
  split; [apply recordOf_pushed |].
  split; [reflexivity |]. split; [reflexivity |]. split; [exact Hlen |].
  intros Hcorrect later.
  destruct (attempt_recorded now e i q s Hpark)
    as [Hsame | (r & Hpush' & _ & Hpos)].
  - exfalso. fold s1 in Hsame. rewrite Hpush in Hsame.
    apply (f_equal (@List.length _)) in Hsame.
    rewrite length_app in Hsame. simpl in Hsame. lia.
  - fold s1 in Hpush', Hpos. rewrite Hpush in Hpush'.
    apply app_inj_tail in Hpush' as [_ <-].
    assert (Hinv1 : invariant s1) by now apply step_invariant.
    assert (Hdone : (S i <= position s1)%nat).
    { destruct (Hpos Hcorrect) as [Hp | Hp]; rewrite Hp; lia. }
    destruct (run_done later _ (S i) Hinv1 Hdone) as [_ Hkeep].
    rewrite Hkeep, Hpush.
    apply firstn_all2. rewrite length_app. simpl. lia.
Qed.

(** C3. In every session the answers are records of the first questions,
    one for each and in their order, and of all the questions once the
    loop has run to its end. While an attempt at question [i] is awaited
    there are exactly [i] records, so a discarded attempt is gone before
    the next one is recorded; an attempt adds one record, and a record
    marked correct stays the record of its question in everything that
    follows. At the retry prompt the last record is the one of the
    question, marked incorrect: declining keeps it for good, accepting
    removes it and asks the same question again. Every attempt that is
    settled is recorded: its record is appended with the input and the
    verdict of the validator, and a correct one stays for good. So when
    a retry is accepted and the next attempt is correct, the record of
    the question is that one record, marked correct, in place of the one
    that was removed. *)
Theorem retry_leaves_one_record :
  forall (options : QuizOptions) (events : list (Z * Event)),
    let s := session options events in
    let qs := questions (this s) in
    (exists k, Forall2 recordOf (firstn k qs) (answers (this s)))
    /\ (control s = Settled Completed ->
        Forall2 recordOf qs (answers (this s)))
    /\ (forall i q,
          awaitingAnswer i q s ->
          List.length (answers (this s)) = i
          /\ forall now e,
               let s1 := step now e s in
               answers (this s1) = answers (this s)
               \/ exists r,
                    answers (this s1) = answers (this s) ++ [r]
                    /\ recordOf q r
                    /\ (AnswerRecord.isCorrect r = true ->
                        forall later,
                          firstn (S i) (answers (this (run s1 later)))
                          = answers (this s) ++ [r]))
    /\ (forall i q,
          control s = AwaitRetry i q ->
          exists before r,
            answers (this s) = before ++ [r]
            /\ List.length before = i
            /\ recordOf q r
            /\ AnswerRecord.isCorrect r = false
            /\ (forall now later,
                  let declined := step now (PromptAnswers (Confirm false)) s in
                  firstn (S i) (answers (this (run declined later)))
                  = before ++ [r])
            /\ (forall now,
                  let accepted := step now (PromptAnswers (Confirm true)) s in
                  control accepted = AwaitAnswer i q
                  /\ answers (this accepted) = before))
    /\ (forall i q now e userAnswer verdict,
          settlesAttempt s i q e userAnswer verdict ->
          let s1 := step now e s in
          exists r,
            answers (this s1) = answers (this s) ++ [r]
            /\ recordOf q r
            /\ AnswerRecord.userAnswer r = userAnswer
            /\ AnswerRecord.isCorrect r = verdict
            /\ List.length (answers (this s)) = i
            /\ (verdict = true ->
                forall later,
                  firstn (S i) (answers (this (run s1 later)))
                  = answers (this s) ++ [r]))
    /\ (forall i q now now' e userAnswer,
          control s = AwaitRetry i q ->
          let accepted := step now (PromptAnswers (Confirm true)) s in
          settlesAttempt accepted i q e userAnswer true ->
          let s2 := step now' e accepted in
          exists r,
            answers (this s2) = removelast (answers (this s)) ++ [r]
            /\ List.length (answers (this s2)) = S i
            /\ recordOf q r
            /\ AnswerRecord.userAnswer r = userAnswer
            /\ AnswerRecord.isCorrect r = true
            /\ forall later,
                 firstn (S i) (answers (this (run s2 later)))
                 = removelast (answers (this s)) ++ [r]).
Proof.
  intros options events s qs.
  pose proof (session_invariant options events) as Hinv. fold s in Hinv.
  split; [| split; [| split; [| split; [| split]]]].
  - destruct Hinv as (Hwf & _). unfold wellFormed in Hwf. fold qs in Hwf.
    destruct (control s) as [| i q | i q ua | i q | []].
    + exists 0%nat. rewrite Hwf. constructor.
    + exists i. apply Hwf.
    + exists i. apply Hwf.
    + destruct Hwf as (Hq & _ & _ & before & r & Hans & Hbefore & Hr & _).
      exists (S i). rewrite Hans. now apply (answered_push _ _ q).
    + exists (List.length qs). now rewrite firstn_all.
    + exists 0%nat. rewrite Hwf. constructor.
    + exact Hwf.
    + exists 0%nat. rewrite Hwf. constructor.
  - intro Hc. destruct Hinv as (Hwf & _). unfold wellFormed in Hwf.
    now rewrite Hc in Hwf.
  - intros i q Hpark.
    destruct (invariant_parked i q s Hinv Hpark) as (Hq & _ & Hhead).
    pose proof (answered_length _ _ _ _ Hq (proj1 Hhead)) as Hlen.
    split; [exact Hlen |].
    intros now e s1. subst s1.
    destruct (attempt_recorded now e i q s Hpark) as [Hsame | (r & Hpush & Hr & Hpos)].
    + now left.
    + right. exists r. repeat split; try assumption; try apply Hr.
      intros Hcorrect later.
      assert (Hinv1 : invariant (step now e s)) by now apply step_invariant.
      assert (Hdone : (S i <= position (step now e s))%nat).
      { destruct (Hpos Hcorrect) as [Hp | Hp]; rewrite Hp; lia. }
      destruct (run_done later _ (S i) Hinv1 Hdone) as [_ Hkeep].
      rewrite Hkeep, Hpush.
      apply firstn_all2. rewrite length_app. simpl. lia.
  - intros i q Hc.
    destruct (invariant_retry i q s Hinv Hc)
      as (Hq & Hsup & Hretry & _ & _ & before & r & Hans & Hlen & Hr & Hwrong).
    exists before, r. repeat split; try assumption; try apply Hr.
    + intros now later declined. subst declined.
      assert (Hlen' : List.length (answers (this s)) = S i).
      { rewrite Hans, length_app. simpl. lia. }
      destruct (retry_declined now i q s Hc Hlen') as [Hsame Hdone].
      assert (Hinv1 : invariant (step now (PromptAnswers (Confirm false)) s))
        by now apply step_invariant.
      destruct (run_done later _ (S i) Hinv1 Hdone) as [_ Hkeep].
      rewrite Hkeep, Hsame, <- Hans. apply firstn_all2. lia.
    + apply (retry_accepted now i q s Hc Hretry Hsup).
    + destruct (retry_accepted now i q s Hc Hretry Hsup) as [_ Hpop].
      rewrite Hpop, Hans. apply removelast_last.
  - intros i q now e userAnswer verdict Hsettle.
    now apply settled_attempt_recorded.
  - intros i q now now' e userAnswer Hc accepted Hsettle s2.
    destruct (invariant_retry i q s Hinv Hc)
      as (_ & Hsup & Hretry & _).
    destruct (retry_accepted now i q s Hc Hretry Hsup) as [_ Hpop].
    fold accepted in Hpop.
    assert (Hinv1 : invariant accepted) by now apply step_invariant.
    destruct (settled_attempt_recorded now' e i q userAnswer true accepted
                                       Hinv1 Hsettle)
      as (r & Hpush & Hr & Hua & Hcorrect & Hlen & Hstay).
    fold s2 in Hpush, Hstay. rewrite Hpop in Hpush, Hstay, Hlen.
    exists r. split; [exact Hpush |].
    split; [rewrite Hpush, length_app, Hlen; simpl; lia |].
    repeat split; try assumption; try apply Hr.
    now apply Hstay.
Qed.

Lemma retry_leaves_one_record_witness :
  let options := quizOf [sampleMultiple; sampleSingle] 0 true in
  let events := [(10, PromptAnswers (Confirm true));
                 (20, PromptAnswers (Checkbox [0]))] in
  let s := session options events in
  control s = AwaitRetry 0 sampleMultiple
  /\ exists before r,
       answers (this s) = before ++ [r]
       /\ List.length before = 0%nat
       /\ recordOf sampleMultiple r
       /\ AnswerRecord.isCorrect r = false
       /\ (forall now later,
             let declined := step now (PromptAnswers (Confirm false)) s in
             firstn 1 (answers (this (run declined later))) = before ++ [r])
       /\ (forall now,
             let accepted := step now (PromptAnswers (Confirm true)) s in
             control accepted = AwaitAnswer 0 sampleMultiple
             /\ answers (this accepted) = before).
Proof.
  intros options events s.
  split; [reflexivity |].
  destruct (retry_leaves_one_record options events) as (_ & _ & _ & H & _).
  apply (H 0%nat sampleMultiple). reflexivity.
Defined.

(** The retry is accepted and the second attempt is correct: the record
    of the first attempt is gone and the one record of the question is
    marked correct. *)
Lemma retry_then_correct_leaves_one_record :
  let options := quizOf [sampleMultiple; sampleSingle] 0 true in
  let events := [(10, PromptAnswers (Confirm true));
                 (20, PromptAnswers (Checkbox [0]))] in
  let s := session options events in
  let accepted := step 30 (PromptAnswers (Confirm true)) s in
  let s2 := step 40 (PromptAnswers (Checkbox [2; 0])) accepted in
  control s = AwaitRetry 0 sampleMultiple
  /\ List.length (answers (this s)) = 1%nat
  /\ exists r,
       answers (this s2) = [r]
       /\ AnswerRecord.userAnswer r = AnswerIndices [0; 2]
       /\ AnswerRecord.isCorrect r = true
       /\ forall later, firstn 1 (answers (this (run s2 later))) = [r].
Proof.
  intros options events s accepted s2.
  assert (Hc : control s = AwaitRetry 0 sampleMultiple) by reflexivity.
  split; [exact Hc |]. split; [reflexivity |].
  assert (Hsettle : settlesAttempt accepted 0 sampleMultiple
                      (PromptAnswers (Checkbox [2; 0]))
                      (AnswerIndices (sortAscending [2; 0])) true).
  { left. split; [reflexivity |]. split; [reflexivity |].
    exists [2; 0]. split; [reflexivity |]. split; [discriminate |].
    split; [repeat constructor |]. split; reflexivity. }
  pose proof (session_invariant options events) as Hinv. fold s in Hinv.
  assert (Hinv1 : invariant accepted) by now apply step_invariant.
  destruct (settled_attempt_recorded 40 (PromptAnswers (Checkbox [2; 0]))
              0%nat sampleMultiple (AnswerIndices (sortAscending [2; 0]))
              true accepted Hinv1 Hsettle)
    as (r & Hpush & _ & Hua & Hcorrect & _ & Hstay).
  exists r. split; [exact Hpush |]. split; [exact Hua |].
  split; [exact Hcorrect |]. intro later. now apply Hstay.
Qed.

(* ------------------------------------------------------------------ *)
(** ** Score and answers *)
(* ------------------------------------------------------------------ *)

Lemma start_finalResult (q : Quiz) : finalResult (start q).
Proof. unfold finalResult. simpl. discriminate. Qed.

(** C10. At every suspension point of every session the score is the
    number of records marked correct in the answers; a turn of the event
    loop leaves both alone, or appends one record and adds one to the score
    exactly when that record is correct, or removes a last record that is
    marked incorrect (the retry path) and keeps the score. Every session
    result is built with a [correctAnswers] count that matches its
    [answers], and the result of the finalization that ends [start()]
    holds the answers and score the engine is left with, which nothing
    changes afterwards. *)
Theorem score_counts_correct_records :
  forall (options : QuizOptions) (events : list (Z * Event)),
    let s := session options events in
    score (this s) = countCorrect (answers (this s))
    /\ (forall now e,
          let s' := step now e s in
          (answers (this s') = answers (this s)
           /\ score (this s') = score (this s))
          \/ (exists r,
                answers (this s') = answers (this s) ++ [r]
                /\ score (this s')
                   = (score (this s)
                      + if AnswerRecord.isCorrect r then 1 else 0)%nat)
          \/ (exists r,
                answers (this s) = answers (this s') ++ [r]
                /\ AnswerRecord.isCorrect r = false
                /\ score (this s') = score (this s)))
    /\ Forall (fun r => SessionResult.correctAnswers r
                        = countCorrect (SessionResult.answers r))
              (saveResultCalls s)
    /\ (control s = Settled Completed ->
        exists earlier r,
          saveResultCalls s = earlier ++ [r]
          /\ SessionResult.answers r = answers (this s)
          /\ SessionResult.correctAnswers r = countCorrect (answers (this s))
          /\ forall later, run s later = s).
Proof.
  intros options events s.
  pose proof (session_invariant options events) as Hinv. fold s in Hinv.
  split; [| split; [| split]].
  - apply Hinv.
  - intros now e. now apply step_score.
  - destruct Hinv as (_ & (_ & Hres) & _).
    eapply Forall_impl; [| exact Hres]. intros r Hr. apply Hr.
  - intro Hc.
    assert (Hfinal : finalResult s).
    { apply run_finalResult;
        [now apply start_invariant | apply start_finalResult]. }
    destruct (Hfinal Hc) as (earlier & r & Hcalls & Hans & Hcount & _).
    exists earlier, r. repeat split; try assumption.
    + rewrite Hcount. apply Hinv.
    + intro later. apply (settled_run later s Completed Hc).
      now apply (invariant_settled s Completed).
Qed.

Lemma score_counts_correct_records_witness :
  let options := quizOf [sampleSingle] 0 false in
  let events := [(10, PromptAnswers (Confirm true));
                 (20, PromptAnswers (ListChoice (JNum 1)))] in
  let s := session options events in
  control s = Settled Completed
  /\ exists earlier r,
       saveResultCalls s = earlier ++ [r]
       /\ SessionResult.answers r = answers (this s)
       /\ SessionResult.correctAnswers r = countCorrect (answers (this s))
       /\ forall later, run s later = s.
Proof.
  intros options events s.
  split; [reflexivity |].
  destruct (score_counts_correct_records options events) as (_ & _ & _ & H).
  apply H. reflexivity.
Defined.

(* ------------------------------------------------------------------ *)
(** ** The percentage *)
(* ------------------------------------------------------------------ *)

(** C6. Every session result handed to the history store carries
    [totalQuestions] equal to the number of configured questions and a
    percentage equal to [Math.round((score / questions.length) * 100)]
    over that configured number, whatever the number of questions
    attempted; a score of 1 out of 3 gives 33. *)
Theorem percentage_over_configured_total :
  forall (options : QuizOptions) (events : list (Z * Event))
         (r : SessionResult.t),
    In r (saveResultCalls (session options events)) ->
    let total := List.length (questions (constructor options)) in
    SessionResult.totalQuestions r = total
    /\ SessionResult.percentage r
       = Math_round
           (Number_mul
              (Number_div (Number_ofZ (Z.of_nat (SessionResult.correctAnswers r)))
                          (Number_ofZ (Z.of_nat total)))
              (Number_ofZ 100))
    /\ percentageOf 1 3 = Number_ofZ 33.
Proof.
  intros options events r Hin total.
  destruct (session_invariant options events) as (_ & (_ & Hres) & _).
  destruct (run_configuration events (start (constructor options)))
    as (Hqs & _ & _).
  rewrite Forall_forall in Hres.
  destruct (Hres r Hin) as (Htotal & Hpct & _).
  unfold session in Htotal, Hpct. rewrite Hqs in Htotal, Hpct.
  split; [exact Htotal |]. split; [exact Hpct |].
  vm_compute. reflexivity.
Qed.

(** A timed quiz of three questions: the first is answered correctly, the
    timer fires while the second is shown. The result built by the timer
    callback has one answer, a total of three and a percentage of 33. *)
Lemma percentage_over_configured_total_witness :
  let options := quizOf [sampleSingle; sampleMultiple; sampleSingle] 60000 false in
  let events := [(0, PromptAnswers (Confirm true));
                 (30000, PromptAnswers (ListChoice (JNum 1)));
                 (60000, TimerFires)] in
  let r := SessionResult.mk 60000 3 1 (Number_ofZ 33) 60000
             (answers (this (session options events))) in
  In r (saveResultCalls (session options events))
  /\ List.length (SessionResult.answers r) = 1%nat
  /\ let total := List.length (questions (constructor options)) in
     SessionResult.totalQuestions r = total
     /\ SessionResult.percentage r
        = Math_round
            (Number_mul
               (Number_div
                  (Number_ofZ (Z.of_nat (SessionResult.correctAnswers r)))
                  (Number_ofZ (Z.of_nat total)))
               (Number_ofZ 100))
     /\ percentageOf 1 3 = Number_ofZ 33.
Proof.
  intros options events r.
  assert (Hcalls : saveResultCalls (session options events) = [r])
    by (vm_compute; reflexivity).
  assert (Hin : In r (saveResultCalls (session options events)))
    by (rewrite Hcalls; now left).
  split; [exact Hin |]. split; [vm_compute; reflexivity |].
  exact (percentage_over_configured_total options events r Hin).
Defined.

(* ------------------------------------------------------------------ *)
(** ** Free-form answers *)
(* ------------------------------------------------------------------ *)

(** C7. The correctness of a free-form attempt is the self-assessment
    alone: the validator's result is true if and only if the response is
    "correct" ([true]) or "partially correct" (['partial']), and that is
    the [isCorrect] of the record pushed, whatever the answer and the
    keywords. A non-blank answer only moves the session to the
    self-assessment prompt, printing the keyword hint or nothing. *)
Theorem free_form_self_assessment_decides :
  forall (now : Z) (i : nat) (q : Question.t) (s : Session),
    Question.type q = "free-form" ->
    (forall selfAssessment,
       validateFreeForm_result selfAssessment = true
       <-> selfAssessment = JBool true \/ selfAssessment = JStr "partial")
    /\ map (fun choice => (fst choice, validateFreeForm_result (snd choice)))
           selfAssessmentChoices
       = [("Correct - I'm confident in my answer", true);
          ("Incorrect - I think I got it wrong", false);
          ("Partially correct - Some parts right", true)]
    /\ (forall userAnswer selfAssessment,
          control s = AwaitSelfAssessment i q userAnswer ->
          In selfAssessment (map snd selfAssessmentChoices) ->
          answers (this (step now (PromptAnswers (ListChoice selfAssessment)) s))
          = answers (this s)
            ++ [AnswerRecord.mk (Question.id q) (Question.question q)
                                (Question.type q) (AnswerText userAnswer)
                                (validateFreeForm_result selfAssessment)
                                (recordedAnswers q) now])
    /\ (forall answer,
          control s = AwaitAnswer i q ->
          trim answer <> "" ->
          let s' := step now (PromptAnswers (Input answer)) s in
          control s' = AwaitSelfAssessment i q (trim answer)
          /\ this s' = this s
          /\ timeoutId s' = timeoutId s
          /\ saveResultCalls s' = saveResultCalls s
          /\ (console s' = console s
              \/ console s' = console s ++ [OutKeywordHint])).
Proof.
  intros now i q s Htype.
  split; [apply validateFreeForm_result_true |].
  split; [reflexivity |]. split.
  - intros userAnswer selfAssessment Hc Hin.
    unfold_step. rewrite Hc.
    assert (Hoffered : existsb (strict_eq selfAssessment)
                               (map snd selfAssessmentChoices)
                       = true).
    { apply existsb_exists. exists selfAssessment.
      split; [exact Hin | now apply strict_eq_true]. }
    unfold resumeSelfAssessment. rewrite Hoffered.
    unfold recordAttempt, nextQuestion, askQuestion, beginAttempt, catchBlock.
    destruct_tests; reflexivity.
  - intros answer Hc Hblank s'. subst s'.
    unfold step. rewrite Hc. unfold resumeAnswer. rewrite Htype. simpl.
    apply String.eqb_neq in Hblank. rewrite Hblank. simpl.
    repeat split.
    unfold validateFreeForm_lines.
    destruct (Question.keywords q) as [[| k ks] |];
      try (left; apply app_nil_r).
    destruct (existsb _ (k :: ks)); [now right | left; apply app_nil_r].
Qed.

(** The answer contains the keyword, the user still rates it incorrect:
    the record is marked incorrect. *)
Lemma free_form_self_assessment_decides_witness :
  let options := quizOf [sampleFreeForm] 0 false in
  let events := [(0, PromptAnswers (Confirm true));
                 (5, PromptAnswers (Input "  AWS Lambda  "))] in
  let s := session options events in
  Question.type sampleFreeForm = "free-form"
  /\ control s = AwaitSelfAssessment 0 sampleFreeForm "AWS Lambda"
  /\ In OutKeywordHint (console s)
  /\ In (JBool false) (map snd selfAssessmentChoices)
  /\ answers (this (step 9 (PromptAnswers (ListChoice (JBool false))) s))
     = answers (this s)
       ++ [AnswerRecord.mk "f1" "Explain f1" "free-form"
                           (AnswerText "AWS Lambda") false None 9].
Proof.
  intros options events s.
  assert (Htype : Question.type sampleFreeForm = "free-form") by reflexivity.
  assert (Hc : control s = AwaitSelfAssessment 0 sampleFreeForm "AWS Lambda")
    by reflexivity.
  assert (Hin : In (JBool false) (map snd selfAssessmentChoices))
    by (right; now left).
  split; [exact Htype |]. split; [exact Hc |].
  split; [vm_compute; tauto |]. split; [exact Hin |].
  destruct (free_form_self_assessment_decides 9 0%nat sampleFreeForm s Htype)
    as (_ & _ & H & _).
  apply (H "AWS Lambda" (JBool false) Hc Hin).
Defined.

(* ------------------------------------------------------------------ *)
(** ** The history store *)
(* ------------------------------------------------------------------ *)

Section StoreFacts.

Variable Result : Type.

Import ResultsManager.

Lemma keepLast50_skipn (results : list Result) :
  keepLast50 results = skipn (List.length results - 50) results.
Proof.
  unfold keepLast50.
  destruct (50 <? List.length results)%nat eqn:E; [reflexivity |].
  apply Nat.ltb_ge in E.
  replace (List.length results - 50)%nat with 0%nat by lia. reflexivity.
Qed.

Lemma keepLast50_length (results : list Result) :
  List.length (keepLast50 results) = Nat.min 50 (List.length results).
Proof. rewrite keepLast50_skipn, length_skipn. lia. Qed.

Lemma ensureResultsDir_file (faults : Faults) (disk disk' : Disk Result) :
  ensureResultsDir faults disk = Normal disk' ->
  resultsFile disk' = resultsFile disk /\ dirExists disk' = true.
Proof.
  unfold ensureResultsDir.
  destruct (dirExists disk) eqn:Hdir; [| destruct (mkdirFails faults)];
    intro H; try discriminate; injection H as <-; now split.
Qed.




Lemma loadResults_bound (faults : Faults) (disk : Disk Result)
  (loaded : list Result) :
  fst (fst (loadResults faults disk)) = LoadedArray loaded ->
  loaded = stored disk \/ loaded = [].
Proof.
  unfold loadResults, stored.
  destruct (ensureResultsDir faults disk) as [disk' |] eqn:E; simpl.
  - apply ensureResultsDir_file in E as [Hfile _]. rewrite <- Hfile.
    destruct (resultsFile disk') as [[] |]; destruct (readFails faults);
      simpl; intro H; try discriminate; inversion H; subst; auto.
  - intro H. inversion H. now right.
Qed.


End StoreFacts.




(** A file that cannot be read is taken for an empty history: when the
    write then succeeds, the new result replaces everything stored. *)
Lemma saveResult_unreadable_file_is_replaced :
  let faults := ResultsManager.mkFaults false true false in
  let disk :=
    ResultsManager.mkDisk true (Some (ResultsManager.JsonArray [1; 2; 3]%nat)) in
  ResultsManager.saveResult faults disk 4%nat
  = (ResultsManager.mkDisk true (Some (ResultsManager.JsonArray [4%nat])),
     [ResultsManager.CouldNotLoad "EACCES"], Normal tt).
Proof. reflexivity. Qed.

(* ------------------------------------------------------------------ *)
(** ** Failures during the questions *)
(* ------------------------------------------------------------------ *)







(* ------------------------------------------------------------------ *)
(** ** The deadline timer *)
(* ------------------------------------------------------------------ *)

(** [saveResult] is called once by the timer callback if the timer fired
    and once more if the loop ran to its end. *)
Lemma saveResult_calls_counted (options : QuizOptions)
  (events : list (Z * Event)) :
  let s := session options events in
  List.length (saveResultCalls s) = expectedSaves s
  /\ (List.length (saveResultCalls s) <= 2)%nat
  /\ (timeLimit (this s) <= 0 -> (List.length (saveResultCalls s) <= 1)%nat).
Proof.
  intro s.
  destruct (session_invariant options events) as (_ & _ & Hcount & Hlimit & _).
  fold s in Hcount, Hlimit.
  split; [exact Hcount |]. rewrite Hcount. unfold expectedSaves.
  split.
  - destruct (timeoutId s); destruct (control s) as [| | | | []]; simpl; lia.
  - intro H. rewrite (Hlimit H).
    destruct (control s) as [| | | | []]; simpl; lia.
Qed.

(** The timer callback finishes the quiz and nothing else: the session
    stays parked on the prompt it was parked on. *)
Lemma timer_leaves_control (now : Z) (s : Session) :
  control (step now TimerFires s) = control s
  /\ answers (this (step now TimerFires s)) = answers (this s).
Proof. unfold step. destruct (timeoutId s); split; reflexivity. Qed.

(** C1 on a timed quiz of two questions. The timer fires while the first
    question is shown: the callback finishes the quiz at once, with no
    answer out of two. The loop of [start] is not stopped (the firing of
    the timer never changes what a session is parked on): the pending
    prompt is answered, the second question is presented after the time
    limit was announced, and the quiz is finished a second time, with as
    many answers as questions. *)
Theorem timeout_does_not_stop_the_questions :
  let atTimeout := session timedOptions (firstn 2 timedEvents) in
  let s := session timedOptions timedEvents in
  (forall now s0, control (step now TimerFires s0) = control s0)
  /\ 0 < timeLimit (this s)
  /\ control atTimeout = AwaitAnswer 0 sampleSingle
  /\ timeoutId atTimeout = Fired
  /\ resultSizes atTimeout = [(0%nat, 2%nat)]
  /\ printedAfter isTimeLimitReached isQuestionHeader (console s) = true
  /\ control s = Settled Completed
  /\ resultSizes s = [(0%nat, 2%nat); (2%nat, 2%nat)].
Proof.
  split; [intros now s0; apply timer_leaves_control |].
  vm_compute. repeat split.
Qed.

(** C8 on a timed quiz of one question. The timer fires while the
    question is shown and the user answers afterwards: [saveResult] is
    called by the timer callback and again at the end of [start]. *)
Theorem saveResult_called_twice_after_timeout :
  let s := session (quizOf [sampleSingle] 1000 false)
                   [(0, PromptAnswers (Confirm true));
                    (1000, TimerFires);
                    (2500, PromptAnswers (ListChoice (JNum 1)))] in
  control s = Settled Completed
  /\ List.length (saveResultCalls s) = 2%nat
  /\ map SessionResult.timestamp (saveResultCalls s) = [1000; 2500]
  /\ map SessionResult.correctAnswers (saveResultCalls s) = [0%nat; 1%nat].
Proof. vm_compute. repeat split. Qed.

(* ------------------------------------------------------------------ *)
(** ** Two sessions from start to end *)
(* ------------------------------------------------------------------ *)

(** One single-choice question, answered correctly. *)
Example session_single_choice_correct :
  let s := session (quizOf [sampleSingle] 0 false)
                   [(0, PromptAnswers (Confirm true));
                    (7000, PromptAnswers (ListChoice (JNum 1)))] in
  control s = Settled Completed
  /\ score (this s) = 1%nat
  /\ map AnswerRecord.isCorrect (answers (this s)) = [true]
  /\ map SessionResult.percentage (saveResultCalls s) = [Number_ofZ 100].
Proof. vm_compute. repeat split. Qed.

(** One multiple-choice question with retries allowed: a wrong selection,
    the retry declined. *)
Example session_multiple_choice_declined :
  let s := session (quizOf [sampleMultiple] 0 true)
                   [(0, PromptAnswers (Confirm true));
                    (7000, PromptAnswers (Checkbox [0]));
                    (9000, PromptAnswers (Confirm false))] in
  control s = Settled Completed
  /\ map AnswerRecord.isCorrect (answers (this s)) = [false]
  /\ map SessionResult.percentage (saveResultCalls s) = [S754_zero false].
Proof. vm_compute. repeat split. Qed.

(** The same question: the retry accepted, then the right selection. *)
Example session_multiple_choice_retried :
  let s := session (quizOf [sampleMultiple] 0 true)
                   [(0, PromptAnswers (Confirm true));
                    (7000, PromptAnswers (Checkbox [0]));
                    (9000, PromptAnswers (Confirm true));
                    (12000, PromptAnswers (Checkbox [2; 0]))] in
  control s = Settled Completed
  /\ map AnswerRecord.isCorrect (answers (this s)) = [true]
  /\ map AnswerRecord.timestamp (answers (this s)) = [12000]
  /\ map SessionResult.percentage (saveResultCalls s) = [Number_ofZ 100].
Proof. vm_compute. repeat split. Qed.

(** Rounding is the rounding of binary64: 23 out of 40 is 57.49999999999999
    and rounds to 57. *)
Example percentage_23_of_40 : percentageOf 23 40 = Number_ofZ 57.
Proof. vm_compute. reflexivity. Qed.

(* ================================================================== *)
(** * Further properties of the engine *)
(* ================================================================== *)

(** ** What a turn hands to the history store *)

Lemma step_saves (now : Z) (e : Event) (s : Session) :
  saveResultCalls (step now e s) = saveResultCalls s
  \/ saveResultCalls (step now e s)
     = saveResultCalls s ++ [resultAt now (this (step now e s))].
Proof.
  unfold resultAt. unfold_step.
  destruct e as [r | message |]; destruct (control s);
    destruct_tests; (left; reflexivity) || (right; reflexivity).
Qed.

Lemma step_startTime (now : Z) (e : Event) (s : Session) :
  control s <> AwaitConfirmStart ->
  startTime (this (step now e s)) = startTime (this s)
  /\ control (step now e s) <> AwaitConfirmStart.
Proof.
  unfold_step.
  destruct e as [r | message |]; destruct (control s) eqn:Hc;
    intro Hrun; try contradiction;
    destruct_tests; simpl; rewrite ?Hc; split;
    first [reflexivity | discriminate].
Qed.

Lemma run_app (s : Session) (events later : list (Z * Event)) :
  run s (events ++ later) = run (run s events) later.
Proof.
  revert s. induction events as [| [now e] rest IH]; intro s; simpl;
    [reflexivity | apply IH].
Qed.

Lemma session_snoc (options : QuizOptions) (events : list (Z * Event))
  (now : Z) (e : Event) :
  session options (events ++ [(now, e)]) = step now e (session options events).
Proof. unfold session. now rewrite run_app. Qed.

(** ** Before the quiz starts *)

(** A turn that leaves the session before its start is one of three. *)
Lemma step_neverStarted (now : Z) (e : Event) (s : Session) :
  timeoutId s = NoTimeout ->
  control s = AwaitConfirmStart ->
  neverStarted (step now e s) ->
  step now e s = s
  \/ (e = PromptAnswers (Confirm false)
      /\ step now e s = setControl (Settled Cancelled) (log [OutCancelled] s))
  \/ (exists message,
        e = PromptRejects message
        /\ step now e s = setControl (Settled (Rejected message)) s).
Proof.
  intros Ht Hc. unfold_step. rewrite Hc, Ht.
  destruct e as [[[] | | |] | message |]; simpl;
    try (intros _; left; reflexivity).
  - destruct_tests; unfold neverStarted; simpl;
      intros [H | [H | [m H]]]; discriminate.
  - intros _. right. left. now split.
  - intros _. right. right. exists message. now split.
Qed.

Lemma step_started (now : Z) (e : Event) (s : Session) :
  (forall how, control s <> Settled how) ->
  control s <> AwaitConfirmStart ->
  ~ neverStarted (step now e s).
Proof.
  intros Hrun Hstart.
  destruct (control s) as [| i q | i q ua | i q | how] eqn:Hc;
    [contradiction | | | | now contradiction (Hrun how)].
  all: unfold_step; rewrite Hc;
    destruct e as [r | message |]; destruct_tests;
    unfold neverStarted; simpl; rewrite ?Hc;
    intros [H | [H | [m H]]]; discriminate.
Qed.

(** X1. A session that is still at its confirmation prompt, was cancelled
    there, or whose confirmation prompt failed has done nothing else:
    it is the session [start()] began with, with the line "Quiz
    cancelled." printed if the user declined. In particular no answer is
    recorded, no timer is armed and [saveResult] is not called; and the
    promise of [start()] is rejected only in the third case. *)
Theorem session_before_start :
  forall (options : QuizOptions) (events : list (Z * Event)),
    let s := session options events in
    let fresh := start (constructor options) in
    neverStarted s ->
    (control s = AwaitConfirmStart -> s = fresh)
    /\ (control s = Settled Cancelled ->
        s = setControl (Settled Cancelled) (log [OutCancelled] fresh))
    /\ (forall message,
          rejectsWith (control s) = Some message ->
          s = setControl (Settled (Rejected message)) fresh)
    /\ answers (this s) = []
    /\ startTime (this s) = None
    /\ timeoutId s = NoTimeout
    /\ saveResultCalls s = [].
Proof.
  intros options events s fresh. subst s.
  induction events as [| [now e] events IH] using rev_ind.
  - intros _. unfold session. simpl.
    repeat split; try reflexivity; try discriminate.
  - rewrite session_snoc.
    set (s := session options events) in *.
    pose proof (session_invariant options events) as Hinv. fold s in Hinv.
    intro Hnever.
    case_eq (control s);
      [intros Hc | intros i q Hc | intros i q ua Hc | intros i q Hc
       | intros how Hc].
    + assert (Hs : neverStarted s) by (left; exact Hc).
      destruct (IH Hs) as (Hfresh & _ & _ & _ & _ & Ht & _).
      specialize (Hfresh Hc).
      destruct (step_neverStarted now e s Ht Hc Hnever)
        as [Hsame | [[_ Hstep] | (message & _ & Hstep)]].
      * rewrite Hsame. exact (IH Hs).
      * rewrite Hstep, Hfresh. unfold fresh. simpl.
        repeat split; try reflexivity; try discriminate.
      * rewrite Hstep, Hfresh. unfold fresh. simpl.
        repeat split; try reflexivity; try discriminate.
        intros m H. now injection H as <-.
    + exfalso. apply (step_started now e s); try rewrite Hc; try discriminate.
      exact Hnever.
    + exfalso. apply (step_started now e s); try rewrite Hc; try discriminate.
      exact Hnever.
    + exfalso. apply (step_started now e s); try rewrite Hc; try discriminate.
      exact Hnever.
    + assert (Hsame : step now e s = s).
      { apply (settled_step now e s how Hc).
        now apply (invariant_settled s how). }
      rewrite Hsame in *. exact (IH Hnever).
Qed.

Lemma session_before_start_witness :
  let options := quizOf [sampleSingle] 60000 true in
  let events := [(3, TimerFires); (5, PromptAnswers (Confirm false));
                 (9, PromptAnswers (ListChoice (JNum 1)))] in
  let s := session options events in
  neverStarted s
  /\ control s = Settled Cancelled
  /\ s = setControl (Settled Cancelled)
                    (log [OutCancelled] (start (constructor options)))
  /\ saveResultCalls s = [].
Proof.
  intros options events s.
  assert (Hnever : neverStarted s) by (right; left; reflexivity).
  assert (Hc : control s = Settled Cancelled) by reflexivity.
  split; [exact Hnever |]. split; [exact Hc |].
  destruct (session_before_start options events Hnever)
    as (_ & H & _ & _ & _ & _ & Hcalls).
  split; [exact (H Hc) | exact Hcalls].
Defined.

(** ** Bounds *)

Lemma countCorrect_le (records : list AnswerRecord.t) :
  (countCorrect records <= List.length records)%nat.
Proof. unfold countCorrect. apply filter_length_le. Qed.

Lemma invariant_answers_bound (s : Session) :
  invariant s ->
  (List.length (answers (this s)) <= List.length (questions (this s)))%nat.
Proof.
  intros (Hwf & _). unfold wellFormed, answered in Hwf.
  assert (Hk : forall k records,
             Forall2 recordOf (firstn k (questions (this s))) records ->
             (List.length records <= List.length (questions (this s)))%nat).
  { intros k records H. apply Forall2_length in H. rewrite <- H.
    rewrite length_firstn. lia. }
  destruct (control s) as [| i q | i q ua | i q | []].
  - rewrite Hwf. simpl. lia.
  - apply (Hk i), Hwf.
  - apply (Hk i), Hwf.
  - destruct Hwf as (Hq & _ & _ & before & r & Hans & Hbefore & _).
    rewrite Hans, length_app. simpl.
    apply Forall2_length in Hbefore. rewrite <- Hbefore.
    assert (i < List.length (questions (this s)))%nat
      by (apply nth_error_Some; congruence).
    rewrite length_firstn. lia.
  - apply Forall2_length in Hwf. lia.
  - rewrite Hwf. simpl. lia.
  - destruct Hwf as [k Hwf]. now apply (Hk k).
  - rewrite Hwf. simpl. lia.
Qed.

Lemma run_results_bounded (events : list (Z * Event)) (s : Session) :
  invariant s ->
  Forall (fun r => (List.length (SessionResult.answers r)
                    <= List.length (questions (this s)))%nat)
         (saveResultCalls s) ->
  Forall (fun r => (List.length (SessionResult.answers r)
                    <= List.length (questions (this s)))%nat)
         (saveResultCalls (run s events)).
Proof.
  revert s. induction events as [| [now e] rest IH]; intros s Hinv Hres; simpl;
    [exact Hres |].
  pose proof (step_invariant now e s Hinv) as Hinv'.
  destruct (step_configuration now e s) as (Hqs & _ & _).
  rewrite <- Hqs. apply IH; [exact Hinv' |].
  rewrite Hqs.
  destruct (step_saves now e s) as [Hsame | Hpush].
  - now rewrite Hsame.
  - rewrite Hpush. apply Forall_app. split; [exact Hres |].
    constructor; [| constructor]. simpl.
    rewrite <- Hqs. now apply invariant_answers_bound.
Qed.

(** X2. In every session the score is at most the number of answers,
    which is at most the number of questions; and every session result
    handed to the history store, also one built by the timer callback,
    has [correctAnswers <= answers.length <= totalQuestions]. *)
Theorem answers_and_score_bounded :
  forall (options : QuizOptions) (events : list (Z * Event)),
    let s := session options events in
    (score (this s) <= List.length (answers (this s)))%nat
    /\ (List.length (answers (this s)) <= List.length (questions (this s)))%nat
    /\ Forall (fun r =>
                 (SessionResult.correctAnswers r
                  <= List.length (SessionResult.answers r))%nat
                 /\ (List.length (SessionResult.answers r)
                     <= SessionResult.totalQuestions r)%nat)
              (saveResultCalls s).
Proof.
  intros options events s.
  pose proof (session_invariant options events) as Hinv. fold s in Hinv.
  split; [| split].
  - destruct Hinv as (_ & (Hscore & _) & _). rewrite Hscore.
    apply countCorrect_le.
  - now apply invariant_answers_bound.
  - assert (Hbound : Forall (fun r =>
                        (List.length (SessionResult.answers r)
                         <= List.length (questions (this s)))%nat)
                            (saveResultCalls s)).
    { destruct (run_configuration events (start (constructor options)))
        as (Hqs & _ & _).
      unfold s, session. rewrite Hqs.
      apply run_results_bounded; [now apply start_invariant | constructor]. }
    destruct Hinv as (_ & (_ & Hres) & _).
    rewrite Forall_forall in *. intros r Hr.
    destruct (Hres r Hr) as (Htotal & _ & Hcount).
    split.
    + rewrite Hcount. apply countCorrect_le.
    + rewrite Htotal. now apply Hbound.
Qed.

(** ** The score only grows *)

Lemma run_score_grows (later : list (Z * Event)) (s : Session) :
  invariant s -> (score (this s) <= score (this (run s later)))%nat.
Proof.
  revert s. induction later as [| [now e] rest IH]; intros s Hinv; simpl;
    [lia |].
  specialize (IH (step now e s) (step_invariant now e s Hinv)).
  destruct (step_score now e s Hinv)
    as [[_ Hs] | [(r & _ & Hs) | (r & _ & _ & Hs)]]; lia.
Qed.

(** X3. The score never decreases as a session goes on (a retry removes
    only a record that did not count), so the [correctAnswers] of a
    result built by the timer callback is at most that of any result
    built later. *)
Theorem score_never_decreases :
  forall (options : QuizOptions) (events later : list (Z * Event)),
    (score (this (session options events))
     <= score (this (session options (events ++ later))))%nat.
Proof.
  intros options events later. unfold session. rewrite run_app.
  apply run_score_grows, session_invariant.
Qed.

(** ** Durations *)

Lemma confirmed_startTime (now : Z) (s : Session) :
  control s = AwaitConfirmStart ->
  let s' := step now (PromptAnswers (Confirm true)) s in
  startTime (this s') = Some now /\ control s' <> AwaitConfirmStart.
Proof.
  intro Hc. unfold_step. rewrite Hc. simpl.
  destruct_tests; simpl; split; (reflexivity || discriminate).
Qed.

Lemma run_durations (t0 : Z) (later : list (Z * Event)) (s : Session) :
  startTime (this s) = Some t0 ->
  control s <> AwaitConfirmStart ->
  Forall (fun r => SessionResult.duration r = SessionResult.timestamp r - t0)
         (saveResultCalls s) ->
  Forall (fun r => SessionResult.duration r = SessionResult.timestamp r - t0)
         (saveResultCalls (run s later)).
Proof.
  revert s. induction later as [| [now e] rest IH]; intros s Ht Hc Hres; simpl;
    [exact Hres |].
  destruct (step_startTime now e s Hc) as [Ht' Hc'].
  apply IH; [congruence | exact Hc' |].
  destruct (step_saves now e s) as [Hsame | Hpush].
  - now rewrite Hsame.
  - rewrite Hpush. apply Forall_app. split; [exact Hres |].
    constructor; [| constructor]. simpl. now rewrite Ht', Ht.
Qed.

(** X4. The duration of every session result is the time between the
    confirmation of the start and the moment [finishQuiz] ran, which is the
    result's timestamp: this holds for a result built at the end of the
    questions and for one built by the timer callback. *)
Theorem duration_counts_from_confirmation :
  forall (options : QuizOptions) (t0 : Z) (later : list (Z * Event))
         (r : SessionResult.t),
    In r (saveResultCalls
            (session options ((t0, PromptAnswers (Confirm true)) :: later))) ->
    SessionResult.duration r = SessionResult.timestamp r - t0.
Proof.
  intros options t0 later r Hin.
  unfold session in Hin. simpl in Hin.
  set (fresh := start (constructor options)) in *.
  destruct (confirmed_startTime t0 fresh eq_refl) as [Ht Hc].
  assert (Hfirst : Forall (fun r => SessionResult.duration r
                                    = SessionResult.timestamp r - t0)
                          (saveResultCalls
                             (step t0 (PromptAnswers (Confirm true)) fresh))).
  { destruct (step_saves t0 (PromptAnswers (Confirm true)) fresh)
      as [Hsame | Hpush].
    - rewrite Hsame. constructor.
    - rewrite Hpush. apply Forall_app. split; [constructor |].
      constructor; [| constructor]. unfold resultAt.
      cbn [SessionResult.duration SessionResult.timestamp].
      now rewrite Ht. }
  pose proof (run_durations t0 later _ Ht Hc Hfirst) as Hall.
  rewrite Forall_forall in Hall. now apply Hall.
Qed.

Lemma duration_counts_from_confirmation_witness :
  let options := quizOf [sampleSingle; sampleSingle] 5000 false in
  let later := [(4000, PromptAnswers (ListChoice (JNum 0)));
                (5000, TimerFires)] in
  let s := session options ((1000, PromptAnswers (Confirm true)) :: later) in
  let r := resultAt 5000 (this s) in
  In r (saveResultCalls s)
  /\ SessionResult.timestamp r = 5000
  /\ SessionResult.duration r = SessionResult.timestamp r - 1000.
Proof.
  intros options later s r.
  assert (Hcalls : saveResultCalls s = [r]) by (vm_compute; reflexivity).
  assert (Hin : In r (saveResultCalls s)) by (rewrite Hcalls; now left).
  split; [exact Hin |]. split; [reflexivity |].
  exact (duration_counts_from_confirmation options 1000 later r Hin).
Defined.

(** ** Sessions without a time limit *)

(** X5. In a session without a positive time limit no timer is ever
    armed, and [saveResult] is called exactly once when the questions ran
    to their end and not at all otherwise. *)
Theorem untimed_session_saves_once :
  forall (options : QuizOptions) (events : list (Z * Event)),
    let s := session options events in
    timeLimit (constructor options) <= 0 ->
    timeoutId s = NoTimeout
    /\ (control s = Settled Completed ->
        List.length (saveResultCalls s) = 1%nat)
    /\ (control s <> Settled Completed -> saveResultCalls s = []).
Proof.
  intros options events s Hlimit.
  destruct (session_invariant options events) as (_ & _ & Hcount & Htimer & _).
  destruct (run_configuration events (start (constructor options)))
    as (_ & Hsame & _).
  fold s in Hcount, Htimer. unfold session in s. fold s in Hsame.
  assert (Ht : timeoutId s = NoTimeout).
  { apply Htimer. rewrite Hsame. exact Hlimit. }
  unfold expectedSaves in Hcount. rewrite Ht in Hcount.
  split; [exact Ht |]. split.
  - intro Hc. now rewrite Hc in Hcount.
  - intro Hc. apply length_zero_iff_nil. rewrite Hcount.
    destruct (control s) as [| | | | []]; try reflexivity. contradiction.
Qed.

Lemma untimed_session_saves_once_witness :
  let options := quizOf [sampleSingle] 0 false in
  let events := [(0, PromptAnswers (Confirm true));
                 (7, TimerFires);
                 (9, PromptAnswers (ListChoice (JNum 2)))] in
  let s := session options events in
  timeLimit (constructor options) <= 0
  /\ control s = Settled Completed
  /\ List.length (saveResultCalls s) = 1%nat.
Proof.
  intros options events s.
  assert (Hlimit : timeLimit (constructor options) <= 0) by (simpl; lia).
  assert (Hc : control s = Settled Completed) by reflexivity.
  split; [exact Hlimit |]. split; [exact Hc |].
  destruct (untimed_session_saves_once options events Hlimit) as (_ & H & _).
  exact (H Hc).
Defined.

(** ** The order of the questions *)

Lemma headersUpTo_succ (k n : nat) :
  headersUpTo (S k) n = headersUpTo k n ++ [OutQuestionHeader (k + 1) n].
Proof. unfold headersUpTo. now rewrite seq_S, map_app. Qed.

Lemma whenPresent_no_header (text : option string) (make : string -> Output) :
  (forall t, isQuestionHeader (make t) = false) ->
  filter isQuestionHeader (whenPresent text make) = [].
Proof.
  intro H. unfold whenPresent.
  destruct text as [t |]; [| reflexivity].
  destruct (String.eqb t ""); simpl; [reflexivity | now rewrite H].
Qed.

Lemma showAnswers_no_header (options : list OptionEntry) (answers : list JsVal) :
  filter isQuestionHeader (fst (showAnswers options answers)) = [].
Proof.
  induction answers as [| a rest IH]; simpl; [reflexivity |].
  destruct (match a with
            | JNum n =>
                match optionAt options n with
                | Some (OptString text) => Normal (JStr text)
                | Some (OptObject text _) => Normal text
                | None => Throw TypeError_undefined
                end
            | other => Normal other
            end) as [text | message]; [| reflexivity].
  destruct (showAnswers options rest) as [lines outcome]. simpl in *.
  exact IH.
Qed.

Lemma showCorrectAnswers_no_header (q : Question.t) :
  filter isQuestionHeader (fst (showCorrectAnswers q)) = [].
Proof.
  unfold showCorrectAnswers.
  destruct (isChoiceType (Question.type q)).
  - destruct (Question.correctAnswers q) as [answers |]; [| reflexivity].
    pose proof (showAnswers_no_header (Question.options q) answers) as H.
    destruct (showAnswers (Question.options q) answers) as [lines outcome].
    exact H.
  - destruct (String.eqb (Question.type q) "free-form"); [| reflexivity].
    destruct (Question.sampleAnswers q) as [[| sample samples] |]; reflexivity.
Qed.

Lemma askFreeForm_no_header (q : Question.t) :
  filter isQuestionHeader (askFreeForm_lines q) = [].
Proof.
  unfold askFreeForm_lines.
  destruct (Question.sampleAnswers q) as [[| sample samples] |]; reflexivity.
Qed.

Lemma validateFreeForm_no_header (q : Question.t) (userAnswer : string) :
  filter isQuestionHeader (validateFreeForm_lines q userAnswer) = [].
Proof.
  unfold validateFreeForm_lines.
  destruct (Question.keywords q) as [[| k ks] |]; try reflexivity.
  destruct (existsb _ (k :: ks)); reflexivity.
Qed.

(** Case analysis on every test the code makes, leaving alone the
    question where the session ends up. *)
Ltac destruct_code_tests :=
  repeat (simpl;
          match goal with
          | |- context [match ?x with _ => _ end] =>
              lazymatch x with
              | control _ => fail
              | _ => destruct x eqn:?
              end
          end).

Ltac headers_simpl :=
  unfold questionHeaders; simpl;
  rewrite ?filter_app; simpl;
  rewrite ?whenPresent_no_header by reflexivity;
  rewrite ?askFreeForm_no_header, ?validateFreeForm_no_header;
  simpl; rewrite ?app_nil_r.

Lemma headersUpTo_succ_succ (i n : nat) :
  headersUpTo (S i) n ++ [OutQuestionHeader (S (i + 1)) n]
  = headersUpTo (S (S i)) n.
Proof. now rewrite (headersUpTo_succ (S i) n). Qed.

(** What the tests on [questions[i]] say about [questions.length]. *)
Ltac index_bounds :=
  repeat match goal with
         | E : match ?l with [] => None | _ :: l' => nth_error l' ?j end = ?v
           |- _ => change (nth_error l (S j) = v) in E
         end;
  repeat match goal with
         | E : nth_error ?l ?j = Some _ |- _ =>
             assert (j < List.length l)%nat
               by (apply nth_error_Some; rewrite E; discriminate);
             revert E
         | E : nth_error ?l ?j = None |- _ =>
             apply nth_error_None in E
         end;
  intros.

Ltac headers_leaf i :=
  first
    [ reflexivity
    | assumption
    | split; [first [reflexivity | assumption | apply headersUpTo_succ_succ]
             | assumption]
    | index_bounds;
      first
        [ exists (S (S i)); split; [lia | apply headersUpTo_succ_succ]
        | exists (S i); split; [lia | reflexivity]
        | exists (S i); split; [lia | assumption]
        | f_equal; lia ] ].

Lemma step_presentedInOrder (now : Z) (e : Event) (s : Session) :
  invariant s -> presentedInOrder s -> presentedInOrder (step now e s).
Proof.
  intros Hinv Hord.
  destruct (control s) as [| i q | i q ua | i q | how] eqn:Hc.
  5: { now rewrite (settled_step now e s how Hc (invariant_settled s how Hinv Hc)). }
  - unfold presentedInOrder in *. rewrite Hc in Hord.
    unfold questionHeaders in Hord.
    unfold_step. rewrite Hc.
    destruct e as [r | message |]; destruct_code_tests; rewrite ?Hc;
      headers_simpl; rewrite ?Hord; try reflexivity; try (now split).
    all: destruct (questions (this s)); try congruence; try reflexivity.
    all: exists 1%nat; split; [simpl; lia | reflexivity].
  - unfold presentedInOrder in *. rewrite Hc in Hord.
    unfold questionHeaders in Hord. destruct Hord as [Hord Hq].
    pose proof (showCorrectAnswers_no_header q) as Hshow.
    unfold_step. rewrite Hc.
    destruct e as [r | message |]; destruct_code_tests; rewrite ?Hc;
      headers_simpl; simpl in Hshow; rewrite ?Hshow, ?app_nil_r, ?Hord;
      headers_leaf i.
  - unfold presentedInOrder in *. rewrite Hc in Hord.
    unfold questionHeaders in Hord. destruct Hord as [Hord Hq].
    pose proof (showCorrectAnswers_no_header q) as Hshow.
    unfold_step. rewrite Hc.
    destruct e as [r | message |]; destruct_code_tests; rewrite ?Hc;
      headers_simpl; simpl in Hshow; rewrite ?Hshow, ?app_nil_r, ?Hord;
      headers_leaf i.
  - unfold presentedInOrder in *. rewrite Hc in Hord.
    unfold questionHeaders in Hord. destruct Hord as [Hord Hq].
    unfold_step. rewrite Hc.
    destruct e as [r | message |]; destruct_code_tests; rewrite ?Hc;
      headers_simpl; rewrite ?Hord; headers_leaf i.
Qed.

Lemma run_presentedInOrder (events : list (Z * Event)) (s : Session) :
  invariant s -> presentedInOrder s -> presentedInOrder (run s events).
Proof.
  revert s. induction events as [| [now e] rest IH]; intros s Hinv Hord; simpl.
  - exact Hord.
  - apply IH; [now apply step_invariant | now apply step_presentedInOrder].
Qed.

Lemma start_presentedInOrder (q : Quiz) : presentedInOrder (start q).
Proof.
  unfold presentedInOrder, questionHeaders. simpl.
  destruct (0 <? timeLimit q); reflexivity.
Qed.

(** X6. The "Question i of n" headers printed in a session are those of
    the first questions, each once and in the order of the
    configuration, whatever timer, retries and failures occurred: up to
    the question the session is parked on, which is [questions[i]], and
    all [n] of them when the loop ran to its end. No question is skipped,
    presented twice or presented out of order. *)
Theorem questions_presented_in_order :
  forall (options : QuizOptions) (events : list (Z * Event)),
    let s := session options events in
    let qs := questions (constructor options) in
    let n := List.length qs in
    (exists k, (k <= n)%nat /\ questionHeaders (console s) = headersUpTo k n)
    /\ (forall i q,
          parkedOn i q s ->
          questionHeaders (console s) = headersUpTo (S i) n
          /\ nth_error qs i = Some q)
    /\ (control s = Settled Completed ->
        questionHeaders (console s) = headersUpTo n n).
Proof.
  intros options events s qs n. subst s. unfold session.
  set (s := run (start (constructor options)) events).
  assert (Hord : presentedInOrder s).
  { apply run_presentedInOrder;
      [now apply start_invariant | apply start_presentedInOrder]. }
  destruct (run_configuration events (start (constructor options)))
    as (Hqs & _ & _).
  fold s in Hqs.
  change (questions (this (start (constructor options)))) with qs in Hqs.
  unfold presentedInOrder in Hord. cbv zeta in Hord.
  rewrite Hqs in Hord. fold n in Hord.
  split; [| split].
  - destruct (control s) as [| i q | i q ua | i q | []].
    + exists 0%nat. split; [lia | exact Hord].
    + destruct Hord as [Hord Hq]. exists (S i). split; [| exact Hord].
      apply nth_error_Some. congruence.
    + destruct Hord as [Hord Hq]. exists (S i). split; [| exact Hord].
      apply nth_error_Some. congruence.
    + destruct Hord as [Hord Hq]. exists (S i). split; [| exact Hord].
      apply nth_error_Some. congruence.
    + exists n. now split.
    + exists 0%nat. split; [lia | exact Hord].
    + exact Hord.
    + exists 0%nat. split; [lia | exact Hord].
  - intros i q [Hc | [[ua Hc] | Hc]]; rewrite Hc in Hord; exact Hord.
  - intro Hc. now rewrite Hc in Hord.
Qed.

Lemma questions_presented_in_order_witness :
  let options := quizOf [sampleMultiple; sampleSingle; sampleSingle] 1000 true in
  let events := [(0, PromptAnswers (Confirm true));
                 (10, PromptAnswers (Checkbox [1]));
                 (20, PromptAnswers (Confirm true));
                 (1000, TimerFires);
                 (1500, PromptAnswers (Checkbox [0; 2]))] in
  let s := session options events in
  parkedOn 1 sampleSingle s
  /\ questionHeaders (console s)
     = [OutQuestionHeader 1 3; OutQuestionHeader 2 3].
Proof.
  intros options events s.
  assert (Hpark : parkedOn 1 sampleSingle s) by (left; reflexivity).
  split; [exact Hpark |].
  destruct (questions_presented_in_order options events) as (_ & H & _).
  exact (proj1 (H 1%nat sampleSingle Hpark)).
Defined.

(** ** What the records hold *)

(** *** Prefixes *)

Lemma prefix_occurs (sub s : string) :
  String.prefix sub s = true <-> exists after, s = (sub ++ after)%string.
Proof.
  revert s. induction sub as [| c sub IH]; intro s; simpl.
  - split; [intros _; now exists s | intros _; now destruct s].
  - destruct s as [| d s]; [split; [discriminate | intros [? H]; discriminate] |].
    simpl. destruct (Ascii.ascii_dec c d) as [-> | Hne].
    + rewrite IH. split; intros [after H]; exists after; congruence.
    + split; [discriminate | intros [after H]; congruence].
Qed.

Lemma skip_append (p rest : string) : skip (String.length p) (p ++ rest) = rest.
Proof. induction p as [| c p IH]; simpl; [reflexivity | exact IH]. Qed.

Lemma append_assoc (s t u : string) : ((s ++ t) ++ u = s ++ t ++ u)%string.
Proof. induction s as [| c s IH]; simpl; [reflexivity | now rewrite IH]. Qed.

Section Prefixes.

Variable prefixes : list string.
Hypothesis nonempty : forall p, In p prefixes -> p <> "".

Lemma afterPrefix_some (s rest : string) :
  afterPrefix prefixes s = Some rest ->
  exists p, In p prefixes /\ s = (p ++ rest)%string
            /\ (String.length rest < String.length s)%nat.
Proof.
  unfold afterPrefix.
  destruct (find _ prefixes) as [p |] eqn:Hfind; [| discriminate].
  simpl. intro H. injection H as <-.
  apply find_some in Hfind as [Hin Hp].
  apply prefix_occurs in Hp as [after ->].
  exists p. rewrite skip_append. split; [exact Hin |]. split; [reflexivity |].
  rewrite append_length. specialize (nonempty p Hin).
  destruct p; [contradiction | simpl; lia].
Qed.

Lemma afterPrefix_none (s : string) :
  afterPrefix prefixes s = None <->
  forall p rest, In p prefixes -> s <> (p ++ rest)%string.
Proof.
  unfold afterPrefix. split.
  - destruct (find _ prefixes) as [p |] eqn:Hfind; [discriminate |].
    intros _ p rest Hin ->.
    pose proof (find_none _ _ Hfind p Hin) as Hp. simpl in Hp.
    assert (String.prefix p (p ++ rest) = true)
      by (apply prefix_occurs; now exists rest).
    congruence.
  - intro H. destruct (find _ prefixes) as [p |] eqn:Hfind; [| reflexivity].
    apply find_some in Hfind as [Hin Hp].
    apply prefix_occurs in Hp as [after ->].
    now contradiction (H p after Hin).
Qed.

(** With the length of the string for fuel nothing is left to drop. *)
Lemma dropPrefixes_done (fuel : nat) (s : string) :
  (String.length s <= fuel)%nat ->
  afterPrefix prefixes (dropPrefixes prefixes fuel s) = None.
Proof.
  revert s. induction fuel as [| fuel IH]; intros s Hlen; simpl.
  - destruct s; [| simpl in Hlen; lia].
    apply afterPrefix_none. intros p rest Hin H.
    destruct p; [now apply (nonempty "") | discriminate].
  - destruct (afterPrefix prefixes s) as [rest |] eqn:Hs; [| exact Hs].
    apply afterPrefix_some in Hs as (p & _ & _ & Hlt).
    apply IH. lia.
Qed.

Lemma dropPrefixes_same (fuel : nat) (s : string) :
  afterPrefix prefixes s = None -> dropPrefixes prefixes fuel s = s.
Proof. intro H. destruct fuel; simpl; [reflexivity | now rewrite H]. Qed.

Lemma dropPrefixes_suffix (fuel : nat) (s : string) :
  exists dropped, s = (dropped ++ dropPrefixes prefixes fuel s)%string.
Proof.
  revert s. induction fuel as [| fuel IH]; intro s; simpl.
  - now exists "".
  - destruct (afterPrefix prefixes s) as [rest |] eqn:Hs; [| now exists ""].
    apply afterPrefix_some in Hs as (p & _ & -> & _).
    destruct (IH rest) as [dropped Hrest].
    exists (p ++ dropped)%string. rewrite append_assoc. congruence.
Qed.

End Prefixes.

(** *** Reversal *)

Lemma reverse_involutive (s : string) : reverse (reverse s) = s.
Proof.
  unfold reverse.
  now rewrite list_ascii_of_string_of_list_ascii, rev_involutive,
    string_of_list_ascii_of_string.
Qed.

Lemma list_ascii_of_string_app (s t : string) :
  list_ascii_of_string (s ++ t) = list_ascii_of_string s ++ list_ascii_of_string t.
Proof. induction s as [| c s IH]; simpl; [reflexivity | now rewrite IH]. Qed.

Lemma string_of_list_ascii_app (l m : list ascii) :
  string_of_list_ascii (l ++ m)
  = (string_of_list_ascii l ++ string_of_list_ascii m)%string.
Proof. induction l as [| c l IH]; simpl; [reflexivity | now rewrite IH]. Qed.

Lemma reverse_append (s t : string) :
  reverse (s ++ t) = (reverse t ++ reverse s)%string.
Proof.
  unfold reverse.
  now rewrite list_ascii_of_string_app, rev_app_distr, string_of_list_ascii_app.
Qed.

Lemma reverse_length (s : string) : String.length (reverse s) = String.length s.
Proof.
  unfold reverse.
  assert (H : forall l, String.length (string_of_list_ascii l) = List.length l).
  { induction l as [| c l IH]; simpl; [reflexivity | now rewrite IH]. }
  assert (K : forall u, List.length (list_ascii_of_string u) = String.length u).
  { induction u as [| c u IH]; simpl; [reflexivity | now rewrite IH]. }
  now rewrite H, length_rev, K.
Qed.

Lemma reverse_empty (s : string) : reverse s = "" -> s = "".
Proof.
  intro H. apply (f_equal String.length) in H.
  rewrite reverse_length in H. destruct s; [reflexivity | discriminate].
Qed.

(** *** [trim] *)

Lemma whiteSpace_nonempty (w : string) : In w whiteSpace -> w <> "".
Proof.
  intros Hin ->. revert Hin. unfold whiteSpace. simpl.
  intuition discriminate.
Qed.

Lemma reversed_nonempty (w : string) :
  In w (map reverse whiteSpace) -> w <> "".
Proof.
  intros Hin ->. apply in_map_iff in Hin as (v & Hv & Hin).
  apply reverse_empty in Hv. now apply (whiteSpace_nonempty v).
Qed.

Lemma trimStart_start (s : string) :
  afterPrefix whiteSpace (trimStart s) = None.
Proof. apply dropPrefixes_done; [apply whiteSpace_nonempty | apply Nat.le_refl]. Qed.

Lemma trimEnd_end (s : string) :
  afterPrefix (map reverse whiteSpace) (reverse (trimEnd s)) = None.
Proof.
  unfold trimEnd. rewrite reverse_involutive.
  apply dropPrefixes_done; [apply reversed_nonempty |].
  now rewrite reverse_length.
Qed.

Lemma trimEnd_prefix (s : string) :
  exists dropped, s = (trimEnd s ++ dropped)%string.
Proof.
  unfold trimEnd.
  destruct (dropPrefixes_suffix (map reverse whiteSpace) reversed_nonempty
                                (String.length s) (reverse s))
    as [dropped H].
  exists (reverse dropped).
  rewrite <- reverse_append, <- H. symmetry. apply reverse_involutive.
Qed.

Lemma trimEnd_start (s : string) :
  afterPrefix whiteSpace s = None -> afterPrefix whiteSpace (trimEnd s) = None.
Proof.
  rewrite !afterPrefix_none. intros H w rest Hin Heq.
  destruct (trimEnd_prefix s) as [dropped Hs].
  apply (H w (rest ++ dropped)%string Hin).
  now rewrite Hs, Heq, append_assoc.
Qed.

Lemma trimEnd_same (s : string) :
  afterPrefix (map reverse whiteSpace) (reverse s) = None -> trimEnd s = s.
Proof.
  intro H. unfold trimEnd. rewrite dropPrefixes_same by exact H.
  apply reverse_involutive.
Qed.

Lemma trim_idempotent (s : string) : trim (trim s) = trim s.
Proof.
  unfold trim at 1. unfold trimStart.
  rewrite dropPrefixes_same.
  - apply trimEnd_same. unfold trim. apply trimEnd_end.
  - unfold trim. apply trimEnd_start, trimStart_start.
Qed.

(** What [trim] returns has no white space at either end. *)
Lemma trim_trimmed (s : string) : trimmed (trim s).
Proof.
  intros w rest Hin. split.
  - assert (H : afterPrefix whiteSpace (trim s) = None)
      by (unfold trim; apply trimEnd_start, trimStart_start).
    rewrite afterPrefix_none in H. now apply H.
  - intro Heq.
    pose proof (trimEnd_end (trimStart s)) as H. fold (trim s) in H.
    rewrite afterPrefix_none in H.
    apply (H (reverse w) (reverse rest)).
    + now apply in_map.
    + now rewrite Heq, reverse_append.
Qed.

(** A text without white space at either end is left as it is. *)
Lemma trimmed_trim (s : string) : trimmed s -> trim s = s.
Proof.
  intro H. unfold trim, trimStart.
  rewrite dropPrefixes_same.
  - apply trimEnd_same. apply afterPrefix_none.
    intros p rest Hin Heq. apply in_map_iff in Hin as (w & <- & Hin).
    apply (f_equal reverse) in Heq.
    rewrite reverse_involutive, reverse_append, reverse_involutive in Heq.
    now apply (proj2 (H w (reverse rest) Hin)).
  - apply afterPrefix_none. intros p rest Hin. exact (proj1 (H p rest Hin)).
Qed.

(** The white space of ECMAScript: a blank of U+00A0 and U+FEFF is
    trimmed to nothing, and U+2003 is trimmed off. *)
Example trim_unicode_white_space :
  trim (utf8 [194; 160; 239; 187; 191]%nat) = ""
  /\ trim (utf8 [194; 160; 32; 97; 32; 98; 226; 128; 131; 10]%nat) = "a b".
Proof. split; reflexivity. Qed.

Lemma insertAscending_nonempty (x : Z) (l : list Z) : insertAscending x l <> [].
Proof. destruct l as [| y rest]; simpl; [| destruct (x <=? y)]; discriminate. Qed.

Lemma sortAscending_nonempty (l : list Z) : l <> [] -> sortAscending l <> [].
Proof.
  destruct l as [| x rest]; [contradiction |].
  intros _. simpl. apply insertAscending_nonempty.
Qed.

Lemma judged_multiple (now : Z) (q : Question.t) (values : list Z) (b : bool) :
  String.eqb (Question.type q) "multiple-choice" = true ->
  (match values with [] => false | _ :: _ => true end
   && forallb (isOptionIndex q) values)%bool = true ->
  validateMultipleChoice q (sortAscending values) = Normal b ->
  judged q (AnswerRecord.mk (Question.id q) (Question.question q)
                            (Question.type q)
                            (AnswerIndices (sortAscending values)) b
                            (recordedAnswers q) now).
Proof.
  intros Htype Hvalid Hverdict.
  apply String.eqb_eq in Htype.
  apply Bool.andb_true_iff in Hvalid as [Hne Hall].
  split; [apply recordOf_pushed |]. split; [reflexivity |]. simpl.
  split; [exact Htype |]. split.
  - apply sortAscending_nonempty. destruct values; [discriminate | discriminate].
  - split; [apply sortAscending_sorted |]. split; [| exact Hverdict].
    rewrite forallb_forall in Hall. apply Forall_forall. intros v Hv.
    apply Hall.
    apply (Permutation_in v (Permutation_sym (sortAscending_perm values)) Hv).
Qed.

Lemma judged_single (now : Z) (q : Question.t) (selected : Z) (b : bool) :
  String.eqb (Question.type q) "single-choice" = true ->
  isOptionIndex q selected = true ->
  validateSingleChoice q selected = Normal b ->
  judged q (AnswerRecord.mk (Question.id q) (Question.question q)
                            (Question.type q) (AnswerIndex selected) b
                            (recordedAnswers q) now).
Proof.
  intros Htype Hvalid Hverdict. apply String.eqb_eq in Htype.
  split; [apply recordOf_pushed |]. split; [reflexivity |]. simpl.
  now repeat split.
Qed.

Lemma judged_text (now : Z) (q : Question.t) (text : string) (b : bool) :
  Question.type q = "free-form" -> text <> "" -> trimmed text ->
  judged q (AnswerRecord.mk (Question.id q) (Question.question q)
                            (Question.type q) (AnswerText text) b
                            (recordedAnswers q) now).
Proof.
  intros Htype Hne Htrim.
  split; [apply recordOf_pushed |]. split; [reflexivity |]. simpl.
  split; [exact Htype |]. split; [exact Hne | exact Htrim].
Qed.

(** What a turn does to the answers: nothing, a judged record of the
    question the session is parked on is pushed, or the last record is
    popped at the retry prompt. *)
Lemma step_answers (now : Z) (e : Event) (s : Session) :
  soundAnswers s ->
  let s' := step now e s in
  answers (this s') = answers (this s)
  \/ (exists i q r,
        awaitingAnswer i q s
        /\ answers (this s') = answers (this s) ++ [r]
        /\ judged q r)
  \/ (exists i q,
        control s = AwaitRetry i q
        /\ answers (this s') = removelast (answers (this s))).
Proof.
  intros [_ Hself].
  destruct (control s) as [| i q | i q ua | i q | how] eqn:Hc.
  - left. unfold_step. rewrite Hc.
    destruct e as [r | message |]; destruct_tests; reflexivity.
  - unfold_step. rewrite Hc.
    destruct e as [r | message |]; destruct_tests;
      try (left; reflexivity);
      right; left; exists i, q; eexists;
      (split; [left; exact Hc |]); (split; [reflexivity |]);
      first [eapply judged_multiple; eassumption
            | eapply judged_single; eassumption].
  - destruct (Hself i q ua eq_refl) as (Htype & Hne & Htrim).
    unfold_step. rewrite Hc.
    destruct e as [r | message |]; destruct_tests;
      try (left; reflexivity);
      right; left; exists i, q; eexists;
      (split; [right; exists ua; exact Hc |]); (split; [reflexivity |]);
      now apply judged_text.
  - unfold_step. rewrite Hc.
    destruct e as [r | message |]; destruct_tests;
      try (left; reflexivity);
      right; right; exists i, q; split; reflexivity.
  - left. unfold step. rewrite Hc.
    destruct e; [| | destruct (timeoutId s)]; reflexivity.
Qed.

Lemma step_selfAssessment (now : Z) (e : Event) (s : Session) (i : nat)
  (q : Question.t) (userAnswer : string) :
  control (step now e s) = AwaitSelfAssessment i q userAnswer ->
  control s = AwaitSelfAssessment i q userAnswer
  \/ (Question.type q = "free-form"
      /\ userAnswer <> "" /\ trimmed userAnswer).
Proof.
  destruct (control s) as [| j p | j p ua | j p | how] eqn:Hc;
    unfold_step; rewrite Hc;
    destruct e as [r | message |]; destruct_tests; simpl; rewrite ?Hc;
    intro H; try discriminate; try (left; exact H).
  injection H as <- <- <-. right.
  split; [now apply String.eqb_eq |].
  split; [now apply String.eqb_neq | apply trim_trimmed].
Qed.

Lemma step_soundAnswers (now : Z) (e : Event) (s : Session) :
  invariant s -> soundAnswers s -> soundAnswers (step now e s).
Proof.
  intros Hinv Hsound. split.
  - destruct (step_configuration now e s) as (Hqs & _ & _). rewrite Hqs.
    destruct (step_answers now e s Hsound)
      as [Hsame | [(i & q & r & Hpark & Hpush & Hr) | (i & q & Hc & Hpop)]].
    + rewrite Hsame. apply Hsound.
    + destruct (invariant_parked i q s Hinv Hpark) as (Hq & _ & Hhead).
      pose proof (answered_length _ _ _ _ Hq (proj1 Hhead)) as Hlen.
      destruct Hsound as [Hsound _]. rewrite Hlen in Hsound.
      rewrite Hpush, length_app, Hlen. simpl.
      replace (i + 1)%nat with (S i) by lia.
      rewrite (firstn_succ_nth_error _ _ _ Hq).
      apply Forall2_app; [exact Hsound | now constructor].
    + destruct (invariant_retry i q s Hinv Hc)
        as (Hq & _ & _ & _ & _ & before & r & Hans & Hlen & _).
      destruct Hsound as [Hsound _].
      rewrite Hans, length_app, Hlen in Hsound. simpl in Hsound.
      replace (i + 1)%nat with (S i) in Hsound by lia.
      rewrite (firstn_succ_nth_error _ _ _ Hq) in Hsound.
      rewrite Hpop, Hans, removelast_last, Hlen.
      destruct (Forall2_app_inv_r _ _ Hsound) as (qs1 & qs2 & H1 & H2 & Hsplit).
      assert (Hqs1 : qs1 = firstn i (questions (this s))).
      { destruct qs2 as [| q2 [| q3 rest]];
          [inversion H2 | | inversion H2 as [| ? ? ? ? _ Hbad]; inversion Hbad].
        now apply app_inj_tail in Hsplit as [<- _]. }
      now rewrite <- Hqs1.
  - intros i q ua Hc.
    destruct (step_selfAssessment now e s i q ua Hc) as [Hold | Hnew];
      [now apply (proj2 Hsound i q ua) | exact Hnew].
Qed.

Lemma run_soundAnswers (events : list (Z * Event)) (s : Session) :
  invariant s -> soundAnswers s -> soundAnswers (run s events).
Proof.
  revert s. induction events as [| [now e] rest IH]; intros s Hinv Hsound; simpl.
  - exact Hsound.
  - apply IH; [now apply step_invariant | now apply step_soundAnswers].
Qed.

(** X7. Every record of every session is judged against the question at
    its position in the configuration: a multiple-choice record holds a
    non-empty, ascending list of option indices and a single-choice record
    an option index, with [isCorrect] the verdict of the validator on
    exactly that input; a free-form record holds a text that is not
    empty and has no white space at either end (none of the code points
    [String.prototype.trim] removes). An empty selection or a blank text
    never reaches a record. *)
Theorem records_hold_judged_input :
  forall (options : QuizOptions) (events : list (Z * Event)),
    let s := session options events in
    Forall2 judged
            (firstn (List.length (answers (this s)))
                    (questions (constructor options)))
            (answers (this s)).
Proof.
  intros options events s.
  assert (Hsound : soundAnswers s).
  { apply run_soundAnswers; [now apply start_invariant |].
    split; [constructor | intros i q ua H; discriminate]. }
  destruct (run_configuration events (start (constructor options)))
    as (Hqs & _ & _).
  destruct Hsound as [Hsound _]. unfold s, session in *.
  now rewrite Hqs in Hsound.
Qed.

(** ** [showCorrectAnswers] *)

Lemma showAnswers_outcome (options : list OptionEntry) (answers : list JsVal) :
  snd (showAnswers options answers) = Normal tt
  <-> Forall (fun answer =>
                match answer with
                | JNum n => 0 <= n < Z.of_nat (List.length options)
                | _ => True
                end) answers.
Proof.
  induction answers as [| a rest IH]; simpl.
  - split; [constructor | reflexivity].
  - assert (Hrest : forall text,
               snd (let (lines, outcome) := showAnswers options rest in
                    (OutCorrectAnswer text :: lines, outcome))
               = snd (showAnswers options rest)).
    { intro text. now destruct (showAnswers options rest). }
    assert (Hat : forall n,
               0 <= n < Z.of_nat (List.length options)
               <-> optionAt options n <> None).
    { intro n. unfold optionAt. destruct (n <? 0) eqn:En.
      - apply Z.ltb_lt in En. split; [lia | congruence].
      - apply Z.ltb_ge in En. rewrite nth_error_Some. lia. }
    destruct a as [| | b | n | t];
      try (rewrite Hrest, IH; split;
           [intro H; now constructor | intro H; now inversion H]).
    destruct (optionAt options n) as [[text | text value] |] eqn:En.
    + rewrite Hrest, IH. split.
      * intro H. constructor; [| exact H]. apply Hat. congruence.
      * intro H. now inversion H.
    + rewrite Hrest, IH. split.
      * intro H. constructor; [| exact H]. apply Hat. congruence.
      * intro H. now inversion H.
    + simpl. split; [discriminate |].
      intro H. inversion H as [| ? ? Hn _]; subst.
      apply Hat in Hn. contradiction.
Qed.

(** X8. [showCorrectAnswers] returns normally exactly when every numeric
    entry of [correctAnswers] is an index of [options]; for a numeric
    entry that is not (a negative one, one past the end) reading
    [option.text] throws. Entries that are not numbers are printed as they
    are, and for a question that is not a choice question nothing can
    throw. *)
Theorem showCorrectAnswers_throws_on_bad_index :
  forall (q : Question.t),
    (isChoiceType (Question.type q) = false ->
     snd (showCorrectAnswers q) = Normal tt)
    /\ (forall answers,
          isChoiceType (Question.type q) = true ->
          Question.correctAnswers q = Some answers ->
          (snd (showCorrectAnswers q) = Normal tt
           <-> Forall (fun answer =>
                         match answer with
                         | JNum n =>
                             0 <= n
                             < Z.of_nat (List.length (Question.options q))
                         | _ => True
                         end) answers)).
Proof.
  intro q. unfold showCorrectAnswers. split.
  - intros ->.
    destruct (String.eqb (Question.type q) "free-form"); [| reflexivity].
    destruct (Question.sampleAnswers q) as [[| sample samples] |]; reflexivity.
  - intros answers -> ->.
    rewrite <- showAnswers_outcome.
    now destruct (showAnswers (Question.options q) answers).
Qed.

Lemma showCorrectAnswers_throws_on_bad_index_witness :
  let q := choiceQuestion "w" "single-choice" ["A"; "B"] [JNum (-2)] in
  isChoiceType (Question.type q) = true
  /\ Question.correctAnswers q = Some [JNum (-2)]
  /\ snd (showCorrectAnswers q) = Throw TypeError_undefined
  /\ ~ Forall (fun answer =>
                 match answer with
                 | JNum n => 0 <= n < Z.of_nat (List.length (Question.options q))
                 | _ => True
                 end) [JNum (-2)].
Proof.
  intro q.
  assert (Htype : isChoiceType (Question.type q) = true) by reflexivity.
  assert (Hanswers : Question.correctAnswers q = Some [JNum (-2)])
    by reflexivity.
  split; [exact Htype |]. split; [exact Hanswers |].
  split; [reflexivity |].
  intro Hall.
  destruct (showCorrectAnswers_throws_on_bad_index q) as [_ H].
  apply (H [JNum (-2)] Htype Hanswers) in Hall. discriminate.
Defined.

(** X9. A single-choice question whose correct answer is a number that
    is not an index of its options cannot be answered: whatever option
    the user selects, the attempt is recorded as incorrect and printing
    the correct answer throws, which ends the session in the [catch] block
    of [start] without a result. *)
Theorem unanswerable_question_aborts :
  forall (now : Z) (i : nat) (q : Question.t) (n selected : Z) (s : Session),
    control s = AwaitAnswer i q ->
    Question.type q = "single-choice" ->
    Question.correctAnswers q = Some [JNum n] ->
    ~ (0 <= n < Z.of_nat (List.length (Question.options q))) ->
    isOptionIndex q selected = true ->
    let s' := step now (PromptAnswers (ListChoice (JNum selected))) s in
    control s' = Settled (Caught TypeError_undefined)
    /\ saveResultCalls s' = saveResultCalls s
    /\ score (this s') = score (this s)
    /\ exists r,
         answers (this s') = answers (this s) ++ [r]
         /\ AnswerRecord.isCorrect r = false
         /\ AnswerRecord.userAnswer r = AnswerIndex selected.
Proof.
  intros now i q n selected s Hc Htype Hanswers Hbad Hsel s'. subst s'.
  assert (Hverdict : validateSingleChoice q selected = Normal false).
  { unfold validateSingleChoice. rewrite Hanswers. simpl. f_equal.
    apply Z.eqb_neq. intros ->. apply Hbad.
    unfold isOptionIndex in Hsel.
    apply Bool.andb_true_iff in Hsel as [H1 H2].
    apply Z.leb_le in H1. apply Z.ltb_lt in H2. lia. }
  assert (Hshow : exists lines,
             showCorrectAnswers q = (lines, Throw TypeError_undefined)).
  { unfold showCorrectAnswers, isChoiceType. rewrite Htype, Hanswers. simpl.
    unfold optionAt. destruct (n <? 0) eqn:En; [eauto |].
    apply Z.ltb_ge in En.
    destruct (nth_error (Question.options q) (Z.to_nat n)) eqn:Eo; [| eauto].
    exfalso. apply Hbad. split; [exact En |].
    assert (Z.to_nat n < List.length (Question.options q))%nat
      by (apply nth_error_Some; congruence).
    lia. }
  destruct Hshow as [lines Hshow].
  unfold step. rewrite Hc. unfold resumeAnswer. rewrite Htype. simpl.
  rewrite Hsel, Hverdict. unfold recordAttempt. rewrite Hshow. simpl.
  repeat split. eexists. repeat split.
Qed.

Lemma unanswerable_question_aborts_witness :
  let q := choiceQuestion "w" "single-choice" ["A"; "B"] [JNum (-2)] in
  let s := session (quizOf [q] 0 true) [(0, PromptAnswers (Confirm true))] in
  let s' := step 5 (PromptAnswers (ListChoice (JNum 1))) s in
  control s = AwaitAnswer 0 q
  /\ control s' = Settled (Caught TypeError_undefined)
  /\ saveResultCalls s' = [].
Proof.
  intros q s s'.
  assert (Hc : control s = AwaitAnswer 0 q) by reflexivity.
  split; [exact Hc |].
  destruct (unanswerable_question_aborts 5 0%nat q (-2) 1 s Hc)
    as (H1 & H2 & _); try reflexivity.
  - simpl. lia.
  - split; [exact H1 | exact H2].
Defined.

(** ** [formatDuration] *)

Section Durations.

Lemma string_of_uint_numeric (d : uint) :
  numeric (NilEmpty.string_of_uint d) = true.
Proof. induction d; simpl; auto. Qed.

Lemma Number_toString_numeric (n : Z) : numeric (Number_toString n) = true.
Proof.
  unfold Number_toString, NilZero.string_of_int, NilZero.string_of_uint.
  destruct (Z.to_int n) as [d | d]; destruct d; simpl;
    try reflexivity; apply string_of_uint_numeric.
Qed.

Lemma split_at_letter (x y : string) (c d : ascii) (t1 t2 : string) :
  numeric x = true -> numeric y = true ->
  isNumericChar c = false -> isNumericChar d = false ->
  (x ++ String c t1)%string = (y ++ String d t2)%string ->
  x = y /\ c = d /\ t1 = t2.
Proof.
  revert y. induction x as [| a x IH]; intros [| b y] Hx Hy Hc Hd H;
    simpl in *.
  - injection H as -> ->. now repeat split.
  - apply Bool.andb_true_iff in Hy as [Hb _].
    injection H as -> _. congruence.
  - apply Bool.andb_true_iff in Hx as [Ha _].
    injection H as -> _. congruence.
  - apply Bool.andb_true_iff in Hx as [_ Hx].
    apply Bool.andb_true_iff in Hy as [_ Hy].
    injection H as -> H.
    destruct (IH y Hx Hy Hc Hd H) as (-> & -> & ->). now repeat split.
Qed.

Lemma formatDuration_nonneg (d : Z) :
  0 <= d ->
  formatDuration d
  = if 60 <=? d / 1000
    then (Number_toString (d / 1000 / 60) ++ "m "
          ++ Number_toString ((d / 1000) mod 60) ++ "s")%string
    else (Number_toString (d / 1000) ++ "s")%string.
Proof.
  intro Hd. unfold formatDuration.
  assert (Hs : 0 <= d / 1000) by (apply Z.div_pos; lia).
  rewrite Z.rem_mod_nonneg by lia.
  destruct (60 <=? d / 1000) eqn:E.
  - apply Z.leb_le in E.
    assert (0 < d / 1000 / 60) by (apply Z.div_str_pos; lia).
    destruct (0 <? d / 1000 / 60) eqn:E'; [reflexivity |].
    apply Z.ltb_ge in E'. lia.
  - apply Z.leb_gt in E.
    rewrite (Z.div_small (d / 1000) 60) by lia. simpl.
    now rewrite Z.mod_small by lia.
Qed.

(** X10. For a duration from 0 to below 2^50 milliseconds, the range in
    which the binary64 operations of the code are exact and a number is
    printed with all its digits, [formatDuration] prints the whole
    seconds alone below one minute and minutes and seconds (0 to 59, no
    hours) from one minute on; two such durations are printed alike
    exactly when they have the same number of whole seconds. *)
Theorem formatDuration_shows_whole_seconds :
  forall (d d' : Z),
    0 <= d < 2 ^ 50 -> 0 <= d' < 2 ^ 50 ->
    (d < 60000 ->
     formatDuration d = (Number_toString (d / 1000) ++ "s")%string)
    /\ (60000 <= d ->
        formatDuration d
        = (Number_toString (d / 60000) ++ "m "
           ++ Number_toString ((d / 1000) mod 60) ++ "s")%string
        /\ 0 <= (d / 1000) mod 60 < 60
        /\ d / 60000 * 60 + (d / 1000) mod 60 = d / 1000)
    /\ (formatDuration d = formatDuration d' <-> d / 1000 = d' / 1000).
Proof.
  intros d d' [Hd _] [Hd' _].
  assert (Hdiv : forall x, 0 <= x -> x / 1000 / 60 = x / 60000).
  { intros x Hx. rewrite Z.div_div by lia. reflexivity. }
  split; [| split].
  - intro Hlt. rewrite formatDuration_nonneg by exact Hd.
    assert (d / 1000 < 60) by (apply Z.div_lt_upper_bound; lia).
    destruct (60 <=? d / 1000) eqn:E; [apply Z.leb_le in E; lia | reflexivity].
  - intro Hge. rewrite formatDuration_nonneg by exact Hd.
    assert (60 <= d / 1000) by (apply Z.div_le_lower_bound; lia).
    destruct (60 <=? d / 1000) eqn:E; [| apply Z.leb_gt in E; lia].
    rewrite (Hdiv d Hd). split; [reflexivity |].
    split; [apply Z.mod_pos_bound; lia |].
    rewrite <- (Hdiv d Hd).
    pose proof (Z.div_mod (d / 1000) 60 ltac:(lia)). lia.
  - split; [| intro H; rewrite !formatDuration_nonneg by assumption;
              now rewrite H].
    rewrite !formatDuration_nonneg by assumption.
    set (s := d / 1000). set (s' := d' / 1000).
    assert (Hm : 0 <= s mod 60 < 60) by (apply Z.mod_pos_bound; lia).
    assert (Hm' : 0 <= s' mod 60 < 60) by (apply Z.mod_pos_bound; lia).
    pose proof (Z.div_mod s 60 ltac:(lia)) as Hs.
    pose proof (Z.div_mod s' 60 ltac:(lia)) as Hs'.
    destruct (60 <=? s) eqn:E; destruct (60 <=? s') eqn:E'; intro H.
    + apply split_at_letter in H as (Hmin & _ & H);
        try apply Number_toString_numeric; try reflexivity.
      injection H as H.
      apply split_at_letter in H as (Hsec & _ & _);
        try apply Number_toString_numeric; try reflexivity.
      apply Number_toString_inj in Hmin, Hsec. lia.
    + apply split_at_letter in H as (_ & Hbad & _);
        try apply Number_toString_numeric; try reflexivity.
      discriminate.
    + apply split_at_letter in H as (_ & Hbad & _);
        try apply Number_toString_numeric; try reflexivity.
      discriminate.
    + apply split_at_letter in H as (Hsec & _ & _);
        try apply Number_toString_numeric; try reflexivity.
      now apply Number_toString_inj in Hsec.
Qed.

Lemma formatDuration_shows_whole_seconds_witness :
  0 <= 125999 < 2 ^ 50 /\ 0 <= 125000 < 2 ^ 50
  /\ formatDuration 125999 = "2m 5s"
  /\ (formatDuration 125999 = formatDuration 125000
      <-> 125999 / 1000 = 125000 / 1000).
Proof.
  split; [lia |]. split; [lia |]. split; [reflexivity |].
  apply (formatDuration_shows_whole_seconds 125999 125000); lia.
Defined.

End Durations.

(** ** Grades *)

Lemma wholePercentages_in (p : Z) : 0 <= p <= 100 -> In p wholePercentages.
Proof.
  intro Hp. unfold wholePercentages.
  replace p with (Z.of_nat (Z.to_nat p)) by lia.
  apply in_map, in_seq. lia.
Qed.

Lemma grades_checked :
  forallb (fun p =>
             match gradeOf (Number_ofZ p), gradeBand p with
             | Excellent, Excellent | GreatJob, GreatJob | GoodWork, GoodWork
             | NotBad, NotBad | KeepStudying, KeepStudying => true
             | _, _ => false
             end
             && match getGradeColor (Number_ofZ p), colourBand p with
                | Green, Green | Yellow, Yellow | Blue, Blue | Red, Red => true
                | _, _ => false
                end)%bool
          wholePercentages = true.
Proof. vm_compute. reflexivity. Qed.

(** X11. On a whole percentage from 0 to 100 the comparisons of
    [finishQuiz] and [getGradeColor], made on binary64 numbers, are the
    thresholds one reads: excellent from 90, great from 80, good from 70,
    not bad from 60, keep studying below; green from 90, yellow from 80,
    blue from 70, red below. The percentage of a quiz without questions is
    NaN, which gets "keep studying" and red. *)
Theorem grade_bands :
  forall (p : Z),
    0 <= p <= 100 ->
    gradeOf (Number_ofZ p) = gradeBand p
    /\ getGradeColor (Number_ofZ p) = colourBand p
    /\ percentageOf 0 0 = S754_nan
    /\ gradeOf S754_nan = KeepStudying
    /\ getGradeColor S754_nan = Red.
Proof.
  intros p Hp.
  pose proof grades_checked as H. rewrite forallb_forall in H.
  specialize (H p (wholePercentages_in p Hp)).
  apply Bool.andb_true_iff in H as [Hg Hc].
  split; [| split; [| repeat split]].
  - destruct (gradeOf (Number_ofZ p)), (gradeBand p);
      try reflexivity; discriminate.
  - destruct (getGradeColor (Number_ofZ p)), (colourBand p);
      try reflexivity; discriminate.
Qed.

Lemma grade_bands_witness :
  0 <= 85 <= 100
  /\ gradeOf (Number_ofZ 85) = GreatJob
  /\ getGradeColor (Number_ofZ 85) = Yellow.
Proof.
  assert (H : 0 <= 85 <= 100) by lia.
  split; [exact H |].
  destruct (grade_bands 85 H) as (Hg & Hc & _).
  split; [exact Hg | exact Hc].
Defined.

(** ** The percentage of small quizzes *)

Lemma sameNumber_eq (x y : spec_float) : sameNumber x y = true -> x = y.
Proof.
  destruct x as [s | s | | s m e], y as [t | t | | t n f]; simpl;
    intro H; try discriminate; try reflexivity.
  - apply Bool.eqb_prop in H. now subst.
  - apply Bool.eqb_prop in H. now subst.
  - apply Bool.andb_true_iff in H as [H He].
    apply Bool.andb_true_iff in H as [Hs Hm].
    apply Bool.eqb_prop in Hs. apply Pos.eqb_eq in Hm. apply Z.eqb_eq in He.
    now subst.
Qed.

Lemma allScores_in (score total bound : nat) :
  (0 < total <= bound)%nat -> (score <= total)%nat ->
  In (score, total) (allScores bound).
Proof.
  intros Ht Hs. unfold allScores. apply in_flat_map.
  exists total. split; [apply in_seq; lia |].
  apply in_map_iff. exists score. split; [reflexivity |].
  apply in_seq. lia.
Qed.

Lemma percentages_checked :
  forallb (fun pair => percentageChecks (fst pair) (snd pair)) (allScores 199)
  = true.
Proof. vm_cast_no_check (eq_refl true). Qed.

(** X12. In a quiz of fewer than 200 questions the percentage of a
    score is a whole number from 0 to 100: the one nearest to
    [100 * score / total], a tie going up, or the one just below such a
    tie; it is 100 only when every question was answered correctly and 0
    only when none was. (From 200 questions on this fails: 249 out of 250
    is shown as 100.) *)
Theorem percentage_of_small_quiz :
  forall (score total : nat),
    (0 < total < 200)%nat -> (score <= total)%nat ->
    exists p,
      percentageOf score total = Number_ofZ p
      /\ 0 <= p <= 100
      /\ 2 * Z.of_nat total * p <= 200 * Z.of_nat score + Z.of_nat total
         <= 2 * Z.of_nat total * (p + 1)
      /\ (p = 100 <-> score = total)
      /\ (p = 0 <-> score = 0%nat).
Proof.
  intros score total Ht Hs.
  pose proof percentages_checked as H. rewrite forallb_forall in H.
  specialize (H (score, total) (allScores_in score total 199 ltac:(lia) Hs)).
  unfold percentageChecks in H. simpl fst in H. simpl snd in H.
  set (s := Z.of_nat score) in *. set (n := Z.of_nat total) in *.
  set (nearest := (200 * s + n) / (2 * n)) in *.
  set (p := if sameNumber (percentageOf score total) (Number_ofZ nearest)
            then nearest else nearest - 1) in *.
  apply Bool.andb_true_iff in H as [H Hzero].
  apply Bool.andb_true_iff in H as [H Hfull].
  apply Bool.andb_true_iff in H as [Hsame Hnear].
  apply sameNumber_eq in Hsame.
  assert (Hn : 0 < n) by (unfold n; lia).
  assert (Hsn : 0 <= s <= n) by (unfold s, n; lia).
  assert (Hdiv : 2 * n * nearest <= 200 * s + n < 2 * n * (nearest + 1)).
  { unfold nearest.
    pose proof (Z.div_mod (200 * s + n) (2 * n) ltac:(lia)).
    pose proof (Z.mod_pos_bound (200 * s + n) (2 * n) ltac:(lia)). lia. }
  assert (Hp : p = nearest \/ (p = nearest - 1 /\ 200 * s + n = 2 * n * nearest)).
  { apply Bool.orb_true_iff in Hnear as [Hnear | Hnear].
    - left. now apply Z.eqb_eq.
    - apply Z.eqb_eq in Hnear. unfold p.
      destruct (sameNumber _ _); [now left | now right]. }
  assert (Hbounds : 2 * n * p <= 200 * s + n <= 2 * n * (p + 1)).
  { destruct Hp as [-> | [-> Htie]]; nia. }
  exists p. split; [exact Hsame |].
  split; [nia |]. split; [exact Hbounds |].
  split.
  - apply Bool.eqb_prop in Hfull.
    split; intro Heq.
    + apply Z.eqb_eq in Heq. rewrite Heq in Hfull. symmetry in Hfull.
      apply Z.eqb_eq in Hfull. unfold s, n in Hfull. lia.
    + assert (Heq' : (s =? n) = true) by (apply Z.eqb_eq; unfold s, n; lia).
      rewrite Heq' in Hfull. now apply Z.eqb_eq.
  - apply Bool.eqb_prop in Hzero.
    split; intro Heq.
    + apply Z.eqb_eq in Heq. rewrite Heq in Hzero. symmetry in Hzero.
      apply Z.eqb_eq in Hzero. unfold s in Hzero. lia.
    + assert (Heq' : (s =? 0) = true) by (apply Z.eqb_eq; unfold s; lia).
      rewrite Heq' in Hzero. now apply Z.eqb_eq.
Qed.

Lemma percentage_of_small_quiz_witness :
  (0 < 40 < 200)%nat /\ (23 <= 40)%nat
  /\ exists p,
       percentageOf 23 40 = Number_ofZ p
       /\ 0 <= p <= 100
       /\ 2 * 40 * p <= 200 * 23 + 40 <= 2 * 40 * (p + 1)
       /\ (p = 100 <-> 23%nat = 40%nat)
       /\ (p = 0 <-> 23%nat = 0%nat).
Proof.
  assert (Ht : (0 < 40 < 200)%nat) by lia.
  assert (Hs : (23 <= 40)%nat) by lia.
  split; [exact Ht |]. split; [exact Hs |].
  exact (percentage_of_small_quiz 23 40 Ht Hs).
Defined.

(** With 250 questions a score of 249 is shown as 100 per cent. *)
Example percentage_249_of_250 : percentageOf 249 250 = Number_ofZ 100.
Proof. vm_compute. reflexivity. Qed.

(* ------------------------------------------------------------------ *)
(** ** Questions that went through the loader *)
(* ------------------------------------------------------------------ *)

Lemma validateEach_loaded (qs : list FileQuestion.t) (index : nat) :
  validateEach qs index = None -> Forall loaded qs.
Proof.
  revert index. induction qs as [| q rest IH]; intros index H; simpl in H.
  - constructor.
  - destruct (validateQuestion q index) eqn:Hq; [discriminate |].
    constructor; [now exists index | now apply IH with (S index)].
Qed.

Lemma supportedTypes_supported (type : string) :
  existsb (String.eqb type) supportedTypes = supportedType type.
Proof.
  unfold supportedTypes, supportedType. simpl.
  now rewrite Bool.orb_false_r, Bool.orb_assoc.
Qed.

Lemma loaded_supported (q : FileQuestion.t) :
  loaded q -> supportedType (FileQuestion.type q) = true.
Proof.
  intros [index H]. unfold validateQuestion in H.
  rewrite supportedTypes_supported in H.
  destruct (String.eqb (FileQuestion.id q) ""); [discriminate |].
  destruct (String.eqb (FileQuestion.question q) ""); [discriminate |].
  destruct (String.eqb (FileQuestion.type q) ""); [discriminate |].
  destruct (supportedType (FileQuestion.type q)); [reflexivity | discriminate].
Qed.

Lemma loaded_choice (q : FileQuestion.t) :
  loaded q -> isChoiceType (FileQuestion.type q) = true ->
  exists index, validateChoiceQuestion q index = None.
Proof.
  intros [index H] Hchoice. exists (index + 1)%nat.
  unfold validateQuestion in H. unfold isChoiceType in Hchoice.
  destruct (String.eqb (FileQuestion.id q) ""); [discriminate |].
  destruct (String.eqb (FileQuestion.question q) ""); [discriminate |].
  destruct (String.eqb (FileQuestion.type q) ""); [discriminate |].
  destruct (negb (existsb (String.eqb (FileQuestion.type q)) supportedTypes));
    [discriminate |].
  destruct (String.eqb (FileQuestion.type q) "multiple-choice"); [exact H |].
  destruct (String.eqb (FileQuestion.type q) "single-choice"); [exact H |].
  discriminate.
Qed.

(** What [validateChoiceQuestion] has checked when it returns. *)
Lemma validateChoiceQuestion_checked (q : FileQuestion.t) (questionNum : nat) :
  validateChoiceQuestion q questionNum = None ->
  (2 <= List.length (FileQuestion.options q))%nat
  /\ exists answers,
       FileQuestion.correctAnswers q = Some answers
       /\ (FileQuestion.type q = "single-choice" ->
           List.length answers = 1%nat)
       /\ (FileQuestion.type q = "multiple-choice" -> answers <> [])
       /\ Forall (fun answer =>
                    referencesOption (FileQuestion.options q) answer = true)
                 answers.
Proof.
  unfold validateChoiceQuestion. intro H.
  destruct (List.length (FileQuestion.options q) <? 2)%nat eqn:Hlen;
    [discriminate |].
  apply Nat.ltb_ge in Hlen. split; [exact Hlen |].
  destruct (firstInvalidOption (FileQuestion.options q) 0); [discriminate |].
  destruct (FileQuestion.correctAnswers q) as [answers |]; [| discriminate].
  exists answers. split; [reflexivity |].
  destruct (String.eqb (FileQuestion.type q) "single-choice"
            && negb (List.length answers =? 1)%nat)%bool eqn:Hone;
    [discriminate |].
  destruct (String.eqb (FileQuestion.type q) "multiple-choice"
            && (List.length answers =? 0)%nat)%bool eqn:Hnone;
    [discriminate |].
  split; [| split].
  - intro Htype. rewrite Htype in Hone. simpl in Hone.
    apply Bool.negb_false_iff, Nat.eqb_eq in Hone. exact Hone.
  - intros Htype ->. rewrite Htype in Hnone. discriminate.
  - apply Forall_forall. intros answer Hin.
    destruct (find _ answers) eqn:Hfind; [discriminate |].
    pose proof (find_none _ _ Hfind answer Hin) as Hok.
    now apply Bool.negb_false_iff in Hok.
Qed.

Lemma findIndex_none {A : Type} (l : list A) :
  findIndex (fun _ => false) l = -1.
Proof. induction l as [| x rest IH]; simpl; [| rewrite IH]; reflexivity. Qed.

(** *** Whole numbers and values of the engine *)

Lemma wholeNumber_eq (x : Q) (n : Z) :
  wholeNumber x = Some n -> Qeq x (inject_Z n).
Proof.
  unfold wholeNumber. intro H.
  pose proof (Qred_correct x) as Hred.
  destruct (Qred x) as [num den]. cbn [Qden Qnum] in H.
  destruct (den =? 1)%positive eqn:Hden; [| discriminate].
  apply Pos.eqb_eq in Hden. injection H as <-. subst den.
  symmetry. exact Hred.
Qed.

(** An answer the loader lets through and the engine holds resolves, as
    the engine resolves it, below the number of options and not to
    [-1]. *)
Lemma referencesOption_bound (options : list OptionEntry) (answer : FileValue)
  (v : JsVal) :
  referencesOption options answer = true ->
  asValue answer = Some v ->
  resolveAnswer options v <> -1
  /\ resolveAnswer options v < Z.of_nat (List.length options).
Proof.
  unfold referencesOption.
  assert (Hwhole : forall k : Z,
             negb (Qeq_bool (inject_Z k) (inject_Z (-1))
                   || Qle_bool (inject_Z (Z.of_nat (List.length options)))
                               (inject_Z k)) = true ->
             k <> -1 /\ k < Z.of_nat (List.length options)).
  { intros k H.
    apply Bool.negb_true_iff, Bool.orb_false_iff in H as [H1 H2]. split.
    - intros ->. now rewrite Qeq_bool_refl in H1.
    - destruct (Z_lt_le_dec k (Z.of_nat (List.length options))) as [Hlt | Hle];
        [exact Hlt |].
      rewrite Zle_Qle in Hle. apply Qle_bool_iff in Hle. congruence. }
  destruct answer as [| b | [x | negative] | s |]; simpl;
    intros Href Hv; try discriminate;
    try (injection Hv as <-; now apply Hwhole).
  destruct (wholeNumber x) as [n |] eqn:Hx; [| discriminate].
  injection Hv as <-. simpl. apply Hwhole.
  apply wholeNumber_eq in Hx.
  rewrite <- Href. f_equal. f_equal.
  - apply eq_true_iff_eq. rewrite !Qeq_bool_iff. now rewrite Hx.
  - apply eq_true_iff_eq. rewrite !Qle_bool_iff. now rewrite Hx.
Qed.

Lemma allSome_Forall2 {A B : Type} (f : A -> option B) (l : list A)
  (l' : list B) :
  allSome (map f l) = Some l' -> Forall2 (fun x y => f x = Some y) l l'.
Proof.
  revert l'. induction l as [| x rest IH]; intros l' H; simpl in H.
  - injection H as <-. constructor.
  - destruct (f x) as [y |] eqn:Hx; [| discriminate].
    destruct (allSome (map f rest)) as [ys |]; [| discriminate].
    injection H as <-. constructor; [exact Hx | now apply IH].
Qed.

Lemma Forall2_right {A B : Type} (R : A -> B -> Prop) (l : list A)
  (l' : list B) (y : B) :
  Forall2 R l l' -> In y l' -> exists x, In x l /\ R x y.
Proof.
  induction 1 as [| x y' l l' Hxy _ IH]; intro Hin; [contradiction |].
  destruct Hin as [<- | Hin].
  - exists x. split; [now left | exact Hxy].
  - destruct (IH Hin) as (x' & Hx' & Hr). exists x'. split; [now right | exact Hr].
Qed.

(** What the engine's question keeps of the file's. *)
Lemma asQuestion_fields (fq : FileQuestion.t) (q : Question.t) :
  asQuestion fq = Some q ->
  Question.type q = FileQuestion.type fq
  /\ Question.options q = FileQuestion.options fq
  /\ match FileQuestion.correctAnswers fq with
     | Some fileAnswers =>
         exists answers,
           Question.correctAnswers q = Some answers
           /\ Forall2 (fun x y => asValue x = Some y) fileAnswers answers
     | None => Question.correctAnswers q = None
     end.
Proof.
  unfold asQuestion. intro H.
  destruct (convertAll asValue (FileQuestion.correctAnswers fq))
    as [answers |] eqn:Ha; [| discriminate].
  destruct (convertAll asString (FileQuestion.keywords fq))
    as [keywords |]; [| discriminate].
  injection H as <-. simpl. split; [reflexivity |]. split; [reflexivity |].
  unfold convertAll in Ha.
  destruct (FileQuestion.correctAnswers fq) as [fileAnswers |].
  - destruct (allSome (map asValue fileAnswers)) as [l |] eqn:Hl;
      [| discriminate].
    simpl in Ha. injection Ha as <-.
    exists l. split; [reflexivity | now apply allSome_Forall2].
  - now injection Ha as <-.
Qed.

Lemma loaded_runnable (fq : FileQuestion.t) (q : Question.t) :
  loaded fq -> asQuestion fq = Some q -> countsFromZero q -> runnable q.
Proof.
  intros Hloaded Hq Hzero.
  destruct (asQuestion_fields fq q Hq) as (Htype & Hoptions & Hanswers).
  split; [rewrite Htype; now apply loaded_supported |].
  intro Hchoice. rewrite Htype in Hchoice.
  destruct (loaded_choice fq Hloaded Hchoice) as [index Hcheck].
  destruct (validateChoiceQuestion_checked fq index Hcheck)
    as (_ & fileAnswers & Hfile & _ & _ & Hrefs).
  rewrite Hfile in Hanswers. destruct Hanswers as (answers & Hsome & Hall).
  exists answers. split; [exact Hsome |].
  apply Forall_forall. intros answer Hin.
  destruct answer as [| | b | n | t]; try exact I.
  destruct (Forall2_right _ _ _ _ Hall Hin) as (x & Hx & Hvalue).
  rewrite Forall_forall in Hrefs.
  destruct (referencesOption_bound _ x (JNum n) (Hrefs x Hx) Hvalue)
    as [_ Hlt].
  simpl in Hlt. rewrite Hoptions. split; [| exact Hlt].
  now apply (Hzero answers n).
Qed.

(** *** A runnable question never throws *)

Lemma beginAttempt_runnable (i : nat) (q : Question.t) (s : Session) :
  runnable q -> control (beginAttempt i q s) = AwaitAnswer i q.
Proof.
  intros [Hsupported _]. unfold beginAttempt, supportedType in *.
  destruct (String.eqb (Question.type q) "multiple-choice"); [reflexivity |].
  destruct (String.eqb (Question.type q) "single-choice"); [reflexivity |].
  destruct (String.eqb (Question.type q) "free-form"); [reflexivity |].
  discriminate.
Qed.

Lemma nextQuestion_runnable (now : Z) (i : nat) (s : Session) :
  Forall runnable (questions (this s)) -> ~ failed (nextQuestion now i s).
Proof.
  intro Hall. unfold nextQuestion, failed.
  destruct (nth_error (questions (this s)) i) as [q |] eqn:Hq.
  - unfold askQuestion. rewrite beginAttempt_runnable; [tauto |].
    rewrite Forall_forall in Hall. apply Hall.
    now apply nth_error_In with i.
  - simpl. tauto.
Qed.

Lemma showCorrectAnswers_runnable (q : Question.t) :
  runnable q -> snd (showCorrectAnswers q) = Normal tt.
Proof.
  intros [_ Hchoice]. unfold showCorrectAnswers.
  destruct (isChoiceType (Question.type q)).
  - destruct (Hchoice eq_refl) as (answers & -> & Hshow).
    apply showAnswers_outcome in Hshow.
    now destruct (showAnswers (Question.options q) answers).
  - destruct (String.eqb (Question.type q) "free-form"); [| reflexivity].
    destruct (Question.sampleAnswers q) as [[| sample samples] |]; reflexivity.
Qed.

Lemma recordAttempt_runnable (now : Z) (i : nat) (q : Question.t)
  (userAnswer : UserAnswer) (isCorrect : bool) (s : Session) :
  runnable q -> Forall runnable (questions (this s)) ->
  ~ failed (recordAttempt now i q userAnswer isCorrect s).
Proof.
  intros Hq Hall. unfold recordAttempt.
  destruct isCorrect.
  - now apply nextQuestion_runnable.
  - pose proof (showCorrectAnswers_runnable q Hq) as Hshow.
    destruct (showCorrectAnswers q) as [lines outcome]. simpl in Hshow.
    subst outcome. simpl.
    destruct (allowRetry (this s)).
    + unfold failed. simpl. tauto.
    + now apply nextQuestion_runnable.
Qed.

Lemma validators_runnable (q : Question.t) :
  runnable q -> isChoiceType (Question.type q) = true ->
  (forall selected, exists verdict,
      validateMultipleChoice q selected = Normal verdict)
  /\ (forall selected, exists verdict,
        validateSingleChoice q selected = Normal verdict).
Proof.
  intros [_ Hchoice] Htype.
  destruct (Hchoice Htype) as (answers & Hanswers & _).
  unfold validateMultipleChoice, validateSingleChoice. rewrite Hanswers.
  split; intro selected; [eauto |].
  destruct (firstEntry answers); eauto.
Qed.

Lemma step_runnable (now : Z) (e : Event) (s : Session) :
  wellFormed s -> Forall runnable (questions (this s)) ->
  match e with PromptRejects _ => False | _ => True end ->
  ~ failed s -> ~ failed (step now e s).
Proof.
  intros Hwf Hall He Hs.
  destruct e as [r | message |]; [| contradiction |].
  2: { unfold failed. destruct (timer_leaves_control now s) as [-> _].
       exact Hs. }
  unfold step. unfold wellFormed in Hwf.
  destruct (control s) as [| i q | i q ua | i q | how] eqn:Hc.
  - destruct r; try (unfold failed; rewrite Hc; tauto).
    unfold resumeConfirmStart. destruct yes; simpl.
    + now apply nextQuestion_runnable.
    + unfold failed. simpl. tauto.
  - destruct Hwf as (Hnth & _ & _).
    assert (Hq : runnable q).
    { rewrite Forall_forall in Hall. apply Hall.
      now apply nth_error_In with i. }
    assert (Hsame : ~ failed s) by exact Hs.
    unfold resumeAnswer.
    destruct (String.eqb (Question.type q) "multiple-choice") eqn:Em.
    { destruct r; try exact Hsame.
      destruct (_ && _)%bool; [| exact Hsame].
      destruct (validators_runnable q Hq) as [Hmultiple _].
      { unfold isChoiceType. now rewrite Em. }
      destruct (Hmultiple (sortAscending values)) as [verdict ->].
      now apply recordAttempt_runnable. }
    destruct (String.eqb (Question.type q) "single-choice") eqn:Es.
    { destruct r as [| [| | | selected |] | |]; try exact Hsame.
      destruct (isOptionIndex q selected); [| exact Hsame].
      destruct (validators_runnable q Hq) as [_ Hsingle].
      { unfold isChoiceType. now rewrite Em, Es. }
      destruct (Hsingle selected) as [verdict ->].
      now apply recordAttempt_runnable. }
    destruct (String.eqb (Question.type q) "free-form"); [| exact Hsame].
    destruct r; try exact Hsame.
    destruct (String.eqb (trim text) ""); [exact Hsame |].
    unfold failed. simpl. tauto.
  - destruct Hwf as (Hnth & _ & _).
    assert (Hq : runnable q).
    { rewrite Forall_forall in Hall. apply Hall.
      now apply nth_error_In with i. }
    unfold resumeSelfAssessment.
    destruct r; try exact Hs.
    destruct (existsb _ _); [| exact Hs].
    now apply recordAttempt_runnable.
  - destruct Hwf as (Hnth & _ & _).
    assert (Hq : runnable q).
    { rewrite Forall_forall in Hall. apply Hall.
      now apply nth_error_In with i. }
    destruct r; try exact Hs.
    unfold resumeRetry. destruct yes; simpl.
    + destruct (allowRetry (this s)).
      * unfold failed. rewrite beginAttempt_runnable; [tauto | exact Hq].
      * now apply nextQuestion_runnable.
    + now apply nextQuestion_runnable.
  - exact Hs.
Qed.

Lemma run_runnable (events : list (Z * Event)) (s : Session) :
  invariant s -> Forall runnable (questions (this s)) ->
  promptsAnswer events -> ~ failed s -> ~ failed (run s events).
Proof.
  revert s. induction events as [| [now e] rest IH];
    intros s Hinv Hall Hevents Hs; simpl; [exact Hs |].
  inversion Hevents as [| ? ? He Hrest]; subst. simpl in He.
  apply IH.
  - now apply step_invariant.
  - destruct (step_configuration now e s) as (-> & _ & _). exact Hall.
  - exact Hrest.
  - apply step_runnable; try assumption. apply Hinv.
Qed.

(** X13. A quiz whose questions all went through the loader's checks
    never ends on an error as long as no prompt fails, provided the
    questions are as the engine expects them where the loader does not
    look: every number among the correct answers is whole and not
    negative, and every keyword is a string. Then, whatever the user
    answers and whenever the timer fires, [start()] is not rejected and
    its [catch] block is not reached. *)
Theorem loaded_quiz_never_fails :
  forall (file : list FileQuestion.t) (qs : list Question.t)
         (options : QuizOptions) (events : list (Z * Event)),
    validateEach file 0 = None ->
    allSome (map asQuestion file) = Some qs ->
    Forall countsFromZero qs ->
    opt_questions options = Some qs ->
    promptsAnswer events ->
    ~ failed (session options events).
Proof.
  intros file qs options events Hvalid Hqs Hzero Hoptions Hevents.
  unfold session. apply run_runnable.
  - now apply start_invariant.
  - simpl. rewrite Hoptions.
    apply validateEach_loaded in Hvalid.
    apply allSome_Forall2 in Hqs.
    rewrite Forall_forall in *. intros q Hin.
    destruct (Forall2_right _ _ _ _ Hqs Hin) as (fq & Hfq & Hq).
    apply (loaded_runnable fq); auto.
  - exact Hevents.
  - unfold failed. simpl. tauto.
Qed.

Lemma loaded_quiz_never_fails_witness :
  let file := [fileSingle; fileMultiple; fileFreeFormSample] in
  let qs := [sampleSingle; sampleMultiple; sampleFreeForm] in
  let options := quizOf qs 60000 false in
  let events := [(0, PromptAnswers (Confirm true));
                 (5, PromptAnswers (ListChoice (JNum 0)));
                 (9, TimerFires);
                 (12, PromptAnswers (Checkbox [3; 1]))] in
  validateEach file 0 = None
  /\ allSome (map asQuestion file) = Some qs
  /\ Forall countsFromZero qs
  /\ promptsAnswer events
  /\ ~ failed (session options events).
Proof.
  intros file qs options events.
  assert (Hvalid : validateEach file 0 = None) by (vm_compute; reflexivity).
  assert (Hqs : allSome (map asQuestion file) = Some qs)
    by (vm_compute; reflexivity).
  assert (Hzero : Forall countsFromZero qs).
  { repeat constructor; intros answers n Hanswers Hin;
      inversion Hanswers; subst; simpl in Hin;
      repeat (destruct Hin as [Hin | Hin]; [inversion Hin; lia |]);
      contradiction. }
  assert (Hoptions : opt_questions options = Some qs) by reflexivity.
  assert (Hevents : promptsAnswer events)
    by (repeat constructor).
  split; [exact Hvalid |]. split; [exact Hqs |]. split; [exact Hzero |].
  split; [exact Hevents |].
  exact (loaded_quiz_never_fails file qs options events
           Hvalid Hqs Hzero Hoptions Hevents).
Defined.

(** The loader lets through what the engine fails on: a correct answer
    of 0.5, a correct answer of -2, a keyword that is a number. None of
    the three questions is one the hypotheses above allow. *)
Example loader_lets_through :
  validateEach
    [fileChoice "a" "single-choice" ["A"; "B"] [FNumber (Finite (1 # 2))];
     fileChoice "b" "single-choice" ["A"; "B"] [whole (-2)];
     fileFreeForm "c" [whole 5]] 0
  = None
  /\ asQuestion
       (fileChoice "a" "single-choice" ["A"; "B"] [FNumber (Finite (1 # 2))])
     = None
  /\ asQuestion (fileFreeForm "c" [whole 5]) = None.
Proof. repeat split; vm_compute; reflexivity. Qed.

(** *** The correct option of a single-choice question *)

(** X14. A single-choice question that went through the loader's checks
    has one correct answer. When the engine holds it (it is not a number
    that is not whole), either exactly one of the options is judged
    correct, whatever the user selects, or the answer is a whole number
    below [-1], which the loader lets through, and then no option the
    user can select is judged correct. The only other answer the loader
    lets through is a number that is not whole (a fraction, or the
    negative infinity of a literal out of range). *)
Theorem loaded_single_choice_answer :
  forall (fq : FileQuestion.t) (index : nat),
    FileQuestion.type fq = "single-choice" ->
    validateQuestion fq index = None ->
    exists answer,
      FileQuestion.correctAnswers fq = Some [answer]
      /\ match asValue answer with
         | Some v =>
             forall q,
               Question.options q = FileQuestion.options fq ->
               Question.correctAnswers q = Some [v] ->
               (exists k,
                   isOptionIndex q k = true
                   /\ forall selected,
                        validateSingleChoice q selected
                        = Normal (selected =? k))
               \/ (exists n,
                      v = JNum n /\ n < -1
                      /\ forall selected,
                           isOptionIndex q selected = true ->
                           validateSingleChoice q selected = Normal false)
         | None => exists x, answer = FNumber x
         end.
Proof.
  intros fq index Htype Hvalid.
  assert (Hloaded : loaded fq) by now exists index.
  assert (Hchoice : isChoiceType (FileQuestion.type fq) = true)
    by now rewrite Htype.
  destruct (loaded_choice fq Hloaded Hchoice) as [num Hq].
  destruct (validateChoiceQuestion_checked fq num Hq)
    as (_ & answers & Hanswers & Hone & _ & Hrefs).
  specialize (Hone Htype).
  destruct answers as [| answer [| more rest]]; try discriminate.
  exists answer. split; [exact Hanswers |].
  inversion Hrefs as [| ? ? Hanswer _]; subst.
  destruct (asValue answer) as [v |] eqn:Hv.
  2: { destruct answer as [| b | x | s |]; try discriminate.
       - now exists x.
       - exfalso. unfold referencesOption in Hanswer. simpl in Hanswer.
         rewrite findIndex_none, Qeq_bool_refl in Hanswer. discriminate. }
  intros q Hoptions Hcorrect.
  destruct (referencesOption_bound _ answer v Hanswer Hv) as [Hne Hlt].
  rewrite <- Hoptions in Hne, Hlt.
  unfold validateSingleChoice. rewrite Hcorrect. simpl firstEntry.
  assert (Hin : forall k, 0 <= k ->
                          k < Z.of_nat (List.length (Question.options q)) ->
                          isOptionIndex q k = true).
  { intros k H0 H1. unfold isOptionIndex.
    apply Bool.andb_true_iff. split; [now apply Z.leb_le | now apply Z.ltb_lt]. }
  destruct v as [| | b | n | t]; simpl in Hne, Hlt.
  1-3, 5:
    left; eexists; split; [| intro selected; reflexivity];
    apply Hin; [| exact Hlt];
    match goal with
    | |- 0 <= findIndex ?p ?l => pose proof (findIndex_lower_bound p l); lia
    end.
  destruct (Z_lt_le_dec n 0) as [Hneg | Hpos].
  - right. exists n. split; [reflexivity |]. split; [lia |].
    intros selected Hsel. f_equal. apply Z.eqb_neq.
    unfold isOptionIndex in Hsel.
    apply Bool.andb_true_iff in Hsel as [H0 _]. apply Z.leb_le in H0. lia.
  - left. exists n. split; [now apply Hin |]. reflexivity.
Qed.

Lemma loaded_single_choice_answer_witness :
  let fq := fileChoice "w" "single-choice" ["A"; "B"] [whole (-2)] in
  let q := choiceQuestion "w" "single-choice" ["A"; "B"] [JNum (-2)] in
  FileQuestion.type fq = "single-choice"
  /\ validateQuestion fq 0 = None
  /\ asQuestion fq = Some q
  /\ exists answer, FileQuestion.correctAnswers fq = Some [answer].
Proof.
  intros fq q.
  assert (Htype : FileQuestion.type fq = "single-choice") by reflexivity.
  assert (Hvalid : validateQuestion fq 0 = None) by (vm_compute; reflexivity).
  split; [exact Htype |]. split; [exact Hvalid |].
  split; [vm_compute; reflexivity |].
  destruct (loaded_single_choice_answer fq 0%nat Htype Hvalid)
    as (answer & Hanswer & _).
  exists answer. exact Hanswer.
Defined.

(* ------------------------------------------------------------------ *)
(** ** One session after the other *)
(* ------------------------------------------------------------------ *)

Section StoreComposition.

Variable Result : Type.

Import ResultsManager.

(** Cutting down to the last 50 before appending changes nothing of the
    last 50 afterwards. *)
Lemma keepLast50_app (l rs : list Result) :
  keepLast50 (keepLast50 l ++ rs) = keepLast50 (l ++ rs).
Proof.
  rewrite !keepLast50_skipn.
  set (a := (List.length l - 50)%nat).
  assert (Happ : skipn a l ++ rs = skipn a (l ++ rs)).
  { rewrite skipn_app.
    replace (a - List.length l)%nat with 0%nat by (unfold a; lia).
    reflexivity. }
  rewrite Happ, skipn_skipn, length_skipn, length_app.
  f_equal. unfold a. lia.
Qed.

Lemma saveResult_succeeds (faults : Faults) (disk : Disk Result)
  (result : Result) :
  nothingFails faults disk ->
  fst (fst (saveResult faults disk result))
  = mkDisk true (Some (JsonArray (keepLast50 (stored disk ++ [result])))).
Proof.
  unfold nothingFails, saveResult, saveResult_try, loadResults,
    ensureResultsDir, stored.
  intros (Hdir & Hread & Hother & Hwrite).
  destruct (dirExists disk) eqn:Ed; [| destruct (mkdirFails faults) eqn:Em];
    simpl.
  2: destruct Hdir; discriminate.
  all: destruct (resultsFile disk) as [[] |] eqn:Ef; simpl;
    try contradiction;
    try (destruct Hread as [Hread | Hread]; [discriminate |];
         rewrite Hread; simpl);
    rewrite ?Ed; simpl; rewrite Hwrite; simpl; rewrite ?Ed; reflexivity.
Qed.

Lemma saveAll_snoc (faults : Faults) (disk : Disk Result)
  (results : list Result) (result : Result) :
  saveAll faults disk (results ++ [result])
  = fst (fst (saveResult faults (saveAll faults disk results) result)).
Proof. unfold saveAll. now rewrite fold_left_app. Qed.

Lemma saveAll_stored (faults : Faults) (disk : Disk Result)
  (results : list Result) :
  nothingFails faults disk -> readFails faults = false -> results <> [] ->
  saveAll faults disk results
  = mkDisk true (Some (JsonArray (keepLast50 (stored disk ++ results)))).
Proof.
  intros Hok Hread.
  induction results as [| result results IH] using rev_ind;
    intro Hne; [contradiction |].
  rewrite saveAll_snoc.
  destruct results as [| first rest].
  - simpl. now apply saveResult_succeeds.
  - rewrite IH by discriminate.
    rewrite saveResult_succeeds.
    + change (stored (mkDisk true (Some (JsonArray ?l)))) with l.
      now rewrite keepLast50_app, <- app_assoc.
    + destruct Hok as (_ & _ & _ & Hwrite).
      unfold nothingFails. simpl.
      repeat split; auto. discriminate.
Qed.

End StoreComposition.

(** X15. When nothing fails, saving the results of one session after
    the other leaves in the store the prior results followed by the new
    ones, cut down to the 50 most recent, whatever the number of results
    the store held before; and [loadResults] then gives exactly these
    back, without a warning. *)
Theorem repeated_saves_keep_last_fifty :
  forall (Result : Type) (faults : ResultsManager.Faults)
         (disk : ResultsManager.Disk Result) (results : list Result),
    nothingFails faults disk ->
    ResultsManager.readFails faults = false ->
    results <> [] ->
    let disk' := saveAll faults disk results in
    let all := ResultsManager.stored disk ++ results in
    ResultsManager.loadResults faults disk'
    = (ResultsManager.LoadedArray (skipn (List.length all - 50) all), disk', [])
    /\ (List.length (ResultsManager.stored disk') <= 50)%nat.
Proof.
  intros Result faults disk results Hok Hread Hne disk' all.
  assert (Hdisk : disk'
                  = ResultsManager.mkDisk true
                      (Some (ResultsManager.JsonArray
                               (ResultsManager.keepLast50 all))))
    by now apply saveAll_stored.
  rewrite Hdisk. unfold ResultsManager.loadResults, ResultsManager.stored.
  simpl. rewrite Hread, keepLast50_length.
  split; [| lia]. now rewrite keepLast50_skipn.
Qed.

Lemma repeated_saves_keep_last_fifty_witness :
  let faults := ResultsManager.mkFaults false false false in
  let disk :=
    ResultsManager.mkDisk true (Some (ResultsManager.JsonArray (seq 1 49))) in
  let results := [50; 51; 52]%nat in
  nothingFails faults disk
  /\ ResultsManager.loadResults faults (saveAll faults disk results)
     = (ResultsManager.LoadedArray
          (skipn (List.length (seq 1 49 ++ results) - 50) (seq 1 49 ++ results)),
        saveAll faults disk results, []).
Proof.
  intros faults disk results.
  assert (Hok : nothingFails faults disk).
  { unfold nothingFails. simpl. repeat split; auto. discriminate. }
  assert (Hread : ResultsManager.readFails faults = false) by reflexivity.
  assert (Hne : results <> []) by discriminate.
  split; [exact Hok |].
  exact (proj1 (repeated_saves_keep_last_fifty nat faults disk results
                  Hok Hread Hne)).
Defined.

(* ------------------------------------------------------------------ *)
(** ** The keyword hint of [validateFreeForm] *)
(* ------------------------------------------------------------------ *)

Lemma includes_cons (c : ascii) (s sub : string) :
  includes (String c s) sub
  = (String.prefix sub (String c s) || includes s sub)%bool.
Proof. reflexivity. Qed.

Lemma includes_prefix (s sub : string) :
  String.prefix sub s = true -> includes s sub = true.
Proof.
  intro H. destruct s as [| c s].
  - unfold includes. now rewrite H.
  - now rewrite includes_cons, H.
Qed.

Lemma includes_occursIn (s sub : string) :
  includes s sub = true <-> occursIn sub s.
Proof.
  unfold occursIn. split.
  - induction s as [| c s IH]; intro H.
    + unfold includes in H. rewrite Bool.orb_false_r in H.
      apply prefix_occurs in H as [after H].
      now exists "", after.
    + rewrite includes_cons in H.
      apply Bool.orb_true_iff in H as [H | H].
      * apply prefix_occurs in H as [after H]. now exists "", after.
      * destruct (IH H) as (before & after & ->).
        now exists (String c before), after.
  - intros (before & after & ->).
    induction before as [| c before IH].
    + apply includes_prefix, prefix_occurs. now exists after.
    + change (String c before ++ sub ++ after)%string
        with (String c (before ++ sub ++ after)).
      rewrite includes_cons, IH. apply Bool.orb_true_r.
Qed.

Lemma lowerChar_idempotent (c : ascii) : lowerChar (lowerChar c) = lowerChar c.
Proof. destruct c as [[] [] [] [] [] [] [] []]; reflexivity. Qed.

Lemma toLowerCase_idempotent (s : string) :
  toLowerCase (toLowerCase s) = toLowerCase s.
Proof.
  induction s as [| c s IH]; simpl; [reflexivity |].
  now rewrite lowerChar_idempotent, IH.
Qed.

(** *** Lower case *)

Lemma nat_of_ascii_inj (a b : ascii) : nat_of_ascii a = nat_of_ascii b -> a = b.
Proof.
  intro H. rewrite <- (ascii_nat_embedding a), <- (ascii_nat_embedding b).
  now rewrite H.
Qed.

Lemma isUpperCase_range (c : ascii) :
  isUpperCase c = true <-> (65 <= nat_of_ascii c <= 90)%nat.
Proof.
  unfold isUpperCase. rewrite Bool.andb_true_iff, !Nat.leb_le. tauto.
Qed.

Lemma lowerChar_nat (c : ascii) :
  nat_of_ascii (lowerChar c)
  = if isUpperCase c then (nat_of_ascii c + 32)%nat else nat_of_ascii c.
Proof.
  unfold lowerChar. fold (isUpperCase c).
  destruct (isUpperCase c) eqn:E; [| reflexivity].
  apply isUpperCase_range in E. apply nat_ascii_embedding. lia.
Qed.

Lemma lowerChar_same (a b : ascii) :
  lowerChar a = lowerChar b <-> sameLetter a b.
Proof.
  unfold sameLetter. split.
  - intro H. apply (f_equal nat_of_ascii) in H. rewrite !lowerChar_nat in H.
    destruct (isUpperCase a) eqn:Ea; destruct (isUpperCase b) eqn:Eb.
    + left. apply nat_of_ascii_inj. lia.
    + right. left. split; [reflexivity | lia].
    + right. right. split; [reflexivity | lia].
    + left. now apply nat_of_ascii_inj.
  - intros [-> | [[Ha Hb] | [Hb Ha]]]; [reflexivity | |];
      apply nat_of_ascii_inj; rewrite !lowerChar_nat.
    + rewrite Ha. apply isUpperCase_range in Ha.
      destruct (isUpperCase b) eqn:Eb; [| now rewrite Hb].
      apply isUpperCase_range in Eb. lia.
    + rewrite Hb. apply isUpperCase_range in Hb.
      destruct (isUpperCase a) eqn:Ea; [| now rewrite Ha].
      apply isUpperCase_range in Ea. lia.
Qed.

Lemma toLowerCase_same (s t : string) :
  toLowerCase s = toLowerCase t <-> sameIgnoringCase s t.
Proof.
  revert t. induction s as [| a s IH]; intros [| b t]; simpl;
    try (split; [discriminate | contradiction]); [tauto |].
  rewrite <- IH, <- lowerChar_same. split.
  - intro H. injection H as H1 H2. now split.
  - intros [H1 H2]. now rewrite H1, H2.
Qed.

Lemma toLowerCase_append (s t : string) :
  toLowerCase (s ++ t) = (toLowerCase s ++ toLowerCase t)%string.
Proof. induction s as [| c s IH]; simpl; [reflexivity | now rewrite IH]. Qed.

Lemma toLowerCase_split (s x y : string) :
  toLowerCase s = (x ++ y)%string ->
  exists s1 s2,
    s = (s1 ++ s2)%string /\ toLowerCase s1 = x /\ toLowerCase s2 = y.
Proof.
  revert s. induction x as [| c x IH]; intros s H.
  - now exists "", s.
  - destruct s as [| d s]; [discriminate |].
    simpl in H. injection H as Hc H.
    destruct (IH s H) as (s1 & s2 & -> & H1 & H2).
    exists (String d s1), s2. simpl. now rewrite Hc, H1.
Qed.

(** The keyword occurs in the answer, both in lower case, exactly when a
    part of the answer is the keyword up to the case of its letters. *)
Lemma occursIn_ignoring_case (keyword answer : string) :
  occursIn (toLowerCase keyword) (toLowerCase answer)
  <-> exists before found after,
        answer = (before ++ found ++ after)%string
        /\ sameIgnoringCase found keyword.
Proof.
  unfold occursIn. split.
  - intros (x & y & H).
    apply toLowerCase_split in H as (before & rest & -> & _ & H).
    apply toLowerCase_split in H as (found & after & -> & H & _).
    exists before, found, after. split; [reflexivity |].
    now apply toLowerCase_same.
  - intros (before & found & after & -> & H).
    apply toLowerCase_same in H.
    exists (toLowerCase before), (toLowerCase after).
    now rewrite !toLowerCase_append, H.
Qed.

(** X17. For an answer and keywords of ASCII characters,
    [validateFreeForm] prints the keyword hint exactly when a part of the
    answer is one of the keywords of the question up to the case of its
    letters; so an empty keyword gives the hint for every answer, and the
    case of the answer never matters. Nothing else is printed before the
    self-assessment prompt. *)
Theorem keyword_hint_when_keyword_occurs :
  forall (q : Question.t) (answer : string),
    asciiOnly answer = true ->
    (forall keywords keyword,
        Question.keywords q = Some keywords -> In keyword keywords ->
        asciiOnly keyword = true) ->
    (validateFreeForm_lines q answer = [OutKeywordHint]
     <-> exists keywords keyword before found after,
           Question.keywords q = Some keywords
           /\ In keyword keywords
           /\ answer = (before ++ found ++ after)%string
           /\ sameIgnoringCase found keyword)
    /\ (validateFreeForm_lines q answer = [OutKeywordHint]
        \/ validateFreeForm_lines q answer = [])
    /\ validateFreeForm_lines q (toLowerCase answer)
       = validateFreeForm_lines q answer.
Proof.
  intros q answer _ _. unfold validateFreeForm_lines.
  rewrite toLowerCase_idempotent.
  destruct (Question.keywords q) as [[| first rest] |].
  - split; [| split; [now right | reflexivity]].
    split; [discriminate |].
    intros (keywords & keyword & ? & ? & ? & H & Hin & _). inversion H; subst.
    contradiction.
  - set (keywords := first :: rest).
    destruct (existsb _ keywords) eqn:Hany.
    + split; [| split; [now left | reflexivity]].
      split; [intros _ | reflexivity].
      apply existsb_exists in Hany as (keyword & Hin & Hk).
      apply includes_occursIn, occursIn_ignoring_case in Hk
        as (before & found & after & Hsplit & Hsame).
      exists keywords, keyword, before, found, after. now repeat split.
    + split; [| split; [now right | reflexivity]].
      split; [discriminate |].
      intros (keywords' & keyword & before & found & after
              & H & Hin & Hsplit & Hsame).
      inversion H; subst keywords'.
      assert (Hex : existsb (fun k => includes (toLowerCase answer)
                                               (toLowerCase k)) keywords
                    = true).
      { apply existsb_exists. exists keyword. split; [exact Hin |].
        apply includes_occursIn, occursIn_ignoring_case.
        now exists before, found, after. }
      congruence.
  - split; [| split; [now right | reflexivity]].
    split; [discriminate |].
    intros (keywords & keyword & ? & ? & ? & H & _). discriminate.
Qed.

Lemma keyword_hint_when_keyword_occurs_witness :
  let q := freeFormQuestion "f2" ["lambda"; "serverless"] in
  let answer := "AWS Lambda runs code" in
  asciiOnly answer = true
  /\ validateFreeForm_lines q answer = [OutKeywordHint]
  /\ exists keywords keyword before found after,
       Question.keywords q = Some keywords
       /\ In keyword keywords
       /\ answer = (before ++ found ++ after)%string
       /\ sameIgnoringCase found keyword.
Proof.
  intros q answer.
  assert (Hanswer : asciiOnly answer = true) by reflexivity.
  assert (Hkeywords : forall keywords keyword,
             Question.keywords q = Some keywords -> In keyword keywords ->
             asciiOnly keyword = true).
  { intros keywords keyword H Hin. injection H as <-.
    destruct Hin as [<- | [<- | []]]; reflexivity. }
  assert (Hhint : validateFreeForm_lines q answer = [OutKeywordHint])
    by reflexivity.
  split; [exact Hanswer |]. split; [exact Hhint |].
  exact (proj1 (proj1 (keyword_hint_when_keyword_occurs q answer
                         Hanswer Hkeywords)) Hhint).
Defined.

(* ------------------------------------------------------------------ *)
(** ** The breakdown by question type *)
(* ------------------------------------------------------------------ *)

Lemma statOf_In (type : string) (stats : list (string * TypeStat))
  (stat : TypeStat) :
  NoDup (map fst stats) ->
  (statOf type stats = Some stat <-> In (type, stat) stats).
Proof.
  induction stats as [| [t st] rest IH]; simpl; intro Hnd.
  - split; [discriminate | contradiction].
  - inversion Hnd as [| ? ? Hnotin Hrest]; subst.
    destruct (String.eqb t type) eqn:E.
    + apply String.eqb_eq in E. subst t. split.
      * intro H. injection H as ->. now left.
      * intros [H | H]; [congruence |].
        exfalso. apply Hnotin. apply in_map_iff. now exists (type, stat).
    + apply String.eqb_neq in E. rewrite (IH Hrest). split.
      * intro H. now right.
      * intros [H | H]; [congruence | exact H].
Qed.

Lemma tally_keys (type : string) (isCorrect : bool)
  (stats : list (string * TypeStat)) (t : string) :
  In t (map fst (tally type isCorrect stats))
  <-> t = type \/ In t (map fst stats).
Proof.
  induction stats as [| [k st] rest IH]; simpl.
  - intuition congruence.
  - destruct (String.eqb k type) eqn:E; simpl.
    + apply String.eqb_eq in E. subst k. intuition congruence.
    + rewrite IH. intuition congruence.
Qed.

Lemma tally_NoDup (type : string) (isCorrect : bool)
  (stats : list (string * TypeStat)) :
  NoDup (map fst stats) -> NoDup (map fst (tally type isCorrect stats)).
Proof.
  induction stats as [| [k st] rest IH]; simpl; intro Hnd.
  - repeat constructor. simpl. tauto.
  - inversion Hnd as [| ? ? Hnotin Hrest]; subst.
    destruct (String.eqb k type) eqn:E; simpl.
    + now constructor.
    + constructor; [| now apply IH].
      rewrite tally_keys. intros [-> | H]; [| contradiction].
      now rewrite String.eqb_refl in E.
Qed.

Lemma statOf_tally (type : string) (isCorrect : bool)
  (stats : list (string * TypeStat)) (t : string) :
  statOf t (tally type isCorrect stats)
  = if String.eqb type t
    then Some (match statOf type stats with
               | Some stat =>
                   mkTypeStat (if isCorrect then S (correct stat)
                               else correct stat)
                              (S (total stat))
               | None => mkTypeStat (if isCorrect then 1 else 0) 1
               end)
    else statOf t stats.
Proof.
  induction stats as [| [k st] rest IH]; simpl.
  - reflexivity.
  - destruct (String.eqb k type) eqn:E; simpl.
    + apply String.eqb_eq in E. subst k.
      destruct (String.eqb type t); reflexivity.
    + rewrite IH. destruct (String.eqb type t) eqn:Et; [| reflexivity].
      apply String.eqb_eq in Et. subst t. now rewrite E.
Qed.

Lemma ofType_snoc (type : string) (answers : list AnswerRecord.t)
  (answer : AnswerRecord.t) :
  ofType type (answers ++ [answer])
  = ofType type answers
    ++ (if String.eqb (AnswerRecord.type answer) type then [answer] else []).
Proof. unfold ofType. now rewrite filter_app. Qed.

Lemma countCorrect_app (l1 l2 : list AnswerRecord.t) :
  countCorrect (l1 ++ l2) = (countCorrect l1 + countCorrect l2)%nat.
Proof. unfold countCorrect. now rewrite filter_app, length_app. Qed.

Lemma typeStats_snoc (answers : list AnswerRecord.t) (answer : AnswerRecord.t) :
  typeStats (answers ++ [answer])
  = if inheritedProperty (AnswerRecord.type answer) then typeStats answers
    else tally (AnswerRecord.type answer) (AnswerRecord.isCorrect answer)
               (typeStats answers).
Proof. unfold typeStats. now rewrite fold_left_app. Qed.

Lemma typeStats_tallies (answers : list AnswerRecord.t) :
  tallies answers (typeStats answers).
Proof.
  induction answers as [| answer answers IH] using rev_ind.
  - split; [constructor |]. intro type. now right.
  - destruct IH as [Hnd Hstats]. rewrite typeStats_snoc.
    destruct (inheritedProperty (AnswerRecord.type answer)) eqn:Hinh.
    + split; [exact Hnd |]. intro type. specialize (Hstats type).
      rewrite ofType_snoc.
      destruct (String.eqb (AnswerRecord.type answer) type) eqn:E.
      * apply String.eqb_eq in E. subst type.
        destruct (statOf _ (typeStats answers)) as [stat |].
        -- destruct Hstats as [H _]. congruence.
        -- now left.
      * rewrite app_nil_r. exact Hstats.
    + split; [now apply tally_NoDup |]. intro type.
      rewrite statOf_tally, ofType_snoc.
      destruct (String.eqb (AnswerRecord.type answer) type) eqn:E.
      * apply String.eqb_eq in E. subst type.
        specialize (Hstats (AnswerRecord.type answer)).
        rewrite length_app, countCorrect_app. unfold countCorrect at 2.
        simpl.
        destruct (statOf _ (typeStats answers)) as [stat |]; simpl.
        -- destruct Hstats as (_ & Ht & Hc & _).
           repeat split; [exact Hinh | lia | | lia].
           destruct (AnswerRecord.isCorrect answer); simpl; lia.
        -- destruct Hstats as [H | H]; [congruence |]. rewrite H. simpl.
           repeat split; [exact Hinh | | lia].
           destruct (AnswerRecord.isCorrect answer); reflexivity.
      * rewrite app_nil_r. apply Hstats.
Qed.

Lemma countCorrect_bound (answers : list AnswerRecord.t) :
  (countCorrect answers <= List.length answers)%nat.
Proof. unfold countCorrect. apply filter_length_le. Qed.

(** X18. The breakdown of [showDetailedBreakdown] has one entry for each
    type the answers have, apart from the names every object inherits:
    its [total] is the number of answers of the type and its [correct]
    the number of correct ones among them. So no entry has a total of 0,
    and no entry has more correct answers than answers: the percentage
    printed for a type is never a division by zero. *)
Theorem typeStats_count_by_type :
  forall (answers : list AnswerRecord.t),
    NoDup (map fst (typeStats answers))
    /\ (forall type stat,
          In (type, stat) (typeStats answers) ->
          inheritedProperty type = false
          /\ total stat = List.length (ofType type answers)
          /\ correct stat = countCorrect (ofType type answers)
          /\ (1 <= total stat)%nat
          /\ (correct stat <= total stat)%nat)
    /\ (forall answer,
          In answer answers ->
          inheritedProperty (AnswerRecord.type answer) = false ->
          In (AnswerRecord.type answer) (map fst (typeStats answers))).
Proof.
  intro answers.
  destruct (typeStats_tallies answers) as [Hnd Hstats].
  split; [exact Hnd |]. split.
  - intros type stat Hin. apply statOf_In in Hin; [| exact Hnd].
    specialize (Hstats type). rewrite Hin in Hstats.
    destruct Hstats as (H1 & H2 & H3 & H4).
    repeat split; try assumption.
    rewrite H2, H3. apply countCorrect_bound.
  - intros answer Hin Hinh.
    specialize (Hstats (AnswerRecord.type answer)).
    destruct (statOf (AnswerRecord.type answer) (typeStats answers))
      as [stat |] eqn:Hstat.
    + apply statOf_In in Hstat; [| exact Hnd].
      apply in_map_iff. now exists (AnswerRecord.type answer, stat).
    + destruct Hstats as [H | H]; [congruence |].
      exfalso.
      assert (Hof : In answer (ofType (AnswerRecord.type answer) answers)).
      { apply filter_In. split; [exact Hin | apply String.eqb_refl]. }
      rewrite H in Hof. contradiction.
Qed.

Lemma typeStats_count_by_type_witness :
  let record := fun type isCorrect =>
    AnswerRecord.mk "q" "Which one?" type (AnswerIndex 0) isCorrect None 0 in
  let answers := [record "single-choice" true; record "free-form" false;
                  record "single-choice" false; record "toString" true] in
  typeStats answers
  = [("single-choice", mkTypeStat 1 2); ("free-form", mkTypeStat 0 1)]
  /\ total (mkTypeStat 1 2) = List.length (ofType "single-choice" answers)
  /\ correct (mkTypeStat 1 2) = countCorrect (ofType "single-choice" answers).
Proof.
  intros record answers.
  assert (Hstats : typeStats answers
                   = [("single-choice", mkTypeStat 1 2);
                      ("free-form", mkTypeStat 0 1)])
    by reflexivity.
  split; [exact Hstats |].
  destruct (typeStats_count_by_type answers) as (_ & Hentries & _).
  destruct (Hentries "single-choice" (mkTypeStat 1 2)) as (_ & Ht & Hc & _).
  - rewrite Hstats. now left.
  - split; [exact Ht | exact Hc].
Defined.

(* ------------------------------------------------------------------ *)
(** ** Shuffling and loading *)
(* ------------------------------------------------------------------ *)

Section Shuffle.

Context {A : Type}.

Lemma assign_length (k : nat) (v : A) (array : list A) :
  List.length (assign k v array) = List.length array.
Proof.
  revert k. induction array as [| x rest IH]; intro k; [reflexivity |].
  destruct k; simpl; [reflexivity | now rewrite IH].
Qed.

Lemma assign_same (k : nat) (v x : A) (array : list A) :
  nth_error array k = Some x -> nth_error (assign k v array) k = Some v.
Proof.
  revert k. induction array as [| y rest IH]; intros k H.
  - destruct k; discriminate.
  - destruct k; simpl in *; [reflexivity | now apply IH].
Qed.

Lemma assign_other (k j : nat) (v : A) (array : list A) :
  j <> k -> nth_error (assign k v array) j = nth_error array j.
Proof.
  revert k j. induction array as [| y rest IH]; intros k j H.
  - reflexivity.
  - destruct k, j; simpl; try reflexivity; try contradiction.
    apply IH. congruence.
Qed.

(** Writing [v] over [x] trades one for the other. *)
Lemma assign_perm (k : nat) (v x : A) (array : list A) :
  nth_error array k = Some x ->
  Permutation (v :: array) (x :: assign k v array).
Proof.
  revert k. induction array as [| y rest IH]; intros k H.
  - destruct k; discriminate.
  - destruct k; simpl in *.
    + injection H as ->. apply perm_swap.
    + eapply perm_trans; [apply perm_swap |].
      eapply perm_trans; [apply perm_skip, IH, H |].
      apply perm_swap.
Qed.

Lemma swap_perm (i j : nat) (array : list A) :
  Permutation array (swap i j array).
Proof.
  unfold swap.
  destruct (nth_error array i) as [ai |] eqn:Hi; [| reflexivity].
  destruct (nth_error array j) as [aj |] eqn:Hj; [| reflexivity].
  apply Permutation_cons_inv with aj.
  eapply perm_trans; [apply (assign_perm i aj ai), Hi |].
  apply assign_perm.
  destruct (Nat.eq_dec j i) as [-> | Hne].
  - now apply assign_same with ai.
  - now rewrite assign_other.
Qed.

Lemma swap_in_range (i j : nat) (array : list A) :
  (j <= i)%nat -> (i < List.length array)%nat ->
  exists ai aj,
    nth_error array i = Some ai /\ nth_error array j = Some aj
    /\ nth_error (swap i j array) i = Some aj
    /\ nth_error (swap i j array) j = Some ai.
Proof.
  intros Hji Hi.
  destruct (nth_error array i) as [ai |] eqn:Ei.
  2: { apply nth_error_None in Ei. lia. }
  destruct (nth_error array j) as [aj |] eqn:Ej.
  2: { apply nth_error_None in Ej. lia. }
  exists ai, aj. unfold swap. rewrite Ei, Ej.
  repeat split.
  - destruct (Nat.eq_dec i j) as [-> | Hne].
    + rewrite (assign_same j ai aj); [congruence |].
      now apply assign_same with ai.
    + rewrite assign_other by exact Hne. now apply assign_same with ai.
  - apply assign_same with aj.
    destruct (Nat.eq_dec j i) as [-> | Hne].
    + now apply assign_same with ai.
    + now rewrite assign_other.
Qed.

Lemma shuffleFrom_perm (draw : nat -> nat) (i : nat) (array : list A) :
  Permutation array (shuffleFrom draw i array).
Proof.
  revert array. induction i as [| k IH]; intro array; simpl; [reflexivity |].
  eapply perm_trans; [apply swap_perm | apply IH].
Qed.

Lemma shuffleArray_perm (draw : nat -> nat) (array : list A) :
  Permutation array (shuffleArray draw array).
Proof. apply shuffleFrom_perm. Qed.

(** The loop leaves alone what is past its index. *)
Lemma swap_beyond (i j k : nat) (array : list A) :
  (j <= i)%nat -> (i < k)%nat ->
  nth_error (swap i j array) k = nth_error array k.
Proof.
  intros Hji Hik. unfold swap.
  destruct (nth_error array i); [| reflexivity].
  destruct (nth_error array j); [| reflexivity].
  rewrite !assign_other by lia. reflexivity.
Qed.

Lemma shuffleFrom_beyond (draw : nat -> nat) (i k : nat) (array : list A) :
  drawsInRange draw -> (i < k)%nat ->
  nth_error (shuffleFrom draw i array) k = nth_error array k.
Proof.
  intros Hdraw. revert array.
  induction i as [| n IH]; intros array Hik; simpl; [reflexivity |].
  rewrite IH by lia. apply swap_beyond; [apply Hdraw | lia].
Qed.

End Shuffle.

(** X19. [shuffleArray] rearranges the array: whatever [Math.random]
    gives, the result has the elements of the array, each as many times,
    and so the same length. Its last element is the one the first draw
    points at. *)
Theorem shuffleArray_rearranges :
  forall (A : Type) (draw : nat -> nat) (array : list A),
    drawsInRange draw ->
    Permutation array (shuffleArray draw array)
    /\ List.length (shuffleArray draw array) = List.length array
    /\ nth_error (shuffleArray draw array) (List.length array - 1)%nat
       = nth_error array (draw (List.length array - 1)%nat).
Proof.
  intros A draw array Hdraw.
  assert (Hperm : Permutation array (shuffleArray draw array))
    by apply shuffleArray_perm.
  split; [exact Hperm |].
  split; [symmetry; now apply Permutation_length |].
  unfold shuffleArray.
  destruct (List.length array - 1)%nat as [| k] eqn:Hlen.
  { simpl. pose proof (Hdraw 0%nat) as H0.
    now replace (draw 0%nat) with 0%nat by lia. }
  cbn [shuffleFrom]. rewrite shuffleFrom_beyond by (auto; lia).
  destruct (swap_in_range (S k) (draw (S k)) array)
    as (ai & aj & _ & Hj & Hi & _); [apply Hdraw | lia |].
  congruence.
Qed.

Lemma shuffleArray_rearranges_witness :
  let draw := fun i : nat => (i / 2)%nat in
  drawsInRange draw
  /\ Permutation [1; 2; 3; 4; 5]%nat (shuffleArray draw [1; 2; 3; 4; 5]%nat)
  /\ shuffleArray draw [1; 2; 3; 4; 5]%nat = [5; 1; 4; 2; 3]%nat.
Proof.
  intro draw.
  assert (Hdraw : drawsInRange draw).
  { intro i. unfold draw. apply Nat.Div0.div_le_upper_bound. lia. }
  split; [exact Hdraw |].
  split; [| reflexivity].
  exact (proj1 (shuffleArray_rearranges nat draw [1; 2; 3; 4; 5]%nat Hdraw)).
Defined.

(** X20. The questions [loadQuestions] returns have all gone through
    [validateQuestion], numbered from 1 in the order returned; they are
    questions of the category asked for, none more often than the file
    has it, in the order of the file when they are not shuffled, and no
    more of them than a positive limit allows; questions are left out
    only by a positive limit, which is then reached. *)
Theorem loadQuestions_checks_what_it_returns :
  forall (draw : nat -> nat) (questions : list FileQuestion.t)
         (options : LoadOptions) (result : list FileQuestion.t),
    drawsInRange draw ->
    loadQuestions draw questions options = inr result ->
    validateEach result 0 = None
    /\ Forall loaded result
    /\ (exists dropped,
          Permutation (result ++ dropped) (inCategory options questions)
          /\ (opt_shuffle options = false ->
              result ++ dropped = inCategory options questions)
          /\ (dropped <> [] ->
              exists limit,
                opt_limit options = Some limit /\ 0 < limit
                /\ List.length result = Z.to_nat limit))
    /\ (forall limit,
          opt_limit options = Some limit -> 0 < limit ->
          (List.length result <= Z.to_nat limit)%nat).
Proof.
  intros draw questions options result Hdraw. unfold loadQuestions.
  set (kept := inCategory options questions).
  set (shuffled := if opt_shuffle options then shuffleArray draw kept else kept).
  set (cut := match opt_limit options with
              | Some limit =>
                  if 0 <? limit then firstn (Z.to_nat limit) shuffled
                  else shuffled
              | None => shuffled
              end).
  destruct (validateEach cut 0) as [error |] eqn:Hvalid; [discriminate |].
  intro H. injection H as <-.
  split; [exact Hvalid |].
  split; [now apply validateEach_loaded with 0%nat |].
  assert (Hperm : Permutation shuffled kept).
  { unfold shuffled. destruct (opt_shuffle options); [| reflexivity].
    symmetry. apply shuffleArray_perm. }
  assert (Hsame : opt_shuffle options = false -> shuffled = kept).
  { unfold shuffled. now intros ->. }
  split.
  - unfold cut. destruct (opt_limit options) as [limit |].
    + destruct (0 <? limit) eqn:Hpos.
      * exists (skipn (Z.to_nat limit) shuffled).
        rewrite firstn_skipn. split; [exact Hperm |].
        split; [exact Hsame |]. intro Hdropped.
        exists limit. apply Z.ltb_lt in Hpos.
        split; [reflexivity |]. split; [exact Hpos |].
        apply firstn_length_le.
        destruct (le_lt_dec (List.length shuffled) (Z.to_nat limit)) as [Hle | Hlt];
          [| lia].
        exfalso. apply Hdropped. now apply skipn_all2.
      * exists []. rewrite app_nil_r. split; [exact Hperm |].
        split; [exact Hsame |]. intro Hdropped. now contradiction Hdropped.
    + exists []. rewrite app_nil_r. split; [exact Hperm |].
      split; [exact Hsame |]. intro Hdropped. now contradiction Hdropped.
  - intros limit Hlimit Hpos. unfold cut. rewrite Hlimit.
    apply Z.ltb_lt in Hpos. rewrite Hpos. apply firstn_le_length.
Qed.

(** A file whose third question has an unsupported type loads under a
    limit of 2: the questions the limit cuts off are not checked. *)
Lemma loadQuestions_checks_what_it_returns_witness :
  let draw := fun i : nat => 0%nat in
  let questions := [fileSingle; fileFreeFormSample; fileUnsupported] in
  let options := mkLoadOptions None false (Some 2) in
  drawsInRange draw
  /\ loadQuestions draw questions options
     = inr [fileSingle; fileFreeFormSample]
  /\ validateEach questions 0 = Some (UnsupportedType 3 "essay")
  /\ Forall loaded [fileSingle; fileFreeFormSample].
Proof.
  intros draw questions options.
  assert (Hdraw : drawsInRange draw) by (intro i; apply Nat.le_0_l).
  assert (Hload : loadQuestions draw questions options
                  = inr [fileSingle; fileFreeFormSample])
    by (vm_compute; reflexivity).
  split; [exact Hdraw |]. split; [exact Hload |].
  split; [vm_compute; reflexivity |].
  exact (proj1 (proj2 (loadQuestions_checks_what_it_returns
                         draw questions options
                         [fileSingle; fileFreeFormSample] Hdraw Hload))).
Defined.

(* ------------------------------------------------------------------ *)
(** ** A quiz without questions *)
(* ------------------------------------------------------------------ *)

(** X21. A quiz without questions (none given, or an empty array)
    finishes as soon as its start is confirmed: no question is presented,
    the timer is cleared if one was armed, and one result is saved, with
    no answers, a duration of 0 and, since 0 is divided by 0, a
    percentage that is not a number, which is graded "keep studying". *)
Theorem empty_quiz_finishes_at_once :
  forall (options : QuizOptions) (now : Z),
    opt_questions options = None \/ opt_questions options = Some [] ->
    let s := session options [(now, PromptAnswers (Confirm true))] in
    control s = Settled Completed
    /\ saveResultCalls s = [SessionResult.mk now 0 0 S754_nan 0 []]
    /\ timeoutId s <> Pending
    /\ questionHeaders (console s) = []
    /\ In (OutGrade KeepStudying) (console s).
Proof.
  intros [oq ot oa] now Hempty s. subst s. simpl in Hempty.
  destruct Hempty as [-> | ->];
    unfold session, start, constructor; simpl;
    unfold resumeConfirmStart; simpl; unfold nextQuestion; simpl;
    rewrite Z.sub_diag;
    (split; [reflexivity |]); (split; [reflexivity |]);
    (split; [destruct (0 <? _); discriminate |]);
    (split;
     [unfold questionHeaders; rewrite !filter_app; simpl;
      destruct (0 <? _); reflexivity
     | rewrite !in_app_iff; simpl; tauto]).
Qed.

Lemma empty_quiz_finishes_at_once_witness :
  let options := mkQuizOptions None (Some 60000) None in
  let s := session options [(7, PromptAnswers (Confirm true))] in
  (opt_questions options = None \/ opt_questions options = Some [])
  /\ control s = Settled Completed
  /\ saveResultCalls s = [SessionResult.mk 7 0 0 S754_nan 0 []].
Proof.
  intros options s.
  assert (Hempty : opt_questions options = None
                   \/ opt_questions options = Some []) by (left; reflexivity).
  split; [exact Hempty |].
  destruct (empty_quiz_finishes_at_once options 7 Hempty) as (H1 & H2 & _).
  split; [exact H1 | exact H2].
Defined.
